(** * S3 Object Lambda default configuration (Node.js 20): request pipeline

    A shallow embedding of [src/request/utils.ts],
    [src/handler/list_objects_base_handler.ts] and [src/s3objectlambda.ts],
    and the properties of the request-transform pipeline proved over it.

    Conventions of the embedding.
    - A JavaScript string is a [string]: the bytes of its UTF-8 encoding.
      [toLowerCase] acts on the ASCII letters; code points outside ASCII
      are left as they are.
    - A JavaScript object used as a dictionary is the list of its own
      entries in property order; a [Map] is the list of its entries in
      insertion order.
    - A function that can throw returns [Exc]; an [async] function that
      talks to the network returns [M]: the calls it made to its
      collaborators, in order, and how it settled.
    - [console.log] and [console.error] are left out. *)

From Stdlib Require Import String Ascii List ZArith NArith Bool Lia.
From Stdlib Require Import DecimalString DecimalZ DecimalPos.
Import ListNotations.
Open Scope string_scope.

(* ================================================================== *)
(** ** The JavaScript platform *)
(* ================================================================== *)

Module JS.

(** *** Exceptions *)

Record JSError := mkError { name : string; message : string }.

Inductive Exc (A : Type) : Type :=
| Ret (a : A)
| Throw (e : JSError).
Arguments Ret {A} a.
Arguments Throw {A} e.

Definition bindE {A B} (x : Exc A) (f : A -> Exc B) : Exc B :=
  match x with
  | Ret a => f a
  | Throw e => Throw e
  end.

Definition TypeError (msg : string) : JSError := mkError "TypeError" msg.
Definition URIError (msg : string) : JSError := mkError "URIError" msg.

(** *** Strings *)

Definition is_upper (c : ascii) : bool :=
  let n := N_of_ascii c in ((65 <=? n) && (n <=? 90))%N.

Definition lower_char (c : ascii) : ascii :=
  if is_upper c then ascii_of_N (N_of_ascii c + 32) else c.

(** [String.prototype.toLowerCase], on text in ASCII: the letters [A] to
    [Z] are lowered, and every other octet is kept.  The letters outside
    ASCII, which JavaScript lowers too, are kept as they are; what is
    proved of a lower-cased value is proved of a URL in ASCII. *)
Fixpoint toLowerCase (s : string) : string :=
  match s with
  | EmptyString => EmptyString
  | String c r => String (lower_char c) (toLowerCase r)
  end.

(** Every character of [s] passes the test [p]. *)
Fixpoint all (p : ascii -> bool) (s : string) : bool :=
  match s with
  | EmptyString => true
  | String c r => p c && all p r
  end.

(** [p] stands at the start of [s]. *)
Fixpoint has_prefix (p s : string) : bool :=
  match p with
  | EmptyString => true
  | String a p' =>
      match s with
      | EmptyString => false
      | String b s' => Ascii.eqb a b && has_prefix p' s'
      end
  end.

(** [String.prototype.startsWith] *)
Definition startsWith (s p : string) : bool := has_prefix p s.

(** [String.prototype.endsWith] *)
Fixpoint endsWith (s p : string) : bool :=
  (s =? p) || match s with
              | EmptyString => false
              | String _ r => endsWith r p
              end.

(** [String.prototype.slice(1)] *)
Definition slice1 (s : string) : string :=
  match s with
  | EmptyString => EmptyString
  | String _ r => r
  end.

(** The part of [s] before the first [c], and the part after it when
    [c] occurs. *)
Fixpoint cut (c : ascii) (s : string) : string * option string :=
  match s with
  | EmptyString => (EmptyString, None)
  | String a r =>
      if Ascii.eqb a c then (EmptyString, Some r)
      else let (h, t) := cut c r in (String a h, t)
  end.

(** [String.prototype.split] on one character, without the pieces that
    are empty. *)
Fixpoint split_nonempty_aux (c : ascii) (cur : string) (s : string)
  : list string :=
  let flush (k : list string) :=
    match cur with EmptyString => k | _ => cur :: k end in
  match s with
  | EmptyString => flush []
  | String a r =>
      if Ascii.eqb a c then flush (split_nonempty_aux c EmptyString r)
      else split_nonempty_aux c (cur ++ String a EmptyString) r
  end.

Definition split_nonempty (c : ascii) (s : string) : list string :=
  split_nonempty_aux c EmptyString s.

(** *** Objects used as dictionaries, and [Map] *)

Definition JSObject := list (string * string).
Definition JSMap := list (string * string).

Fixpoint assoc (k : string) (l : list (string * string)) : option string :=
  match l with
  | [] => None
  | (k', v) :: r => if k' =? k then Some v else assoc k r
  end.

(** Writing key [k]: an entry already there keeps its place and takes
    the new value, a new entry goes last. *)
Fixpoint upsert (k v : string) (l : list (string * string))
  : list (string * string) :=
  match l with
  | [] => [(k, v)]
  | (k', v') :: r => if k' =? k then (k', v) :: r else (k', v') :: upsert k v r
  end.

Definition Map_has (m : JSMap) (k : string) : bool :=
  match assoc k m with Some _ => true | None => false end.
Definition Map_get (m : JSMap) (k : string) : option string := assoc k m.
Definition Map_set (m : JSMap) (k v : string) : JSMap := upsert k v m.

(** [new Map(entries)] *)
Definition Map_new (entries : list (string * string)) : JSMap :=
  fold_left (fun m kv => Map_set m (fst kv) (snd kv)) entries [].

(** [Object.entries] *)
Definition Object_entries (o : JSObject) : list (string * string) := o.

(** [o.k] for a data property of string value. *)
Definition prop (o : JSObject) (k : string) : option string := assoc k o.

(** [o[k] = v] on an ordinary object with a string [v]: the key
    [__proto__] reaches the setter of [Object.prototype], which ignores
    a value that is not an object. *)
Definition set_prop (o : JSObject) (k v : string) : JSObject :=
  if k =? "__proto__" then o else upsert k v o.

(** [Object.fromEntries]: properties are defined, no setter runs. *)
Definition Object_fromEntries (entries : list (string * string)) : JSObject :=
  fold_left (fun o kv => upsert (fst kv) (snd kv) o) entries [].

(** Truthiness of [o.k]: defined and not the empty string. *)
Definition truthy (v : option string) : bool :=
  match v with
  | Some EmptyString | None => false
  | Some _ => true
  end.

(** [Array.prototype.includes] on an array of strings. *)
Definition includes (l : list string) (k : string) : bool :=
  existsb (fun x => x =? k) l.

(** *** Percent-decoding *)

Definition hex_val (c : ascii) : option N :=
  let n := N_of_ascii c in
  if ((48 <=? n) && (n <=? 57))%N then Some (n - 48)%N
  else if ((65 <=? n) && (n <=? 70))%N then Some (n - 55)%N
  else if ((97 <=? n) && (n <=? 102))%N then Some (n - 87)%N
  else None.

Definition hex_byte (h l : ascii) : option N :=
  match hex_val h, hex_val l with
  | Some a, Some b => Some (16 * a + b)%N
  | _, _ => None
  end.

(** The percent-decoding of the URL standard: an escape that is not
    followed by two hexadecimal digits stands for itself. *)
Fixpoint percent_decode (s : string) : string :=
  match s with
  | EmptyString => EmptyString
  | String c r =>
      let literal := String c (percent_decode r) in
      if Ascii.eqb c "%" then
        match r with
        | String h (String l r') =>
            match hex_byte h l with
            | Some b => String (ascii_of_N b) (percent_decode r')
            | None => literal
            end
        | _ => literal
        end
      else literal
  end.

(** [decodeURIComponent], first pass: every [%] must start an escape. *)
Inductive uri_item := Lit (c : ascii) | Esc (b : N).

Fixpoint uri_items (s : string) : option (list uri_item) :=
  match s with
  | EmptyString => Some []
  | String c r =>
      if Ascii.eqb c "%" then
        match r with
        | String h (String l r') =>
            match hex_byte h l, uri_items r' with
            | Some b, Some k => Some (Esc b :: k)
            | _, _ => None
            end
        | _ => None
        end
      else option_map (cons (Lit c)) (uri_items r)
  end.

Definition between (lo hi b : N) : bool := ((lo <=? b) && (b <=? hi))%N.

(** Well-formed UTF-8 sequences of two, three and four octets. *)
Definition utf8_2 (a b : N) : bool := between 194 223 a && between 128 191 b.

Definition utf8_3 (a b c : N) : bool :=
  between 128 191 c &&
  (((a =? 224)%N && between 160 191 b)
   || (between 225 236 a && between 128 191 b)
   || ((a =? 237)%N && between 128 159 b)
   || (between 238 239 a && between 128 191 b)).

Definition utf8_4 (a b c d : N) : bool :=
  between 128 191 c && between 128 191 d &&
  (((a =? 240)%N && between 144 191 b)
   || (between 241 243 a && between 128 191 b)
   || ((a =? 244)%N && between 128 143 b)).

Definition chr (b : N) : string := String (ascii_of_N b) EmptyString.

(** Second pass: the escaped octets must spell UTF-8. *)
Fixpoint uri_decode_items (l : list uri_item) : option string :=
  match l with
  | [] => Some EmptyString
  | Lit c :: r => option_map (String c) (uri_decode_items r)
  | Esc a :: r =>
      if (a <? 128)%N then option_map (String (ascii_of_N a)) (uri_decode_items r)
      else if between 192 223 a then
        match r with
        | Esc b :: r1 =>
            if utf8_2 a b
            then option_map (append (chr a ++ chr b)) (uri_decode_items r1)
            else None
        | _ => None
        end
      else if between 224 239 a then
        match r with
        | Esc b :: Esc c :: r2 =>
            if utf8_3 a b c
            then option_map (append (chr a ++ chr b ++ chr c))
                            (uri_decode_items r2)
            else None
        | _ => None
        end
      else if between 240 247 a then
        match r with
        | Esc b :: Esc c :: Esc d :: r3 =>
            if utf8_4 a b c d
            then option_map (append (chr a ++ chr b ++ chr c ++ chr d))
                            (uri_decode_items r3)
            else None
        | _ => None
        end
      else None
  end.

Definition decodeURIComponent (s : string) : Exc string :=
  match uri_items s with
  | None => Throw (URIError "URI malformed")
  | Some l =>
      match uri_decode_items l with
      | None => Throw (URIError "URI malformed")
      | Some r => Ret r
      end
  end.

(** *** [URL] and [URLSearchParams]

    The model keeps what the program reads: the path and the query.  The
    scheme must be there (no base URL is given); the syntax checks of the
    standard on host and port are not modelled, nor are the removal of
    dot segments and the percent-encoding of the path: [pathname] is the
    path as it is written, which is the path of [new URL] when no
    character of it has to be escaped and no segment is a dot segment.
    What is proved of the path is proved of such a URL. *)

Record URL := mkURL {
  protocol : string;
  pathname : string;
  query : string;          (* the query, without its question mark *)
}.

Definition is_alpha (c : ascii) : bool :=
  let n := N_of_ascii c in between 65 90 n || between 97 122 n.
Definition is_digit (c : ascii) : bool := between 48 57 (N_of_ascii c).
Definition is_scheme_char (c : ascii) : bool :=
  is_alpha c || is_digit c || Ascii.eqb c "+" || Ascii.eqb c "-"
  || Ascii.eqb c ".".

Definition is_tab_or_newline (c : ascii) : bool :=
  let n := N_of_ascii c in ((n =? 9) || (n =? 10) || (n =? 13))%N.
Definition is_c0_or_space (c : ascii) : bool := (N_of_ascii c <=? 32)%N.

Fixpoint ltrim (s : string) : string :=
  match s with
  | EmptyString => EmptyString
  | String c r => if is_c0_or_space c then ltrim r else s
  end.

Fixpoint rtrim (s : string) : string :=
  match s with
  | EmptyString => EmptyString
  | String c r =>
      match rtrim r with
      | EmptyString => if is_c0_or_space c then EmptyString
                       else String c EmptyString
      | r' => String c r'
      end
  end.

Fixpoint remove_tab_newline (s : string) : string :=
  match s with
  | EmptyString => EmptyString
  | String c r =>
      if is_tab_or_newline c then remove_tab_newline r
      else String c (remove_tab_newline r)
  end.

(** The scheme and what follows its colon. *)
Fixpoint scheme_rest (s : string) : option (string * string) :=
  match s with
  | EmptyString => None
  | String c r =>
      if Ascii.eqb c ":" then Some (EmptyString, r)
      else if is_scheme_char c then
        match scheme_rest r with
        | Some (sch, rest) => Some (String c sch, rest)
        | None => None
        end
      else None
  end.

Definition split_scheme (s : string) : option (string * string) :=
  match s with
  | String c _ => if is_alpha c then scheme_rest s else None
  | EmptyString => None
  end.

(** The path of what stands between the scheme and the query. *)
Definition path_of (s : string) : string :=
  match s with
  | String "/" (String "/" r) =>
      match cut "/" r with
      | (_, Some p) => String "/" p
      | (_, None) => "/"
      end
  | _ => s
  end.

Definition URL_new (input : string) : Exc URL :=
  let s := remove_tab_newline (rtrim (ltrim input)) in
  match split_scheme s with
  | None => Throw (TypeError "Invalid URL")
  | Some (sch, rest) =>
      let before_fragment := fst (cut "#" rest) in
      let (before_query, q) := cut "?" before_fragment in
      Ret {| protocol := toLowerCase sch ++ ":";
             pathname := path_of before_query;
             query := match q with Some q => q | None => EmptyString end |}
  end.

Fixpoint plus_to_space (s : string) : string :=
  match s with
  | EmptyString => EmptyString
  | String c r =>
      String (if Ascii.eqb c "+" then " "%char else c) (plus_to_space r)
  end.

(** One name-value pair of an [application/x-www-form-urlencoded]
    string.  The octets are kept as they are decoded; the standard
    replaces those that are not UTF-8 by U+FFFD. *)
Definition form_pair (piece : string) : string * string :=
  let (n, v) := cut "=" piece in
  (percent_decode (plus_to_space n),
   percent_decode (plus_to_space
                     (match v with Some v => v | None => EmptyString end))).

(** [url.searchParams] *)
Definition searchParams (u : URL) : list (string * string) :=
  map form_pair (split_nonempty "&" (query u)).

(** [URLSearchParams.prototype.get]: the first value of that name. *)
Definition searchParams_get (u : URL) (k : string) : option string :=
  assoc k (searchParams u).

End JS.

Import JS.

(* ================================================================== *)
(** ** Event types ([s3objectlambda_event.types]) *)
(* ================================================================== *)

Record UserRequest := mkUserRequest {
  url : string;
  headers : JSObject;
}.

Record BaseObjectContext := mkContext {
  inputS3Url : string;
}.

(* ================================================================== *)
(** ** Request utilities ([request/utils.ts]) *)
(* ================================================================== *)

Module Utils.

(** Query parameter names *)
Definition RANGE : string := "Range".
Definition PART_NUMBER : string := "partNumber".

Definition Buffer := string.

(** [RangeResponse] of [response/range_response.types], over the type [E]
    of the error payload and the type [V] of a header value. *)
Record RangeResponse (E V : Type) := mkRangeResponse {
  object : option Buffer;
  rheaders : option (list (string * V));
  hasError : bool;
  errorResponse : option E;
}.
Arguments mkRangeResponse {E V}.
Arguments object {E V}.
Arguments rheaders {E V}.
Arguments hasError {E V}.
Arguments errorResponse {E V}.

(** Gets a query parameter from the url, converted to lower case. *)
Definition getQueryParam (url name : string) : Exc (option string) :=
  let url := toLowerCase url in
  let name := toLowerCase name in
  bindE (URL_new url) (fun u => Ret (searchParams_get u name)).

(** Get the part number from the user request *)
Definition getPartNumber (userRequest : UserRequest) : Exc (option string) :=
  getQueryParam (url userRequest) PART_NUMBER.

(** The [headersMap] of [getRange]: the headers under lower-cased names. *)
Definition lowerCaseHeaders (userRequest : UserRequest) : JSMap :=
  Map_new (map (fun kv => (toLowerCase (fst kv), snd kv))
               (Object_entries (headers userRequest))).

(** Get the range from the user request *)
Definition getRange (userRequest : UserRequest) : Exc (option string) :=
  let headersMap := lowerCaseHeaders userRequest in
  if Map_has headersMap (toLowerCase RANGE)
  then Ret (Map_get headersMap (toLowerCase RANGE))
  else getQueryParam (url userRequest) RANGE.

Section Mappers.
  (** The range and part-number mappers of [response/range_mapper] and
      [response/part_number_mapper]. *)
  Context {E V : Type}.
  Variable mapRange : string -> Buffer -> RangeResponse E V.
  Variable mapPartNumber : string -> Buffer -> RangeResponse E V.
  Variable mapRangeHead : string -> list (string * V) -> RangeResponse E V.
  Variable mapPartNumberHead : string -> list (string * V) -> RangeResponse E V.

Definition applyRangeOrPartNumber (transformedObject : Buffer)
    (userRequest : UserRequest) : Exc (RangeResponse E V) :=
  bindE (getRange userRequest) (fun range =>
  bindE (getPartNumber userRequest) (fun partNumber =>
  match range with
  | Some range => Ret (mapRange range transformedObject)
  | None =>
      match partNumber with
      | Some partNumber => Ret (mapPartNumber partNumber transformedObject)
      | None =>
          (* The request was made for the whole object, so return as is. *)
          Ret {| object := Some transformedObject; rheaders := None;
                 hasError := false; errorResponse := None |}
      end
  end)).

Definition applyRangeOrPartNumberHeaders
    (transformedHeaders : list (string * V))
    (userRequest : UserRequest) : Exc (RangeResponse E V) :=
  bindE (getRange userRequest) (fun range =>
  bindE (getPartNumber userRequest) (fun partNumber =>
  match range with
  | Some range => Ret (mapRangeHead range transformedHeaders)
  | None =>
      match partNumber with
      | Some partNumber =>
          Ret (mapPartNumberHead partNumber transformedHeaders)
      | None =>
          (* The request was made for the whole object, so return as is. *)
          Ret {| object := None; rheaders := Some transformedHeaders;
                 hasError := false; errorResponse := None |}
      end
  end)).

End Mappers.

(** Get all headers that should be included in the pre-signed S3 URL. We
    do not add headers that will be applied after transformation, such
    as Range. *)
Definition getRequestHeaders (headersObj : JSObject) : JSMap :=
  let headersToBePresigned :=
    ["x-amz-checksum-mode"; "x-amz-request-payer";
     "x-amz-expected-bucket-owner"; "If-Match"; "If-Modified-Since";
     "If-None-Match"; "If-Unmodified-Since"] in
  fold_left
    (fun headersMap kv =>
       if includes headersToBePresigned (fst kv)
       then Map_set headersMap (fst kv) (snd kv)
       else headersMap)
    (Map_new (Object_entries headersObj)) [].

(** The source gives this function the comment of [getRequestHeaders],
    word for word: "Get all headers that should be included in the
    pre-signed S3 URL. We do not add headers that will be applied after
    transformation, such as Range." *)
Definition removeSignedRequestHeaders (headersObj : JSObject) : JSObject :=
  let headersToBePresigned :=
    ["Host"; "host"; "x-amz-checksum-mode"; "x-amz-request-payer";
     "x-amz-expected-bucket-owner"; "If-Match"; "If-Modified-Since";
     "If-None-Match"; "If-Unmodified-Since"] in
  fold_left
    (fun headersMap kv =>
       if negb (includes headersToBePresigned (fst kv))
       then set_prop headersMap (fst kv) (snd kv)
       else headersMap)
    (Map_new (Object_entries headersObj)) [].

End Utils.

(* ================================================================== *)
(** ** The storage client ([@aws-sdk/client-s3]) and [node-fetch] *)
(* ================================================================== *)

Inductive Method := GET | HEAD.

(** A number that [parseInt] reads from a string. *)
Inductive JSNumber := parseInt (s : string).

Module SDK.

Inductive Date := ISODate (iso : string) | InvalidDate.

  (** [Date.prototype.toISOString] *)
Definition toISOString (d : Date) : Exc string :=
    match d with
    | ISODate s => Ret s
    | InvalidDate => Throw (mkError "RangeError" "Invalid time value")
    end.

  (** An entry of [Contents]; [Other] holds the fields that the program
      never names (ETag, StorageClass, ...). *)
Record _Object := mkObject {
    Key : option string;
    LastModified : option Date;
    Size : option Z;
    Other : JSObject;
  }.

Record CommonPrefix := mkCommonPrefix { Prefix : option string }.

  (** [ListObjectsV2CommandOutput]; [Extra] holds the fields that the
      program never names (Name, KeyCount, ContinuationToken, ...), and
      [metadata] is [$metadata]. *)
Record ListObjectsV2Output := mkOutput {
    IsTruncated : option bool;
    EncodingType : option string;
    MaxKeys : option Z;
    o_Prefix : option string;
    Contents : option (list _Object);
    Delimiter : option string;
    CommonPrefixes : option (list CommonPrefix);
    Extra : JSObject;
    metadata : JSObject;
  }.

Record GetObjectInput := mkGetObject {
    g_Bucket : string;
    g_Key : string;
    g_Range : option string;
    g_PartNumber : option JSNumber;
  }.

Record HeadObjectInput := mkHeadObject {
    h_Bucket : string;
    h_Key : string;
  }.

Inductive ObjectCommand :=
  | GetObjectCommand (input : GetObjectInput)
  | HeadObjectCommand (input : HeadObjectInput).

Record ListObjectsV2Command := mkListObjectsV2 {
    l_Bucket : string;
    l_Prefix : string;
    l_Delimiter : string;
  }.

  (** A client: what it answers to a list command, and the URL that the
      presigner makes with it for an object command that expires in the
      given number of seconds. *)
Record S3Client := mkClient {
    send : ListObjectsV2Command -> Exc ListObjectsV2Output;
    presign : ObjectCommand -> Z -> Exc string;
  }.

End SDK.

(** The [Response] of [node-fetch]. *)
Record Response := mkResponse {
  status : Z;
  arrayBuffer : Exc string;
}.

(* ================================================================== *)
(** ** List objects and responses
       ([s3objectlambda_list_type], [s3objectlambda_response.types]) *)
(* ================================================================== *)

Record IListObjectContent := mkContent {
  Key : option string;
  LastModified : option string;
  Size : option Z;
  Other : JSObject;
}.

(** [IBaseListObject], with in [Extra] the fields of the V1 and V2
    shapes that the base type does not name. *)
Record IBaseListObject := mkListObject {
  IsTruncated : bool;
  EncodingType : option string;
  MaxKeys : Z;
  Prefix : option string;
  Contents : option (list IListObjectContent);
  Delimiter : option string;
  CommonPrefixes : list SDK.CommonPrefix;
  Extra : JSObject;
}.

Inductive IResponse :=
| IListObjectsResponse (statusCode : Z) (listResultXml : string)
| IErrorResponse (statusCode : Z) (errorMessage : string)
| IHeadObjectResponse (statusCode : Z) (metadata : JSObject).

(** [error/error_code]: the member that the list handler names. *)
Inductive ErrorCode := NO_SUCH_KEY.

(* ================================================================== *)
(** ** Asynchronous code: calls made, and the settlement *)
(* ================================================================== *)

Inductive Call :=
| Fetch (url : string) (method : Method) (hdrs : JSObject)
| GetSignedUrl (cmd : SDK.ObjectCommand) (expiresIn : Z)
| Send (cmd : SDK.ListObjectsV2Command)
| ParseXml (xml : string)
| TransformObject (o : IBaseListObject)
| SerializeXml (o : IBaseListObject)
| ResponseForS3Errors (r : Response)
| HandleGetObject (c : BaseObjectContext) (u : UserRequest)
| HandleHeadObject (c : BaseObjectContext) (u : UserRequest).

Definition M (A : Type) : Type := list Call * Exc A.

Definition ret {A} (a : A) : M A := ([], Ret a).

Definition bind {A B} (m : M A) (f : A -> M B) : M B :=
  match m with
  | (t, Ret a) => let (t', r) := f a in ((t ++ t')%list, r)
  | (t, Throw e) => (t, Throw e)
  end.

(** A step that makes no call. *)
Definition lift {A} (x : Exc A) : M A := ([], x).

(** A call to a collaborator, and what it answered. *)
Definition call {A} (c : Call) (x : Exc A) : M A := ([c], x).

(** [try { m } catch (e) { h e }] *)
Definition try_catch {A} (m : M A) (h : JSError -> M A) : M A :=
  match m with
  | (t, Ret a) => (t, Ret a)
  | (t, Throw e) => let (t', r) := h e in ((t ++ t')%list, r)
  end.

Definition trace {A} (m : M A) : list Call := fst m.
Definition outcome {A} (m : M A) : Exc A := snd m.

Declare Scope async_scope.
Delimit Scope async_scope with async.
Notation "x <- m ;; k" := (bind m (fun x => k))
  (at level 61, m at next level, right associativity) : async_scope.
Notation "m ;;; k" := (bind m (fun _ => k))
  (at level 61, right associativity) : async_scope.

(** [a ?? b] *)
Definition nullish {A} (a : option A) (b : A) : A :=
  match a with Some x => x | None => b end.
Definition nullish_opt {A} (a b : option A) : option A :=
  match a with Some x => Some x | None => b end.

(* ================================================================== *)
(** ** Requests to the backing store ([request/utils.ts], continued) *)
(* ================================================================== *)

Module Backing.
Import SDK.
Open Scope async_scope.

Definition BUCKET : string := "andy-redirect-bj66n98jif7a6z6fqd41csrbuse1a--ol-s3".

Section Fetch.
  (** [fetch] of [node-fetch] *)
  Variable fetch : string -> Method -> JSObject -> Exc Response.

Definition makeS3Request (cloudflare : S3Client) (url : string)
      (userRequest : UserRequest) (method : Method) : M Response :=
    key <- lift (bindE (decodeURIComponent url) (fun d =>
                 bindE (URL_new d) (fun u => Ret (slice1 (pathname u))))) ;;
    let headers := Utils.removeSignedRequestHeaders (headers userRequest) in
    let command :=
      match method with
      | GET =>
          GetObjectCommand
            {| g_Bucket := BUCKET;
               g_Key := key;
               g_Range :=
                 if truthy (prop headers "range")
                 then nullish_opt (prop headers "range") (prop headers "Range")
                 else None;
               g_PartNumber :=
                 if truthy (prop headers "partnumber")
                 then option_map parseInt
                        (nullish_opt (prop headers "partnumber")
                           (nullish_opt (prop headers "PartNumber")
                                        (prop headers "partNumber")))
                 else None |}
      | HEAD => HeadObjectCommand {| h_Bucket := BUCKET; h_Key := key |}
      end in
    url <- call (GetSignedUrl command 300) (presign cloudflare command 300) ;;
    let sent : JSObject :=
      ((if truthy (prop headers "range")
        then match prop headers "range" with
             | Some r => [("range", r)] | None => [] end
        else [])
       ++
       (if truthy (prop headers "partnumber")
        then match prop headers "partnumber" with
             | Some p => [("partnumber", p)] | None => [] end
        else []))%list in
    response <- call (Fetch url method sent) (fetch url method sent) ;;
    ret response.

Definition makeS3RequestOriginal (url : string) (userRequest : UserRequest)
      (method : Method) : M Response :=
    let requestHeaders := Utils.getRequestHeaders (headers userRequest) in
    let sent := Object_fromEntries requestHeaders in
    call (Fetch url method sent) (fetch url method sent).
End Fetch.

End Backing.

(* ================================================================== *)
(** ** The list handler ([handler/list_objects_base_handler.ts]) *)
(* ================================================================== *)

(** [utils/listobject_xml_transformer]: XML to list object and back;
    [None] is [null]. *)
Record ListObjectsXmlTransformer := mkTransformer {
  createListObjectsJsonResponse : string -> Exc (option IBaseListObject);
  createListObjectsXmlResponse : IBaseListObject -> Exc (option string);
}.

(** The two clients that the handlers receive. *)
Record Clients := mkClients {
  s3Client : SDK.S3Client;
  cloudflare : SDK.S3Client;
}.

Module ListObjectsHandler.
Import Backing.
Open Scope async_scope.

(** An instance of the class. *)
Record t := new {
  transformObject : IBaseListObject -> Exc IBaseListObject;
  XMLTransformer : ListObjectsXmlTransformer;
}.

(** Converts from the array buffer received to a string object. *)
Definition stringFromArrayBuffer (arrayBuffer : string) : string := arrayBuffer.

(** The entry that the handler makes of an entry of the client. *)
Definition content_of (x : SDK._Object) : Exc IListObjectContent :=
  bindE (match SDK.LastModified x with
         | Some d => bindE (SDK.toISOString d) (fun s => Ret (Some s))
         | None => Ret None
         end) (fun iso =>
  Ret {| Key := Some (nullish (SDK.Key x) EmptyString);
         LastModified := Some (nullish iso EmptyString);
         Size := SDK.Size x;
         Other := SDK.Other x |}).

(** [Array.prototype.map] with a callback that can throw. *)
Fixpoint mapE {A B} (f : A -> Exc B) (l : list A) : Exc (list B) :=
  match l with
  | [] => Ret []
  | x :: r => bindE (f x) (fun y => bindE (mapE f r) (fun ys => Ret (y :: ys)))
  end.

(** [x.Size === 0 && x.Key.endsWith('/')] *)
Definition isDirectoryMarker (x : IListObjectContent) : bool :=
  match Size x with Some 0%Z => true | _ => false end
  && endsWith (nullish (Key x) EmptyString) "/".

(** The object that the handler builds of the answer of the client; the
    fields of the answer are all taken over, but for [$metadata]. *)
Definition objectResponse_of (response : SDK.ListObjectsV2Output)
  : Exc IBaseListObject :=
  bindE (match SDK.Contents response with
         | Some l =>
             bindE (mapE content_of l) (fun l' =>
             Ret (Some (filter (fun x => negb (isDirectoryMarker x)) l')))
         | None => Ret None
         end) (fun contents =>
  Ret {| IsTruncated := nullish (SDK.IsTruncated response) false;
         EncodingType := SDK.EncodingType response;
         MaxKeys := nullish (SDK.MaxKeys response) 0%Z;
         Prefix := SDK.o_Prefix response;
         Contents := contents;
         Delimiter := SDK.Delimiter response;
         CommonPrefixes := nullish (SDK.CommonPrefixes response) [];
         Extra := SDK.Extra response |}).

Section Handler.
  Variable fetch : string -> Method -> JSObject -> Exc Response.
  (** [error/error_response] *)
  Variable responseForS3Errors : Response -> Exc IResponse.
  Variable errorResponse : BaseObjectContext -> ErrorCode -> string -> IResponse.

  Variable this : t.

  (** Returns the response expected by Object Lambda on a LIST_OBJECTS
      request *)
Definition writeResponse (objectResponse : IBaseListObject) : M IResponse :=
    xmlListObject <-
      call (SerializeXml objectResponse)
           (createListObjectsXmlResponse (XMLTransformer this) objectResponse) ;;
    match xmlListObject with
    | None =>
        ret (IErrorResponse 500
               "The Lambda function failed to transform the result to XML")
    | Some xml => ret (IListObjectsResponse 200 xml)
    end.

Definition handleListObjectsRequestOriginal
      (requestContext : BaseObjectContext) (userRequest : UserRequest)
    : M IResponse :=
    objectResponse <-
      makeS3RequestOriginal fetch (inputS3Url requestContext) userRequest GET ;;
    originalObject <- lift (arrayBuffer objectResponse) ;;
    if (status objectResponse >=? 400)%Z then
      (* Errors in the Amazon S3 response should be forwarded to the caller
         without invoking transformObject. *)
      call (ResponseForS3Errors objectResponse)
           (responseForS3Errors objectResponse)
    else
      let xml := stringFromArrayBuffer originalObject in
      parsedObject <-
        call (ParseXml xml)
             (createListObjectsJsonResponse (XMLTransformer this) xml) ;;
      match parsedObject with
      | None =>
          ret (errorResponse requestContext NO_SUCH_KEY
                 "Requested key does not exist")
      | Some parsedObject =>
          transformedObject <-
            call (TransformObject parsedObject)
                 (transformObject this parsedObject) ;;
          writeResponse transformedObject
      end.

  (** [url.searchParams.get('prefix')?.startsWith('verify_')] *)
Definition verify_prefix (u : URL) : bool :=
    match searchParams_get u "prefix" with
    | Some p => startsWith p "verify_"
    | None => false
    end.

Definition handleListObjectsRequest (clients : Clients)
      (requestContext : BaseObjectContext) (userRequest : UserRequest)
    : M IResponse :=
    url <- lift (bindE (decodeURIComponent (inputS3Url requestContext))
                       URL_new) ;;
    if verify_prefix url then
      handleListObjectsRequestOriginal requestContext userRequest
    else
      originalResponse <-
        makeS3RequestOriginal fetch (inputS3Url requestContext) userRequest GET ;;
      lift (arrayBuffer originalResponse) ;;;
      try_catch
        (let command :=
           {| SDK.l_Bucket := BUCKET;
              SDK.l_Prefix := nullish (searchParams_get url "prefix") EmptyString;
              SDK.l_Delimiter := nullish (searchParams_get url "delimiter") EmptyString |} in
         response <- call (Send command) (SDK.send (cloudflare clients) command) ;;
         objectResponse <- lift (objectResponse_of response) ;;
         transformedObject <-
           call (TransformObject objectResponse)
                (transformObject this objectResponse) ;;
         writeResponse transformedObject)
        (fun e => ret (IErrorResponse 500 (message e))).
End Handler.

End ListObjectsHandler.

(* ================================================================== *)
(** ** The entry point ([s3objectlambda.ts]) *)
(* ================================================================== *)

Record S3ObjectLambdaEvent := mkEvent {
  getObjectContext : option BaseObjectContext;
  headObjectContext : option BaseObjectContext;
  listObjectsContext : option BaseObjectContext;
  listObjectsV2Context : option BaseObjectContext;
  userRequest : UserRequest;
}.

Module Lambda.
Open Scope async_scope.

(** What the entry point imports and the constants of its module. *)
Record Imports := mkImports {
  fetch : string -> Method -> JSObject -> Exc Response;
  responseForS3Errors : Response -> Exc IResponse;
  errorResponse : BaseObjectContext -> ErrorCode -> string -> IResponse;
  (** [handler/get_object_handler], [handler/head_object_handler] *)
  handleGetObjectRequest :
    Clients -> BaseObjectContext -> UserRequest -> Exc unit;
  handleHeadObjectRequest :
    Clients -> BaseObjectContext -> UserRequest -> Exc (option IResponse);
  (** [transform/s3objectlambda_transformer] *)
  transformListObjectsV1 : IBaseListObject -> Exc IBaseListObject;
  transformListObjectsV2 : IBaseListObject -> Exc IBaseListObject;
  XMLTransformer : ListObjectsXmlTransformer;
  (** the two clients made when the module is loaded *)
  clients : Clients;
}.

Definition listHandler (i : Imports)
    (transform : IBaseListObject -> Exc IBaseListObject)
    (c : BaseObjectContext) (u : UserRequest) : M IResponse :=
  ListObjectsHandler.handleListObjectsRequest
    (fetch i) (responseForS3Errors i) (errorResponse i)
    (ListObjectsHandler.new transform (XMLTransformer i)) (clients i) c u.

(** [handler]; [None] is [null]. *)
Definition handler (i : Imports) (event : S3ObjectLambdaEvent)
  : M (option IResponse) :=
  match getObjectContext event with
  | Some c =>
      call (HandleGetObject c (userRequest event))
           (handleGetObjectRequest i (clients i) c (userRequest event)) ;;;
      ret None
  | None =>
  match headObjectContext event with
  | Some c =>
      call (HandleHeadObject c (userRequest event))
           (handleHeadObjectRequest i (clients i) c (userRequest event))
  | None =>
  match listObjectsContext event with
  | Some c =>
      r <- listHandler i (transformListObjectsV1 i) c (userRequest event) ;;
      ret (Some r)
  | None =>
  match listObjectsV2Context event with
  | Some c =>
      r <- listHandler i (transformListObjectsV2 i) c (userRequest event) ;;
      ret (Some r)
  | None => ret None
  end end end end.

End Lambda.

(* ================================================================== *)
(** ** The XML list transformer ([utils/listobject_xml_transformer]) *)
(* ================================================================== *)

(** Modelled from the spec: the XML List Transformer, whose source
    ([utils/listobject_xml_transformer]) is not among the files.  The
    spec gives its contract: [serialize] writes the fields of the data
    model as elements, in order, and answers [null] for an object that is
    structurally invalid; [parse] reads a document in the V1 or the V2
    shape and answers [null] for one that is not well formed.  The
    document of the spec's example fixes the names of the elements. *)
Module Xml.

(** *** Characters and names *)

Definition CR : ascii := ascii_of_N 13.
Definition QUOTE : ascii := ascii_of_N 34.
Definition LF : ascii := ascii_of_N 10.

(** A character that an XML document can hold. *)
Definition legal_char (c : ascii) : bool :=
  let n := N_of_ascii c in ((32 <=? n) || (n =? 9) || (n =? 10) || (n =? 13))%N.

(** A character that a parser hands over as it stands: a carriage
    return is not one, it is read as a line feed. *)
Definition plain_char (c : ascii) : bool :=
  legal_char c && negb (Ascii.eqb c CR).

Definition is_space (c : ascii) : bool :=
  let n := N_of_ascii c in ((n =? 32) || (n =? 9) || (n =? 10))%N.

Definition is_name_start (c : ascii) : bool := is_alpha c || Ascii.eqb c "_".
Definition is_name_char (c : ascii) : bool :=
  is_alpha c || is_digit c || Ascii.eqb c "_" || Ascii.eqb c "-"
  || Ascii.eqb c ".".

Definition valid_name (n : string) : bool :=
  match n with
  | EmptyString => false
  | String c r => is_name_start c && all is_name_char r
  end.

(** *** Escaping of character data *)

Definition escape_char (c : ascii) : string :=
  if Ascii.eqb c "&" then "&amp;"
  else if Ascii.eqb c "<" then "&lt;"
  else if Ascii.eqb c ">" then "&gt;"
  else String c EmptyString.

Fixpoint escape (s : string) : string :=
  match s with
  | EmptyString => EmptyString
  | String c r => escape_char c ++ escape r
  end.

(** The five entities of XML; [skip] characters of an entity already
    read are still to pass. *)
Fixpoint unescape_aux (skip : nat) (s : string) : option string :=
  match s with
  | EmptyString => Some EmptyString
  | String c r =>
      match skip with
      | S k => unescape_aux k r
      | O =>
          if Ascii.eqb c "&" then
            if has_prefix "amp;" r
            then option_map (String "&") (unescape_aux 4 r)
            else if has_prefix "lt;" r
            then option_map (String "<") (unescape_aux 3 r)
            else if has_prefix "gt;" r
            then option_map (String ">") (unescape_aux 3 r)
            else if has_prefix "quot;" r
            then option_map (String QUOTE) (unescape_aux 5 r)
            else if has_prefix "apos;" r
            then option_map (String "'") (unescape_aux 5 r)
            else None
          else option_map (String c) (unescape_aux 0 r)
      end
  end.

Definition unescape (s : string) : option string := unescape_aux 0 s.

(** *** Numbers and booleans *)

Definition string_of_Z (z : Z) : string := NilZero.string_of_int (Z.to_int z).

Definition Z_of_string (s : string) : option Z :=
  option_map Z.of_int (NilZero.int_of_string s).

Definition string_of_bool (b : bool) : string := if b then "true" else "false".

Definition bool_of_string (s : string) : option bool :=
  if s =? "true" then Some true
  else if s =? "false" then Some false
  else None.

(** *** From the list object to the document *)

(** A field of the document: an element that holds text, or one that
    holds such elements. *)
Inductive field :=
| FLeaf (n v : string)
| FGroup (g : string) (ls : list (string * string)).

Definition opt_leaf (n : string) (v : option string) : list (string * string) :=
  match v with
  | Some v => [(n, v)]
  | None => []
  end.

Definition content_leaves (c : IListObjectContent) : list (string * string) :=
  (opt_leaf "Key" (Key c)
   ++ opt_leaf "LastModified" (LastModified c)
   ++ opt_leaf "Size" (option_map string_of_Z (Size c))
   ++ Other c)%list.

Definition prefix_leaves (p : SDK.CommonPrefix) : list (string * string) :=
  opt_leaf "Prefix" (SDK.Prefix p).

Definition fields_of (x : IBaseListObject) : list field :=
  (map (fun nv => FLeaf (fst nv) (snd nv))
       ([("IsTruncated", string_of_bool (IsTruncated x));
         ("MaxKeys", string_of_Z (MaxKeys x))]
        ++ opt_leaf "Prefix" (Prefix x)
        ++ opt_leaf "Delimiter" (Delimiter x)
        ++ opt_leaf "EncodingType" (EncodingType x)
        ++ Extra x)
   ++ map (fun c => FGroup "Contents" (content_leaves c))
          (match Contents x with Some l => l | None => [] end)
   ++ map (fun p => FGroup "CommonPrefixes" (prefix_leaves p))
          (CommonPrefixes x))%list.

Definition element (n body : string) : string :=
  "<" ++ n ++ ">" ++ body ++ "</" ++ n ++ ">".

Definition render_leaf (nv : string * string) : string :=
  element (fst nv) (escape (snd nv)).

Definition render_field (f : field) : string :=
  match f with
  | FLeaf n v => render_leaf (n, v)
  | FGroup g ls => element g (String.concat EmptyString (map render_leaf ls))
  end.

Definition ROOT : string := "ListBucketResult".

Definition render (fs : list field) : string :=
  element ROOT (String.concat EmptyString (map render_field fs)).

Definition has_key (c : IListObjectContent) : bool :=
  match Key c with Some _ => true | None => false end.

Definition leaf_names_ok (ls : list (string * string)) : bool :=
  forallb (fun nv => valid_name (fst nv)) ls.

(** What [serialize] asks of its argument: every entry of [Contents] has
    a key, and every other field has a name that an element can bear. *)
Definition structurally_valid (x : IBaseListObject) : bool :=
  forallb (fun c => has_key c && leaf_names_ok (Other c))
          (match Contents x with Some l => l | None => [] end)
  && leaf_names_ok (Extra x).

(** Modelled from the spec: [serialize] of the XML List Transformer
    ([createListObjectsXmlResponse] of [utils/listobject_xml_transformer],
    which is not among the sources): the document in the order of the
    data model, [null] for an object that is structurally invalid. *)
Definition serialize (x : IBaseListObject) : option string :=
  if structurally_valid x then Some (render (fields_of x)) else None.

(** *** From the document to the list object *)

Inductive token :=
| TOpen (n : string)
| TClose (n : string)
| TText (s : string).

(** End-of-line handling, and the characters that a document may not
    hold. *)
Fixpoint normalize_eol (s : string) : string :=
  match s with
  | EmptyString => EmptyString
  | String c r =>
      if Ascii.eqb c CR then
        match r with
        | String c' r' =>
            if Ascii.eqb c' LF then String LF (normalize_eol r')
            else String LF (normalize_eol r)
        | EmptyString => String LF EmptyString
        end
      else String c (normalize_eol r)
  end.

Definition snoc (s : string) (c : ascii) : string := s ++ String c EmptyString.

(** The tokens of what stood between [<] and [>]: a closing tag, a
    processing instruction (passed over), or an opening tag, whose
    attributes are passed over and which may close itself. *)
Definition tag_tokens (buf : string) : option (list token) :=
  match buf with
  | EmptyString => None
  | String c r =>
      if Ascii.eqb c "/" then
        if valid_name r then Some [TClose r] else None
      else if Ascii.eqb c "?" then Some []
      else
        let n := fst (cut "/" (fst (cut " " buf))) in
        if valid_name n then
          if endsWith buf "/" then Some [TOpen n; TClose n] else Some [TOpen n]
        else None
  end.

Definition text_tokens (buf : string) : list token :=
  match buf with
  | EmptyString => []
  | _ => [TText buf]
  end.

(** The tokens of a document; [in_tag] tells whether a [<] is open, and
    [buf] is what was read since the last [<] or [>]. *)
Fixpoint lex (in_tag : bool) (buf : string) (s : string) : option (list token) :=
  match s with
  | EmptyString => if in_tag then None else Some (text_tokens buf)
  | String c r =>
      if in_tag then
        if Ascii.eqb c ">" then
          match tag_tokens buf, lex false EmptyString r with
          | Some a, Some b => Some (a ++ b)%list
          | _, _ => None
          end
        else if Ascii.eqb c "<" then None
        else lex true (snoc buf c) r
      else
        if Ascii.eqb c "<" then
          option_map (app (text_tokens buf)) (lex true EmptyString r)
        else lex false (snoc buf c) r
  end.

Definition is_group (n : string) : bool :=
  (n =? "Contents") || (n =? "CommonPrefixes").

(** Where the reader of tokens stands. *)
Inductive pstate :=
| PStart
| PTop (fs : list field)
| PLeaf (fs : list field) (n : string) (v : option string)
| PGroup (fs : list field) (g : string) (ls : list (string * string))
| PGroupLeaf (fs : list field) (g : string) (ls : list (string * string))
             (n : string) (v : option string)
| PEnd (fs : list field)
| PFail.

Definition between_elements (t : string) (same : pstate) : pstate :=
  if all is_space t then same else PFail.

Definition step (st : pstate) (tk : token) : pstate :=
  match st, tk with
  | PStart, TOpen n => if n =? ROOT then PTop [] else PFail
  | PStart, TText t => between_elements t st
  | PTop fs, TOpen n => if is_group n then PGroup fs n [] else PLeaf fs n None
  | PTop fs, TClose n => if n =? ROOT then PEnd fs else PFail
  | PTop fs, TText t => between_elements t st
  | PLeaf fs n None, TText t =>
      match unescape t with
      | Some v => PLeaf fs n (Some v)
      | None => PFail
      end
  | PLeaf fs n v, TClose m =>
      if m =? n then PTop (fs ++ [FLeaf n (nullish v EmptyString)]) else PFail
  | PGroup fs g ls, TOpen n => PGroupLeaf fs g ls n None
  | PGroup fs g ls, TClose m =>
      if m =? g then PTop (fs ++ [FGroup g ls]) else PFail
  | PGroup fs g ls, TText t => between_elements t st
  | PGroupLeaf fs g ls n None, TText t =>
      match unescape t with
      | Some v => PGroupLeaf fs g ls n (Some v)
      | None => PFail
      end
  | PGroupLeaf fs g ls n v, TClose m =>
      if m =? n then PGroup fs g (ls ++ [(n, nullish v EmptyString)]) else PFail
  | PEnd fs, TText t => between_elements t st
  | _, _ => PFail
  end.

Definition fields_of_tokens (ts : list token) : option (list field) :=
  match fold_left step ts PStart with
  | PEnd fs => Some fs
  | _ => None
  end.

(** The entry of [Contents] that a group of leaves stands for. *)
Definition content_step (c : option IListObjectContent) (nv : string * string)
  : option IListObjectContent :=
  match c with
  | None => None
  | Some c =>
      let (n, v) := nv in
      if n =? "Key" then
        Some {| Key := Some v; LastModified := LastModified c;
                Size := Size c; Other := Other c |}
      else if n =? "LastModified" then
        Some {| Key := Key c; LastModified := Some v;
                Size := Size c; Other := Other c |}
      else if n =? "Size" then
        match Z_of_string v with
        | Some z => Some {| Key := Key c; LastModified := LastModified c;
                            Size := Some z; Other := Other c |}
        | None => None
        end
      else
        Some {| Key := Key c; LastModified := LastModified c;
                Size := Size c; Other := (Other c ++ [(n, v)])%list |}
  end.

Definition content_of_leaves (ls : list (string * string))
  : option IListObjectContent :=
  fold_left content_step ls
    (Some {| Key := None; LastModified := None; Size := None; Other := [] |}).

Definition prefix_of_leaves (ls : list (string * string)) : SDK.CommonPrefix :=
  {| SDK.Prefix := assoc "Prefix" ls |}.

Definition set_Contents (x : IBaseListObject) (c : IListObjectContent)
  : IBaseListObject :=
  {| IsTruncated := IsTruncated x; EncodingType := EncodingType x;
     MaxKeys := MaxKeys x; Prefix := Prefix x;
     Contents := Some (nullish (Contents x) [] ++ [c])%list;
     Delimiter := Delimiter x; CommonPrefixes := CommonPrefixes x;
     Extra := Extra x |}.

(** The list object that the fields stand for, one field at a time. *)
Definition object_step (x : option IBaseListObject) (f : field)
  : option IBaseListObject :=
  match x with
  | None => None
  | Some x =>
      match f with
      | FLeaf n v =>
          if n =? "IsTruncated" then
            match bool_of_string v with
            | Some b =>
                Some {| IsTruncated := b; EncodingType := EncodingType x;
                        MaxKeys := MaxKeys x; Prefix := Prefix x;
                        Contents := Contents x; Delimiter := Delimiter x;
                        CommonPrefixes := CommonPrefixes x; Extra := Extra x |}
            | None => None
            end
          else if n =? "MaxKeys" then
            match Z_of_string v with
            | Some z =>
                Some {| IsTruncated := IsTruncated x;
                        EncodingType := EncodingType x;
                        MaxKeys := z; Prefix := Prefix x;
                        Contents := Contents x; Delimiter := Delimiter x;
                        CommonPrefixes := CommonPrefixes x; Extra := Extra x |}
            | None => None
            end
          else if n =? "Prefix" then
            Some {| IsTruncated := IsTruncated x; EncodingType := EncodingType x;
                    MaxKeys := MaxKeys x; Prefix := Some v;
                    Contents := Contents x; Delimiter := Delimiter x;
                    CommonPrefixes := CommonPrefixes x; Extra := Extra x |}
          else if n =? "Delimiter" then
            Some {| IsTruncated := IsTruncated x; EncodingType := EncodingType x;
                    MaxKeys := MaxKeys x; Prefix := Prefix x;
                    Contents := Contents x; Delimiter := Some v;
                    CommonPrefixes := CommonPrefixes x; Extra := Extra x |}
          else if n =? "EncodingType" then
            Some {| IsTruncated := IsTruncated x; EncodingType := Some v;
                    MaxKeys := MaxKeys x; Prefix := Prefix x;
                    Contents := Contents x; Delimiter := Delimiter x;
                    CommonPrefixes := CommonPrefixes x; Extra := Extra x |}
          else
            Some {| IsTruncated := IsTruncated x; EncodingType := EncodingType x;
                    MaxKeys := MaxKeys x; Prefix := Prefix x;
                    Contents := Contents x; Delimiter := Delimiter x;
                    CommonPrefixes := CommonPrefixes x;
                    Extra := (Extra x ++ [(n, v)])%list |}
      | FGroup g ls =>
          if g =? "Contents" then
            option_map (set_Contents x) (content_of_leaves ls)
          else
            Some {| IsTruncated := IsTruncated x; EncodingType := EncodingType x;
                    MaxKeys := MaxKeys x; Prefix := Prefix x;
                    Contents := Contents x; Delimiter := Delimiter x;
                    CommonPrefixes :=
                      (CommonPrefixes x ++ [prefix_of_leaves ls])%list;
                    Extra := Extra x |}
      end
  end.

Definition empty_object : IBaseListObject :=
  {| IsTruncated := false; EncodingType := None; MaxKeys := 0; Prefix := None;
     Contents := Some []; Delimiter := None; CommonPrefixes := [];
     Extra := [] |}.

Definition object_of_fields (fs : list field) : option IBaseListObject :=
  fold_left object_step fs (Some empty_object).

Definition bindO {A B} (x : option A) (f : A -> option B) : option B :=
  match x with
  | Some a => f a
  | None => None
  end.

(** Modelled from the spec: [parse] of the XML List Transformer
    ([createListObjectsJsonResponse] of
    [utils/listobject_xml_transformer], which is not among the sources):
    the list object of a document in the V1 or the V2 shape, whose
    markers and tokens go to [Extra]; [null] for a document that is not
    well formed. *)
Definition parse (xml : string) : option IBaseListObject :=
  if all legal_char xml then
    bindO (lex false EmptyString (normalize_eol xml)) (fun ts =>
    bindO (fields_of_tokens ts) object_of_fields)
  else None.

(** *** The objects of the round trip *)

Definition plain (s : string) : bool := all plain_char s.

Definition plain_opt (s : option string) : bool :=
  match s with
  | Some s => plain s
  | None => true
  end.

Definition plain_leaves (ls : list (string * string)) : bool :=
  forallb (fun nv => plain (snd nv)) ls.

(** No string of the object holds a character that a document cannot
    hold or that a parser does not hand over as it stands. *)
Definition unambiguous (x : IBaseListObject) : bool :=
  plain_opt (Prefix x) && plain_opt (Delimiter x) && plain_opt (EncodingType x)
  && plain_leaves (Extra x)
  && forallb (fun c => plain_opt (Key c) && plain_opt (LastModified c)
                       && plain_leaves (Other c))
             (nullish (Contents x) [])
  && forallb (fun p => plain_opt (SDK.Prefix p)) (CommonPrefixes x).

Definition TOP_NAMES : list string :=
  ["IsTruncated"; "MaxKeys"; "Prefix"; "Delimiter"; "EncodingType";
   "Contents"; "CommonPrefixes"].

Definition ENTRY_NAMES : list string := ["Key"; "LastModified"; "Size"].

Definition fresh_names (reserved : list string) (ls : list (string * string))
  : bool :=
  forallb (fun nv => negb (includes reserved (fst nv))) ls.

(** A list object as the data model has it: the sequence of contents is
    there, every entry has its key, and the fields carried along bear
    names of elements that are not names of the data model. *)
Definition well_formed (x : IBaseListObject) : bool :=
  structurally_valid x
  && match Contents x with Some _ => true | None => false end
  && fresh_names TOP_NAMES (Extra x)
  && forallb (fun c => fresh_names ENTRY_NAMES (Other c))
             (nullish (Contents x) []).

(** *** What the round trip is proved with *)

Definition not_lt (c : ascii) : bool := negb (Ascii.eqb c "<").
Definition not_angle (c : ascii) : bool :=
  negb (Ascii.eqb c "<") && negb (Ascii.eqb c ">").
Definition is_not (x : ascii) (c : ascii) : bool := negb (Ascii.eqb c x).

(** A piece of a document that starts at a tag and ends with one. *)
Definition chunk (s : string) (ts : list token) : Prop :=
  forall rest,
    lex false EmptyString (s ++ rest) =
    option_map (app ts) (lex false EmptyString rest).

(** The tokens of a leaf and of a field. *)
Definition leaf_tokens (nv : string * string) : list token :=
  TOpen (fst nv) :: text_tokens (escape (snd nv)) ++ [TClose (fst nv)].

Definition field_tokens (f : field) : list token :=
  match f with
  | FLeaf n v => leaf_tokens (n, v)
  | FGroup g ls => TOpen g :: List.concat (map leaf_tokens ls) ++ [TClose g]
  end.

(** The names of a field are names of elements. *)
Definition field_names_ok (f : field) : bool :=
  match f with
  | FLeaf n _ => valid_name n
  | FGroup g ls => valid_name g && leaf_names_ok ls
  end.

(** A leaf does not bear the name of a group, and a group does. *)
Definition field_placed (f : field) : bool :=
  match f with
  | FLeaf n _ => negb (is_group n)
  | FGroup g _ => is_group g
  end.

(** The text of a field is plain. *)
Definition field_plain (f : field) : bool :=
  match f with
  | FLeaf _ v => plain v
  | FGroup _ ls => plain_leaves ls
  end.

(** The transformer that the two functions make. *)
Definition transformer : ListObjectsXmlTransformer :=
  {| createListObjectsJsonResponse := fun xml => Ret (parse xml);
     createListObjectsXmlResponse := fun x => Ret (serialize x) |}.

End Xml.


(* ================================================================== *)
(** ** Predicates and requests of the properties *)
(* ================================================================== *)

Import Utils.

Definition not_upper (c : ascii) : bool := negb (is_upper c).
Definition not_percent (c : ascii) : bool := negb (Ascii.eqb c "%").
Definition lower_plain (c : ascii) : bool := not_upper c && not_percent c.

Ltac by_cases_on_ascii c :=
  destruct c as [[|] [|] [|] [|] [|] [|] [|] [|]];
  try reflexivity; try discriminate.

(** A header of that name, whatever the case of its letters, and no
    header of that name with another value. *)
Definition header_is (ur : UserRequest) (name v : string) : Prop :=
  (exists k, In (k, v) (headers ur) /\ toLowerCase k = toLowerCase name)
  /\ forall k' v', In (k', v') (headers ur) ->
                   toLowerCase k' = toLowerCase name -> v' = v.

Definition no_header (ur : UserRequest) (name : string) : Prop :=
  forall k v, In (k, v) (headers ur) -> toLowerCase k <> toLowerCase name.

(** An octet of ASCII. *)
Definition is_ascii (c : ascii) : bool := (N_of_ascii c <? 128)%N.

(** The first value under a name that is [k] but for the case of its
    letters. *)
Fixpoint assoc_ci (k : string) (l : list (string * string)) : option string :=
  match l with
  | [] => None
  | (k', v) :: r =>
      if toLowerCase k' =? toLowerCase k then Some v else assoc_ci k r
  end.

(** The value of the last header whose name is [name] but for the case
    of its letters. *)
Definition header_value (ur : UserRequest) (name : string) : option string :=
  assoc_ci name (rev (headers ur)).

(** The pairs of a query, each piece lower-cased as it is written and
    decoded afterwards. *)
Definition lowered_pairs (u : URL) : list (string * string) :=
  map (fun piece => form_pair (toLowerCase piece))
      (split_nonempty "&" (query u)).

(** A range in a header and another in the query. *)
Definition request_range_both : UserRequest :=
  {| url := "https://ap.example.com/photo.jpg?Range=bytes=10-20";
     headers := [("Host", "ap.example.com"); ("RANGE", "Bytes=0-5")] |}.

(** A range in the query alone, in upper case. *)
Definition request_range_query : UserRequest :=
  {| url := "https://ap.example.com/photo.jpg?Range=BYTES=0-5";
     headers := [("Host", "ap.example.com")] |}.

(** A range in the query alone, with escapes. *)
Definition request_range_escaped : UserRequest :=
  {| url := "https://ap.example.com/photo.jpg?range=%42YTES%3D0-5";
     headers := [("Host", "ap.example.com")] |}.

(** A part number in a header and another in the query. *)
Definition request_part_both : UserRequest :=
  {| url := "https://ap.example.com/photo.jpg?partNumber=1";
     headers := [("Host", "ap.example.com"); ("partNumber", "2")] |}.

(** A part number and a range in the query, their names in capitals. *)
Definition request_query_mixed_case : UserRequest :=
  {| url := "https://ap.example.com/photo.jpg?PARTNUMBER=3&rAnGe=BYTES=0-5";
     headers := [("Host", "ap.example.com")] |}.

(** A range in a header and a part number in the query. *)
Definition request_range_and_part : UserRequest :=
  {| url := "https://ap.example.com/photo.jpg?partNumber=2";
     headers := [("Host", "ap.example.com"); ("Range", "bytes=0-9")] |}.

(** Neither a range nor a part number, and a URL without a scheme. *)
Definition request_bare_relative : UserRequest :=
  {| url := "/photo.jpg"; headers := [] |}.

(** The URL of the requests above, with its query. *)
Definition url_photo (q : string) : URL :=
  {| protocol := "https:"; pathname := "/photo.jpg"; query := q |}.

(** Neither a range nor a part number. *)
Definition request_whole : UserRequest :=
  {| url := "https://ap.example.com/photo.jpg";
     headers := [("Host", "ap.example.com")] |}.

(** Mappers that tell which of them ran, and on what. *)
Definition mapper_named (which : string) (spec : string) (b : Buffer)
  : RangeResponse string string :=
  {| object := Some (which ++ ":" ++ spec ++ ":" ++ b); rheaders := None;
     hasError := false; errorResponse := None |}.

Definition head_mapper_named (which : string) (spec : string)
    (h : list (string * string)) : RangeResponse string string :=
  {| object := None; rheaders := Some ((which, spec) :: h);
     hasError := false; errorResponse := None |}.

(** *** Worlds in which the handlers run *)

Import ListObjectsHandler.

(** The headers that [makeS3RequestOriginal] sends. *)
Definition original_headers (ur : UserRequest) : JSObject :=
  Object_fromEntries (getRequestHeaders (headers ur)).

(** The command that [handleListObjectsRequest] sends for a URL. *)
Definition list_command (u : URL) : SDK.ListObjectsV2Command :=
  {| SDK.l_Bucket := Backing.BUCKET;
     SDK.l_Prefix := nullish (searchParams_get u "prefix") EmptyString;
     SDK.l_Delimiter := nullish (searchParams_get u "delimiter") EmptyString |}.

(** The URL that the list handler reads in its context. *)
Definition context_url (c : BaseObjectContext) : Exc URL :=
  bindE (decodeURIComponent (inputS3Url c)) URL_new.

(** An entry with size zero and a key that ends in a slash is in the
    contents. *)
Definition holds_marker (o : IBaseListObject) : bool :=
  existsb isDirectoryMarker (nullish (Contents o) []).

Definition network_error : JSError :=
  mkError "FetchError" "request failed, reason: connect ECONNREFUSED".

Definition fetch_down : string -> Method -> JSObject -> Exc Response :=
  fun _ _ _ => Throw network_error.

Definition fetch_answers (r : Response)
  : string -> Method -> JSObject -> Exc Response :=
  fun _ _ _ => Ret r.

Definition client_answers (o : Exc SDK.ListObjectsV2Output) : SDK.S3Client :=
  {| SDK.send := fun _ => o;
     SDK.presign := fun _ _ => Ret "https://r2.example.com/signed" |}.

Definition clients_answer (o : Exc SDK.ListObjectsV2Output) : Clients :=
  {| s3Client := client_answers o; cloudflare := client_answers o |}.

(** A stand-in for [responseForS3Errors] of [error/error_response]. *)
Definition status_forwarded (r : Response) : Exc IResponse :=
  Ret (IErrorResponse (status r) "The backing store answered with an error").

(** A stand-in for [errorResponse] of [error/error_response]. *)
Definition error_404 (c : BaseObjectContext) (code : ErrorCode) (msg : string)
  : IResponse := IErrorResponse 404 msg.

(** The document of the backing store: a directory marker and a file. *)
Definition listing_xml : string :=
  "<ListBucketResult><Contents><Key>a/</Key><Size>0</Size></Contents><Contents><Key>b.txt</Key><Size>10</Size><LastModified>2024-01-01T00:00:00Z</LastModified></Contents></ListBucketResult>".

Definition marker_entry : IListObjectContent :=
  {| Key := Some "a/"; LastModified := None; Size := Some 0%Z; Other := [] |}.

Definition file_entry : IListObjectContent :=
  {| Key := Some "b.txt"; LastModified := Some "2024-01-01T00:00:00Z";
     Size := Some 10%Z; Other := [] |}.

(** What [Xml.parse] makes of [listing_xml]. *)
Definition listing_parsed : IBaseListObject :=
  {| IsTruncated := false; EncodingType := None; MaxKeys := 0; Prefix := None;
     Contents := Some [marker_entry; file_entry]; Delimiter := None;
     CommonPrefixes := []; Extra := [] |}.

(** The same listing as the client gives it. *)
Definition listing_output : SDK.ListObjectsV2Output :=
  {| SDK.IsTruncated := Some false; SDK.EncodingType := None;
     SDK.MaxKeys := Some 1000%Z; SDK.o_Prefix := None;
     SDK.Contents :=
       Some [ {| SDK.Key := Some "a/"; SDK.LastModified := None;
                 SDK.Size := Some 0%Z; SDK.Other := [] |};
              {| SDK.Key := Some "b.txt";
                 SDK.LastModified := Some (SDK.ISODate "2024-01-01T00:00:00Z");
                 SDK.Size := Some 10%Z; SDK.Other := [] |} ];
     SDK.Delimiter := None; SDK.CommonPrefixes := None;
     SDK.Extra := []; SDK.metadata := [("httpStatusCode", "200")] |}.

(** The object that the handler makes of [listing_output]. *)
Definition listing_filtered : IBaseListObject :=
  {| IsTruncated := false; EncodingType := None; MaxKeys := 1000; Prefix := None;
     Contents := Some [file_entry]; Delimiter := None;
     CommonPrefixes := []; Extra := [] |}.

Definition with_Contents (o : IBaseListObject)
    (cs : option (list IListObjectContent)) : IBaseListObject :=
  {| IsTruncated := IsTruncated o; EncodingType := EncodingType o;
     MaxKeys := MaxKeys o; Prefix := Prefix o; Contents := cs;
     Delimiter := Delimiter o; CommonPrefixes := CommonPrefixes o;
     Extra := Extra o |}.

(** Transforms: the identity, one that hides every entry, one that adds
    a directory marker. *)
Definition transform_identity (o : IBaseListObject) : Exc IBaseListObject :=
  Ret o.
Definition transform_hide_all (o : IBaseListObject) : Exc IBaseListObject :=
  Ret (with_Contents o (Some [])).
Definition transform_add_marker (o : IBaseListObject) : Exc IBaseListObject :=
  Ret (with_Contents o (Some (marker_entry :: nullish (Contents o) []))).

Definition context_list : BaseObjectContext :=
  {| inputS3Url :=
       "https://bucket.s3.us-east-1.amazonaws.com/?list-type=2&prefix=photos%2F" |}.

Definition context_verify : BaseObjectContext :=
  {| inputS3Url :=
       "https://bucket.s3.us-east-1.amazonaws.com/?list-type=2&prefix=verify_health" |}.

Definition context_object : BaseObjectContext :=
  {| inputS3Url := "https://bucket.s3.us-east-1.amazonaws.com/photo.jpg" |}.

Definition request_list : UserRequest :=
  {| url := "https://ap.example.com/?list-type=2&prefix=photos%2F";
     headers := [("Host", "ap.example.com")] |}.

Definition response_ok : Response :=
  {| status := 200; arrayBuffer := Ret listing_xml |}.

Definition response_404 : Response :=
  {| status := 404;
     arrayBuffer := Ret "<Error><Code>NoSuchBucket</Code></Error>" |}.

(** A listing with every field of the data model, fields of the V2
    shape, and text that has to be escaped. *)
Definition listing_rich : IBaseListObject :=
  {| IsTruncated := true; EncodingType := Some "url"; MaxKeys := 1000;
     Prefix := Some "photos/<2024>&more";
     Contents :=
       Some [ {| Key := Some "photos/<2024>&more/a.jpg";
                 LastModified := Some "2024-01-01T00:00:00Z";
                 Size := Some 10%Z;
                 Other := [("ETag", "9b2cf535f27731c974343645a3985328");
                           ("StorageClass", "STANDARD")] |};
              file_entry ];
     Delimiter := Some "/";
     CommonPrefixes := [ {| SDK.Prefix := Some "photos/2024/" |} ];
     Extra := [("Name", "bucket"); ("KeyCount", "2");
               ("ContinuationToken", "t0k3n")] |}.

(** A listing whose prefix holds a carriage return, and the same with a
    line feed in its place. *)
Definition listing_with_prefix (p : string) : IBaseListObject :=
  {| IsTruncated := false; EncodingType := None; MaxKeys := 0;
     Prefix := Some p; Contents := Some []; Delimiter := None;
     CommonPrefixes := []; Extra := [] |}.

Definition prefix_cr : string := String "a" (String Xml.CR "b").
Definition prefix_lf : string := String "a" (String Xml.LF "b").

(** A ranged request: a host, a range and a condition. *)
Definition request_ranged : UserRequest :=
  {| url := "https://ap.example.com/photo.jpg";
     headers := [("Host", "ap.example.com"); ("range", "bytes=0-9");
                 ("If-Match", "abc")] |}.

(** The names that [removeSignedRequestHeaders] takes out. *)
Definition REMOVED_NAMES : list string :=
  ["Host"; "host"; "x-amz-checksum-mode"; "x-amz-request-payer";
   "x-amz-expected-bucket-owner"; "If-Match"; "If-Modified-Since";
   "If-None-Match"; "If-Unmodified-Since"].

(** The key of the object that [makeS3Request] asks for. *)
Definition object_key (url : string) : Exc string :=
  bindE (decodeURIComponent url) (fun d =>
  bindE (URL_new d) (fun u => Ret (slice1 (pathname u)))).

(** What the entry point imports, over a network and a transform. *)
Definition imports_over
    (fetch : string -> Method -> JSObject -> Exc Response)
    (listing : Exc SDK.ListObjectsV2Output)
    (transform : IBaseListObject -> Exc IBaseListObject) : Lambda.Imports :=
  {| Lambda.fetch := fetch;
     Lambda.responseForS3Errors := status_forwarded;
     Lambda.errorResponse := error_404;
     Lambda.handleGetObjectRequest := fun _ _ _ => Ret tt;
     Lambda.handleHeadObjectRequest :=
       fun _ _ _ => Ret (Some (IHeadObjectResponse 200 []));
     Lambda.transformListObjectsV1 := transform;
     Lambda.transformListObjectsV2 := transform;
     Lambda.XMLTransformer := Xml.transformer;
     Lambda.clients := clients_answer listing |}.

(** The same, with a transform for each version of the listing. *)
Definition imports_two_transforms : Lambda.Imports :=
  {| Lambda.fetch := fetch_answers response_ok;
     Lambda.responseForS3Errors := status_forwarded;
     Lambda.errorResponse := error_404;
     Lambda.handleGetObjectRequest := fun _ _ _ => Ret tt;
     Lambda.handleHeadObjectRequest :=
       fun _ _ _ => Ret (Some (IHeadObjectResponse 200 []));
     Lambda.transformListObjectsV1 := transform_hide_all;
     Lambda.transformListObjectsV2 := transform_identity;
     Lambda.XMLTransformer := Xml.transformer;
     Lambda.clients := clients_answer (Ret listing_output) |}.

Definition event_none : S3ObjectLambdaEvent :=
  {| getObjectContext := None; headObjectContext := None;
     listObjectsContext := None; listObjectsV2Context := None;
     userRequest := request_list |}.

Definition event_get : S3ObjectLambdaEvent :=
  {| getObjectContext := Some context_object; headObjectContext := None;
     listObjectsContext := None; listObjectsV2Context := None;
     userRequest := request_whole |}.

Definition event_head : S3ObjectLambdaEvent :=
  {| getObjectContext := None; headObjectContext := Some context_object;
     listObjectsContext := None; listObjectsV2Context := None;
     userRequest := request_whole |}.

Definition event_list_v1 : S3ObjectLambdaEvent :=
  {| getObjectContext := None; headObjectContext := None;
     listObjectsContext := Some context_list; listObjectsV2Context := None;
     userRequest := request_list |}.

Definition event_list_v2 : S3ObjectLambdaEvent :=
  {| getObjectContext := None; headObjectContext := None;
     listObjectsContext := None; listObjectsV2Context := Some context_list;
     userRequest := request_list |}.

(** *** Predicates of the further properties *)

(** The names that [getRequestHeaders] lets through. *)
Definition ALLOWED_NAMES : list string :=
  ["x-amz-checksum-mode"; "x-amz-request-payer";
   "x-amz-expected-bucket-owner"; "If-Match"; "If-Modified-Since";
   "If-None-Match"; "If-Unmodified-Since"].

(** The entries that each of the two filters keeps. *)
Definition kept_by_get (kv : string * string) : bool :=
  includes ALLOWED_NAMES (fst kv).

Definition kept_by_remove (kv : string * string) : bool :=
  negb (includes REMOVED_NAMES (fst kv)) && negb (fst kv =? "__proto__").

(** A header object as JavaScript has it: no name twice. *)
Definition unique_keys (h : JSObject) : Prop := NoDup (map fst h).

(** A URL whose path [new URL] keeps as it is written: after [https://]
    comes a host that starts with a letter or a digit, and up to the
    query there are only letters, digits and the marks that the path of
    a URL holds without an escape, and no segment that is [.] or [..]. *)
Definition path_char (c : ascii) : bool :=
  is_alpha c || is_digit c
  || includes ["-"; "."; "_"; "~"; "!"; "$"; "&"; "'"; "("; ")"; "*"; "+";
               ","; ";"; "="; ":"; "@"; "/"] (String c EmptyString).

Definition dot_segment (s : string) : bool := (s =? ".") || (s =? "..").

Definition location_kept (d : string) : bool :=
  match d with
  | String "h" (String "t" (String "t" (String "p" (String "s"
      (String ":" (String "/" (String "/" rest))))))) =>
      let location := fst (cut "?" (fst (cut "#" rest))) in
      match location with
      | String c _ =>
          (is_alpha c || is_digit c)
          && all path_char location
          && negb (existsb dot_segment (split_nonempty "/" location))
      | EmptyString => false
      end
  | _ => false
  end.

(** The value of header [k] that [makeS3Request] passes on: the one of
    the user's header of exactly that name, when it is not empty. *)
Definition forwarded (h : JSObject) (k : string) : option string :=
  if truthy (assoc k (rev h)) then assoc k (rev h) else None.

Definition command_bucket (c : SDK.ObjectCommand) : string :=
  match c with
  | SDK.GetObjectCommand i => SDK.g_Bucket i
  | SDK.HeadObjectCommand i => SDK.h_Bucket i
  end.

Definition command_key (c : SDK.ObjectCommand) : string :=
  match c with
  | SDK.GetObjectCommand i => SDK.g_Key i
  | SDK.HeadObjectCommand i => SDK.h_Key i
  end.

Definition command_range (c : SDK.ObjectCommand) : option string :=
  match c with
  | SDK.GetObjectCommand i => SDK.g_Range i
  | SDK.HeadObjectCommand _ => None
  end.

Definition command_part (c : SDK.ObjectCommand) : option JSNumber :=
  match c with
  | SDK.GetObjectCommand i => SDK.g_PartNumber i
  | SDK.HeadObjectCommand _ => None
  end.

(** The command that [makeS3Request] has signed and the headers that it
    sends, read off the headers of the user. *)
Definition signed_command (key : string) (h : JSObject) (method : Method)
  : SDK.ObjectCommand :=
  match method with
  | GET =>
      SDK.GetObjectCommand
        {| SDK.g_Bucket := Backing.BUCKET; SDK.g_Key := key;
           SDK.g_Range := forwarded h "range";
           SDK.g_PartNumber := option_map parseInt (forwarded h "partnumber") |}
  | HEAD =>
      SDK.HeadObjectCommand {| SDK.h_Bucket := Backing.BUCKET; SDK.h_Key := key |}
  end.

Definition sent_headers (h : JSObject) : JSObject :=
  (match forwarded h "range" with Some r => [("range", r)] | None => [] end
   ++ match forwarded h "partnumber" with
      | Some p => [("partnumber", p)] | None => [] end)%list.

(** Kinds of calls, and how often the transform was called. *)
Definition is_transform (c : Call) : bool :=
  match c with TransformObject _ => true | _ => false end.
Definition is_serialize (c : Call) : bool :=
  match c with SerializeXml _ => true | _ => false end.
Definition is_send (c : Call) : bool :=
  match c with Send _ => true | _ => false end.
Definition is_parse (c : Call) : bool :=
  match c with ParseXml _ => true | _ => false end.

Definition calls (kind : Call -> bool) (t : list Call) : nat :=
  length (filter kind t).

(** A response of the list handler: the listing with status 200, or an
    error with status 500. *)
Definition answered (r : IResponse) : bool :=
  match r with
  | IListObjectsResponse 200 _ => true
  | IErrorResponse 500 _ => true
  | _ => false
  end.

(** [x.Size === 0 && x.Key.endsWith('/')], on the entry of the client
    that the entry of the handler is made of. *)
Definition sdk_marker (x : SDK._Object) : bool :=
  match SDK.Size x with Some 0%Z => true | _ => false end
  && endsWith (nullish (SDK.Key x) EmptyString) "/".

(** The entry [c] of the handler is made of the entry [x] of the
    client: key and date are there, the rest is as it was. *)
Definition entry_of (x : SDK._Object) (c : IListObjectContent) : Prop :=
  Key c = Some (nullish (SDK.Key x) EmptyString)
  /\ LastModified c =
     Some (match SDK.LastModified x with
           | Some (SDK.ISODate s) => s
           | _ => EmptyString
           end)
  /\ SDK.LastModified x <> Some SDK.InvalidDate
  /\ Size c = SDK.Size x
  /\ Other c = SDK.Other x.

(** Requests and listings of the further properties. *)
Definition request_capital_range : UserRequest :=
  {| url := "https://ap.example.com/photo.jpg";
     headers := [("Host", "ap.example.com"); ("Range", "bytes=0-9");
                 ("If-Match", "abc"); ("X-Trace", "t1")] |}.

Definition request_relative_url : UserRequest :=
  {| url := "/photo.jpg?partNumber=1";
     headers := [("Range", "bytes=0-9")] |}.

Definition request_two_spellings : UserRequest :=
  {| url := "https://ap.example.com/photo.jpg";
     headers := [("Range", "bytes=0-9"); ("Host", "ap.example.com");
                 ("range", "bytes=5-6"); ("Accept", "*/*")] |}.

(** A request with another URL, another host and a range under a
    capital: what [request_list] has of allow-listed headers, none. *)
Definition request_other_url : UserRequest :=
  {| url := "not a url";
     headers := [("host", "other.example.com"); ("Range", "bytes=0-9")] |}.

(** The range of [request_ranged], and nothing else. *)
Definition request_range_only : UserRequest :=
  {| url := "not a url"; headers := [("range", "bytes=0-9")] |}.

(** No question mark. *)
Definition not_question (c : ascii) : bool := negb (Ascii.eqb c "?").

Definition transform_fails (e : JSError) (o : IBaseListObject)
  : Exc IBaseListObject := Throw e.

Definition transform_error : JSError := mkError "Error" "transform failed".

Definition listing_invalid_date : SDK.ListObjectsV2Output :=
  {| SDK.IsTruncated := None; SDK.EncodingType := None; SDK.MaxKeys := None;
     SDK.o_Prefix := None;
     SDK.Contents :=
       Some [ {| SDK.Key := Some "b.txt";
                 SDK.LastModified := Some SDK.InvalidDate;
                 SDK.Size := Some 10%Z; SDK.Other := [] |} ];
     SDK.Delimiter := None; SDK.CommonPrefixes := None;
     SDK.Extra := []; SDK.metadata := [] |}.

(* ================================================================== *)
(** * Properties *)
(* ================================================================== *)

(** ** Association lists and maps *)

Section Assoc.
  Implicit Types (k v : string) (l m : list (string * string)).

Lemma assoc_app k l m :
    assoc k (l ++ m) =
    match assoc k l with Some v => Some v | None => assoc k m end.
  Proof.
    induction l as [|[k' v'] l IH]; simpl; [reflexivity|].
    destruct (k' =? k); [reflexivity | exact IH].
  Qed.

Lemma assoc_upsert k k' v l :
    assoc k (upsert k' v l) = if k' =? k then Some v else assoc k l.
  Proof.
    induction l as [|[k1 v1] l IH]; simpl.
    - reflexivity.
    - destruct (k1 =? k') eqn:E1; simpl.
      + apply String.eqb_eq in E1. subst k1.
        destruct (k' =? k); reflexivity.
      + destruct (k1 =? k) eqn:E2.
        * apply String.eqb_eq in E2. subst k1.
          rewrite String.eqb_sym, E1. reflexivity.
        * exact IH.
  Qed.

Lemma assoc_In k v l : assoc k l = Some v -> In (k, v) l.
  Proof.
    induction l as [|[k' v'] l IH]; simpl; [discriminate|].
    destruct (k' =? k) eqn:E.
    - apply String.eqb_eq in E. intros [= ->]. left. congruence.
    - intros H. right. auto.
  Qed.

Lemma assoc_None_In k v l : assoc k l = None -> ~ In (k, v) l.
  Proof.
    induction l as [|[k' v'] l IH]; simpl; [tauto|].
    destruct (k' =? k) eqn:E; [discriminate|].
    intros H [[= -> ->]|Hin].
    - rewrite String.eqb_refl in E. discriminate.
    - exact (IH H Hin).
  Qed.

  (** Writing the entries one after the other: the last value of a key
      is the one that stays. *)
Lemma fold_upsert_assoc k l m :
    assoc k (fold_left (fun m kv => Map_set m (fst kv) (snd kv)) l m) =
    match assoc k (rev l) with Some v => Some v | None => assoc k m end.
  Proof.
    revert m. induction l as [|[k' v'] l IH]; intros m; simpl; [reflexivity|].
    rewrite IH, assoc_app. unfold Map_set.
    destruct (assoc k (rev l)); [reflexivity|].
    simpl. rewrite assoc_upsert. destruct (k' =? k); reflexivity.
  Qed.

Lemma Map_new_get k l : Map_get (Map_new l) k = assoc k (rev l).
  Proof.
    unfold Map_get, Map_new. rewrite fold_upsert_assoc.
    destruct (assoc k (rev l)); reflexivity.
  Qed.
End Assoc.

(** ** Strings *)

Lemma lower_char_not_upper c : not_upper (lower_char c) = true.
Proof. by_cases_on_ascii c. Qed.

Lemma lower_char_not_percent c :
  not_percent c = true -> not_percent (lower_char c) = true.
Proof. by_cases_on_ascii c. Qed.

Lemma lower_char_fix c : not_upper c = true -> lower_char c = c.
Proof.
  unfold not_upper, lower_char. destruct (is_upper c); [discriminate|reflexivity].
Qed.

Lemma toLowerCase_fix s : all not_upper s = true -> toLowerCase s = s.
Proof.
  induction s as [|c s IH]; simpl; [reflexivity|].
  intros H. apply andb_prop in H as [Hc Hs].
  rewrite (lower_char_fix c Hc), (IH Hs). reflexivity.
Qed.

Lemma toLowerCase_idem s : toLowerCase (toLowerCase s) = toLowerCase s.
Proof.
  apply toLowerCase_fix. induction s as [|c s IH]; simpl; [reflexivity|].
  rewrite lower_char_not_upper. exact IH.
Qed.

Lemma toLowerCase_lower_plain s :
  all not_percent s = true -> all lower_plain (toLowerCase s) = true.
Proof.
  induction s as [|c s IH]; simpl; [reflexivity|].
  intros H. apply andb_prop in H as [Hc Hs]. unfold lower_plain at 1.
  rewrite lower_char_not_upper, (lower_char_not_percent c Hc), (IH Hs).
  reflexivity.
Qed.

Lemma all_weaken (p q : ascii -> bool) s :
  (forall c, p c = true -> q c = true) ->
  all p s = true -> all q s = true.
Proof.
  intros Hpq. induction s as [|c s IH]; simpl; [reflexivity|].
  intros H. apply andb_prop in H as [Hc Hs].
  rewrite (Hpq c Hc), (IH Hs). reflexivity.
Qed.

Lemma all_app p s t :
  all p (s ++ t) = all p s && all p t.
Proof.
  induction s as [|c s IH]; simpl; [reflexivity|].
  rewrite IH, andb_assoc. reflexivity.
Qed.

(** ** What a URL keeps of the characters of its text *)

Section Substrings.
  Variable p : ascii -> bool.

Lemma all_ltrim s : all p s = true -> all p (ltrim s) = true.
  Proof.
    induction s as [|c s IH]; simpl; [reflexivity|].
    intros H. destruct (is_c0_or_space c); [|exact H].
    apply andb_prop in H as [_ Hs]. auto.
  Qed.

Lemma all_rtrim s : all p s = true -> all p (rtrim s) = true.
  Proof.
    induction s as [|c s IH]; simpl; [reflexivity|].
    intros H. apply andb_prop in H as [Hc Hs]. specialize (IH Hs).
    destruct (rtrim s) as [|c' r'].
    - destruct (is_c0_or_space c); simpl; [reflexivity|].
      rewrite Hc. reflexivity.
    - change (all p (String c (String c' r')) = true).
      simpl. simpl in IH. rewrite Hc. exact IH.
  Qed.

Lemma all_remove_tab_newline s :
    all p s = true -> all p (remove_tab_newline s) = true.
  Proof.
    induction s as [|c s IH]; simpl; [reflexivity|].
    intros H. apply andb_prop in H as [Hc Hs].
    destruct (is_tab_or_newline c); simpl; [auto|].
    rewrite Hc. auto.
  Qed.

Lemma all_cut c s :
    all p s = true ->
    all p (fst (cut c s)) = true
    /\ forall t, snd (cut c s) = Some t -> all p t = true.
  Proof.
    induction s as [|a s IH]; simpl.
    - intros _. split; [reflexivity | discriminate].
    - intros H. apply andb_prop in H as [Ha Hs].
      destruct (Ascii.eqb a c).
      + simpl. split; [reflexivity|]. intros t [= <-]. exact Hs.
      + destruct (IH Hs) as [H1 H2]. destruct (cut c s) as [h t]. simpl in *.
        rewrite Ha, H1. split; [reflexivity | exact H2].
  Qed.

Lemma all_scheme_rest s sch rest :
    all p s = true -> scheme_rest s = Some (sch, rest) ->
    all p rest = true.
  Proof.
    revert sch. induction s as [|c s IH]; simpl; intros sch H; [discriminate|].
    apply andb_prop in H as [Hc Hs].
    destruct (Ascii.eqb c ":").
    - intros [= <- <-]. exact Hs.
    - destruct (is_scheme_char c); [|discriminate].
      destruct (scheme_rest s) as [[sch' rest']|] eqn:E; [|discriminate].
      intros [= <- <-]. exact (IH sch' Hs eq_refl).
  Qed.

Lemma all_URL_query s u :
    all p s = true -> URL_new s = Ret u -> all p (query u) = true.
  Proof.
    intros Hs. unfold URL_new.
    pose proof (all_remove_tab_newline _ (all_rtrim _ (all_ltrim _ Hs))) as H.
    set (s' := remove_tab_newline (rtrim (ltrim s))) in *.
    destruct (split_scheme s') as [[sch rest]|] eqn:E; [|discriminate].
    assert (Hrest : all p rest = true).
    { unfold split_scheme in E. destruct s' as [|c r]; [discriminate|].
      destruct (is_alpha c); [|discriminate].
      exact (all_scheme_rest _ _ _ H E). }
    destruct (all_cut "#" rest Hrest) as [Hf _].
    destruct (all_cut "?" _ Hf) as [_ Hq].
    destruct (cut "?" (fst (cut "#" rest))) as [bq q]. simpl in Hq.
    intros [= <-]. simpl. destruct q as [q|]; [auto | reflexivity].
  Qed.

Lemma all_snoc s c : all p s = true -> p c = true ->
    all p (s ++ String c EmptyString) = true.
  Proof.
    intros Hs Hc. rewrite all_app, Hs. simpl. rewrite Hc. reflexivity.
  Qed.

Lemma all_split_nonempty_aux c cur s :
    all p cur = true -> all p s = true ->
    Forall (fun t => all p t = true) (split_nonempty_aux c cur s).
  Proof.
    revert cur. induction s as [|a s IH]; intros cur Hcur H; simpl.
    - destruct cur; [constructor | constructor; [exact Hcur | constructor]].
    - apply andb_prop in H as [Ha Hs]. destruct (Ascii.eqb a c).
      + specialize (IH EmptyString eq_refl Hs).
        destruct cur; [exact IH | constructor; [exact Hcur | exact IH]].
      + apply IH; [apply all_snoc; assumption | exact Hs].
  Qed.
End Substrings.

Lemma percent_decode_plain s :
  all not_percent s = true -> percent_decode s = s.
Proof.
  induction s as [|c s IH]; simpl; [reflexivity|].
  intros H. apply andb_prop in H as [Hc Hs]. unfold not_percent in Hc.
  destruct (Ascii.eqb c "%"); [discriminate|]. rewrite (IH Hs). reflexivity.
Qed.

Lemma plus_to_space_lower_plain s :
  all lower_plain s = true -> all lower_plain (plus_to_space s) = true.
Proof.
  induction s as [|c s IH]; simpl; [reflexivity|].
  intros H. apply andb_prop in H as [Hc Hs]. rewrite (IH Hs).
  destruct (Ascii.eqb c "+"); [reflexivity | rewrite Hc; reflexivity].
Qed.

Lemma lower_plain_not_percent s :
  all lower_plain s = true -> all not_percent s = true.
Proof.
  apply all_weaken. intros c H. apply andb_prop in H as [_ H]. exact H.
Qed.

Lemma lower_plain_not_upper s :
  all lower_plain s = true -> all not_upper s = true.
Proof.
  apply all_weaken. intros c H. apply andb_prop in H as [H _]. exact H.
Qed.

(** A value read in a query that holds no upper-case letter and no
    escape holds no upper-case letter. *)
Lemma searchParams_get_lower u k v :
  all lower_plain (query u) = true ->
  searchParams_get u k = Some v -> toLowerCase v = v.
Proof.
  intros Hq Hget. apply toLowerCase_fix, lower_plain_not_upper.
  unfold searchParams_get, searchParams in Hget. apply assoc_In in Hget.
  apply in_map_iff in Hget as [piece [Hpair Hin]].
  pose proof (all_split_nonempty_aux lower_plain "&" EmptyString (query u)
                eq_refl Hq) as Hall.
  rewrite Forall_forall in Hall. specialize (Hall piece Hin).
  unfold form_pair in Hpair.
  destruct (all_cut lower_plain "=" piece Hall) as [_ Hv].
  destruct (cut "=" piece) as [n [w|]]; simpl in Hv; injection Hpair as _ <-.
  - specialize (Hv w eq_refl).
    rewrite percent_decode_plain.
    + apply plus_to_space_lower_plain, Hv.
    + apply lower_plain_not_percent, plus_to_space_lower_plain, Hv.
  - reflexivity.
Qed.

Lemma getQueryParam_lower url name v :
  all not_percent url = true ->
  getQueryParam url name = Ret (Some v) -> toLowerCase v = v.
Proof.
  intros Hurl. unfold getQueryParam.
  destruct (URL_new (toLowerCase url)) as [u|e] eqn:E; simpl; [|discriminate].
  intros [= H]. eapply searchParams_get_lower; [|exact H].
  eapply all_URL_query; [|exact E]. apply toLowerCase_lower_plain, Hurl.
Qed.

Lemma getQueryParam_lowered url name :
  getQueryParam (toLowerCase url) (toLowerCase name) = getQueryParam url name.
Proof. unfold getQueryParam. rewrite !toLowerCase_idem. reflexivity. Qed.

Lemma getQueryParam_case url url' name name' :
  toLowerCase url = toLowerCase url' -> toLowerCase name = toLowerCase name' ->
  getQueryParam url name = getQueryParam url' name'.
Proof. unfold getQueryParam. intros -> ->. reflexivity. Qed.

(** ** Range and part number of a request *)

Lemma lowerCaseHeaders_get ur n :
  Map_get (lowerCaseHeaders ur) n =
  assoc n (rev (map (fun kv => (toLowerCase (fst kv), snd kv)) (headers ur))).
Proof. unfold lowerCaseHeaders, Object_entries. apply Map_new_get. Qed.

Lemma lowerCaseHeaders_header_is ur name v :
  header_is ur name v ->
  Map_get (lowerCaseHeaders ur) (toLowerCase name) = Some v.
Proof.
  intros [[k [Hin Hk]] Huniq]. rewrite lowerCaseHeaders_get.
  set (l := map _ (headers ur)).
  destruct (assoc (toLowerCase name) (rev l)) as [w|] eqn:E.
  - apply assoc_In, in_rev in E. unfold l in E.
    apply in_map_iff in E as [[k' v'] [[= Hk' <-] Hin']]. simpl in *.
    f_equal. exact (Huniq k' v' Hin' Hk').
  - exfalso. apply (assoc_None_In _ v) in E. apply E, in_rev.
    rewrite rev_involutive. unfold l. apply in_map_iff.
    exists (k, v). simpl. split; [congruence | exact Hin].
Qed.

Lemma lowerCaseHeaders_no_header ur name :
  no_header ur name ->
  Map_has (lowerCaseHeaders ur) (toLowerCase name) = false.
Proof.
  intros Hno. unfold Map_has.
  change (assoc (toLowerCase name) (lowerCaseHeaders ur))
    with (Map_get (lowerCaseHeaders ur) (toLowerCase name)).
  rewrite lowerCaseHeaders_get.
  destruct (assoc _ _) as [w|] eqn:E; [|reflexivity].
  apply assoc_In, in_rev, in_map_iff in E as [[k' v'] [[= Hk' <-] Hin']].
  exfalso. exact (Hno k' v' Hin' Hk').
Qed.

Lemma getRange_header ur v :
  header_is ur RANGE v -> getRange ur = Ret (Some v).
Proof.
  intros H. unfold getRange, Map_has.
  pose proof (lowerCaseHeaders_header_is ur RANGE v H) as E.
  unfold Map_get in *. rewrite E. reflexivity.
Qed.

Lemma getRange_query ur :
  no_header ur RANGE -> getRange ur = getQueryParam (url ur) RANGE.
Proof.
  intros H. unfold getRange.
  rewrite (lowerCaseHeaders_no_header ur RANGE H). reflexivity.
Qed.

Lemma getPartNumber_case ur ur' :
  toLowerCase (url ur') = toLowerCase (url ur) ->
  getPartNumber ur' = getPartNumber ur.
Proof.
  intros H. unfold getPartNumber. apply getQueryParam_case; [exact H | reflexivity].
Qed.

(** ** The URL of a lower-cased text *)

Lemma lower_char_c0_or_space c :
  is_c0_or_space (lower_char c) = is_c0_or_space c.
Proof. by_cases_on_ascii c. Qed.

Lemma lower_char_tab_or_newline c :
  is_tab_or_newline (lower_char c) = is_tab_or_newline c.
Proof. by_cases_on_ascii c. Qed.

Lemma lower_char_alpha c : is_alpha (lower_char c) = is_alpha c.
Proof. by_cases_on_ascii c. Qed.

Lemma lower_char_scheme_char c :
  is_scheme_char (lower_char c) = is_scheme_char c.
Proof. by_cases_on_ascii c. Qed.

Lemma lower_char_colon c : Ascii.eqb (lower_char c) ":" = Ascii.eqb c ":".
Proof. by_cases_on_ascii c. Qed.

Lemma lower_char_hash c : Ascii.eqb (lower_char c) "#" = Ascii.eqb c "#".
Proof. by_cases_on_ascii c. Qed.

Lemma lower_char_question c : Ascii.eqb (lower_char c) "?" = Ascii.eqb c "?".
Proof. by_cases_on_ascii c. Qed.

Lemma lower_char_ampersand c : Ascii.eqb (lower_char c) "&" = Ascii.eqb c "&".
Proof. by_cases_on_ascii c. Qed.

Lemma lower_char_equals c : Ascii.eqb (lower_char c) "=" = Ascii.eqb c "=".
Proof. by_cases_on_ascii c. Qed.

Lemma lower_char_plus c :
  (if Ascii.eqb (lower_char c) "+" then " "%char else lower_char c)
  = lower_char (if Ascii.eqb c "+" then " "%char else c).
Proof. by_cases_on_ascii c. Qed.

Lemma toLowerCase_app s t :
  toLowerCase (s ++ t) = toLowerCase s ++ toLowerCase t.
Proof. induction s as [|c s IH]; simpl; [|rewrite IH]; reflexivity. Qed.

Lemma toLowerCase_ltrim s : ltrim (toLowerCase s) = toLowerCase (ltrim s).
Proof.
  induction s as [|c s IH]; simpl; [reflexivity|].
  rewrite lower_char_c0_or_space. destruct (is_c0_or_space c); [exact IH | reflexivity].
Qed.

Lemma toLowerCase_rtrim s : rtrim (toLowerCase s) = toLowerCase (rtrim s).
Proof.
  induction s as [|c s IH]; simpl; [reflexivity|].
  rewrite IH, lower_char_c0_or_space.
  destruct (rtrim s) as [|c' r']; simpl.
  - destruct (is_c0_or_space c); reflexivity.
  - reflexivity.
Qed.

Lemma toLowerCase_remove_tab_newline s :
  remove_tab_newline (toLowerCase s) = toLowerCase (remove_tab_newline s).
Proof.
  induction s as [|c s IH]; simpl; [reflexivity|].
  rewrite lower_char_tab_or_newline, IH.
  destruct (is_tab_or_newline c); reflexivity.
Qed.

Lemma toLowerCase_scheme_rest s :
  scheme_rest (toLowerCase s)
  = option_map (fun p => (toLowerCase (fst p), toLowerCase (snd p)))
               (scheme_rest s).
Proof.
  induction s as [|c s IH]; simpl; [reflexivity|].
  rewrite lower_char_colon, lower_char_scheme_char, IH.
  destruct (Ascii.eqb c ":"); [reflexivity|].
  destruct (is_scheme_char c); [|reflexivity].
  destruct (scheme_rest s) as [[sch rest]|]; reflexivity.
Qed.

Lemma toLowerCase_split_scheme s :
  split_scheme (toLowerCase s)
  = option_map (fun p => (toLowerCase (fst p), toLowerCase (snd p)))
               (split_scheme s).
Proof.
  destruct s as [|c s]; [reflexivity|].
  unfold split_scheme. cbn [toLowerCase]. rewrite lower_char_alpha.
  destruct (is_alpha c); [|reflexivity].
  exact (toLowerCase_scheme_rest (String c s)).
Qed.

Section CutLowered.
  Variable x : ascii.
  Hypothesis Hx : forall c, Ascii.eqb (lower_char c) x = Ascii.eqb c x.

Lemma toLowerCase_cut s :
  cut x (toLowerCase s)
  = (toLowerCase (fst (cut x s)), option_map toLowerCase (snd (cut x s))).
Proof.
  induction s as [|c s IH]; simpl; [reflexivity|].
  rewrite Hx. destruct (Ascii.eqb c x); [reflexivity|].
  rewrite IH. destruct (cut x s) as [h t]. reflexivity.
Qed.

Lemma toLowerCase_split_nonempty_aux cur s :
  split_nonempty_aux x (toLowerCase cur) (toLowerCase s)
  = map toLowerCase (split_nonempty_aux x cur s).
Proof.
  revert cur. induction s as [|c s IH]; intros cur; simpl.
  - destruct cur; reflexivity.
  - rewrite Hx. destruct (Ascii.eqb c x).
    + pose proof (IH EmptyString) as IH0. cbn [toLowerCase] in IH0.
      rewrite IH0. destruct cur; reflexivity.
    + rewrite <- IH, toLowerCase_app. reflexivity.
Qed.

Lemma toLowerCase_split_nonempty s :
  split_nonempty x (toLowerCase s) = map toLowerCase (split_nonempty x s).
Proof. exact (toLowerCase_split_nonempty_aux EmptyString s). Qed.
End CutLowered.

Lemma toLowerCase_plus_to_space s :
  plus_to_space (toLowerCase s) = toLowerCase (plus_to_space s).
Proof.
  induction s as [|c s IH]; simpl; [reflexivity|].
  rewrite IH, lower_char_plus. reflexivity.
Qed.

(** The URL of a lower-cased text: its query is the query of the text,
    lower-cased. *)
Lemma URL_new_toLowerCase s u0 :
  URL_new s = Ret u0 ->
  exists u, URL_new (toLowerCase s) = Ret u
            /\ query u = toLowerCase (query u0).
Proof.
  unfold URL_new.
  rewrite toLowerCase_ltrim, toLowerCase_rtrim, toLowerCase_remove_tab_newline,
    toLowerCase_split_scheme.
  destruct (split_scheme (remove_tab_newline (rtrim (ltrim s))))
    as [[sch rest]|]; [|discriminate].
  cbn [option_map fst snd].
  rewrite (toLowerCase_cut "#" lower_char_hash rest). cbn [fst].
  rewrite (toLowerCase_cut "?" lower_char_question (fst (cut "#" rest))).
  destruct (cut "?" (fst (cut "#" rest))) as [bq q]. cbn [fst snd].
  intros [= <-]. eexists. split; [reflexivity|]. cbn [query].
  destruct q; reflexivity.
Qed.

(** The pairs that [getQueryParam] sees are those of the query as it is
    written, each lower-cased before it is decoded. *)
Lemma getQueryParam_lowered_pairs s name u0 :
  URL_new s = Ret u0 ->
  getQueryParam s name = Ret (assoc (toLowerCase name) (lowered_pairs u0)).
Proof.
  intros H. destruct (URL_new_toLowerCase s u0 H) as [u [Hu Hq]].
  unfold getQueryParam. rewrite Hu. cbn [bindE].
  unfold searchParams_get, searchParams, lowered_pairs.
  rewrite Hq, (toLowerCase_split_nonempty "&" lower_char_ampersand), map_map.
  reflexivity.
Qed.

Lemma all_not_percent_toLowerCase s :
  all not_percent s = true -> all not_percent (toLowerCase s) = true.
Proof.
  induction s as [|c s IH]; simpl; [reflexivity|].
  intros H. apply andb_prop in H as [Hc Hs].
  rewrite (lower_char_not_percent c Hc). exact (IH Hs).
Qed.

Lemma all_not_percent_plus_to_space s :
  all not_percent s = true -> all not_percent (plus_to_space s) = true.
Proof.
  induction s as [|c s IH]; simpl; [reflexivity|].
  intros H. apply andb_prop in H as [Hc Hs]. rewrite (IH Hs).
  destruct (Ascii.eqb c "+"); [reflexivity | rewrite Hc; reflexivity].
Qed.

Lemma decode_plain s :
  all not_percent s = true ->
  percent_decode (plus_to_space s) = plus_to_space s.
Proof. intros H. apply percent_decode_plain, all_not_percent_plus_to_space, H. Qed.

(** Without an escape, lower-casing a piece lower-cases its name and
    its value. *)
Lemma form_pair_toLowerCase piece :
  all not_percent piece = true ->
  form_pair (toLowerCase piece)
  = (toLowerCase (fst (form_pair piece)), toLowerCase (snd (form_pair piece))).
Proof.
  intros H. unfold form_pair.
  rewrite (toLowerCase_cut "=" lower_char_equals piece).
  destruct (all_cut not_percent "=" piece H) as [Hn Hv].
  destruct (cut "=" piece) as [n v]. cbn [fst snd] in *.
  assert (Hv' : all not_percent (match v with Some v => v | None => EmptyString end)
                = true).
  { destruct v as [v|]; [exact (Hv v eq_refl) | reflexivity]. }
  replace (match option_map toLowerCase v with
           | Some v0 => v0 | None => EmptyString end)
    with (toLowerCase (match v with Some v => v | None => EmptyString end))
    by (destruct v; reflexivity).
  rewrite !decode_plain by (try apply all_not_percent_toLowerCase; assumption).
  rewrite !toLowerCase_plus_to_space. reflexivity.
Qed.

Lemma assoc_lowered k l :
  assoc (toLowerCase k)
        (map (fun p => (toLowerCase (fst p), toLowerCase (snd p))) l)
  = option_map toLowerCase (assoc_ci k l).
Proof.
  induction l as [|[k' v'] l IH]; simpl; [reflexivity|].
  destruct (toLowerCase k' =? toLowerCase k); [reflexivity | exact IH].
Qed.

Lemma lowered_pairs_plain u :
  all not_percent (query u) = true ->
  lowered_pairs u
  = map (fun p => (toLowerCase (fst p), toLowerCase (snd p))) (searchParams u).
Proof.
  intros H. unfold lowered_pairs, searchParams. rewrite map_map.
  apply map_ext_in. intros piece Hin. apply form_pair_toLowerCase.
  pose proof (all_split_nonempty_aux not_percent "&" EmptyString (query u)
                eq_refl H) as Hall.
  rewrite Forall_forall in Hall. exact (Hall piece Hin).
Qed.

(** A parameter of a URL without escapes is found whatever the case of
    its name, and its value comes back lower-cased. *)
Lemma getQueryParam_as_written s name u0 :
  URL_new s = Ret u0 -> all not_percent s = true ->
  getQueryParam s name
  = Ret (option_map toLowerCase (assoc_ci name (searchParams u0))).
Proof.
  intros Hu Hs. rewrite (getQueryParam_lowered_pairs s name u0 Hu).
  rewrite (lowered_pairs_plain u0 (all_URL_query not_percent s u0 Hs Hu)).
  rewrite assoc_lowered. reflexivity.
Qed.

(** The header that [getRange] reads. *)
Lemma lowerCaseHeaders_header_value ur name :
  Map_get (lowerCaseHeaders ur) (toLowerCase name) = header_value ur name.
Proof.
  rewrite lowerCaseHeaders_get. unfold header_value. rewrite <- map_rev.
  induction (rev (headers ur)) as [|[k v] l IH]; simpl; [reflexivity|].
  destruct (toLowerCase k =? toLowerCase name); [reflexivity | exact IH].
Qed.

Lemma getRange_header_value ur :
  getRange ur
  = match header_value ur RANGE with
    | Some v => Ret (Some v)
    | None => getQueryParam (url ur) RANGE
    end.
Proof.
  unfold getRange, Map_has.
  change (assoc (toLowerCase RANGE) (lowerCaseHeaders ur))
    with (Map_get (lowerCaseHeaders ur) (toLowerCase RANGE)).
  rewrite lowerCaseHeaders_header_value.
  destruct (header_value ur RANGE); reflexivity.
Qed.

(** C3 (as amended). [getRange] looks the range header up whatever the
    case of its name and returns its value before it looks at the query,
    and falls back on the query parameter; [getPartNumber] reads the
    query parameter alone, whatever the headers are, and reads it
    whatever the case of the letters of the URL.  Both find the
    parameter whatever the case of its name: of a URL in ASCII without
    escapes they return the value, lower-cased, of the first parameter
    of the URL as it is written whose name is the name looked for but
    for the case of its letters, and nothing when there is none. *)
Theorem getRange_header_first_getPartNumber_query_only :
  forall ur : UserRequest,
    (forall v, header_is ur RANGE v -> getRange ur = Ret (Some v))
    /\ (no_header ur RANGE -> getRange ur = getQueryParam (url ur) RANGE)
    /\ (forall hs,
           getPartNumber {| url := url ur; headers := hs |} = getPartNumber ur)
    /\ (forall ur', toLowerCase (url ur') = toLowerCase (url ur) ->
                    getPartNumber ur' = getPartNumber ur)
    /\ (forall u0,
           URL_new (url ur) = Ret u0 ->
           all is_ascii (url ur) = true ->
           all not_percent (url ur) = true ->
           getPartNumber ur
           = Ret (option_map toLowerCase
                    (assoc_ci PART_NUMBER (searchParams u0)))
           /\ (no_header ur RANGE ->
               getRange ur
               = Ret (option_map toLowerCase
                        (assoc_ci RANGE (searchParams u0))))).
Proof.
  intros ur. split; [|split; [|split; [|split]]].
  - apply getRange_header.
  - apply getRange_query.
  - reflexivity.
  - intros ur'. apply getPartNumber_case.
  - intros u0 Hu _ Hp. split.
    + exact (getQueryParam_as_written (url ur) PART_NUMBER u0 Hu Hp).
    + intros Hno. rewrite (getRange_query ur Hno).
      exact (getQueryParam_as_written (url ur) RANGE u0 Hu Hp).
Qed.

Lemma header_is_range_both : header_is request_range_both RANGE "Bytes=0-5".
Proof.
  split.
  - exists "RANGE". split; [simpl; auto | reflexivity].
  - intros k' v' Hin Hk. simpl in Hin.
    destruct Hin as [[= <- <-]|[[= <- <-]|[]]]; [discriminate Hk | reflexivity].
Defined.

Lemma no_header_query_mixed_case : no_header request_query_mixed_case RANGE.
Proof.
  intros k v Hin. simpl in Hin. destruct Hin as [[= <- <-]|[]]. discriminate.
Defined.

(** The header wins over the query of [request_range_both]; the part
    number and the range of [request_query_mixed_case] are found under
    their names in capitals. *)
Lemma getRange_header_first_witness :
  getRange request_range_both = Ret (Some "Bytes=0-5")
  /\ getPartNumber request_query_mixed_case = Ret (Some "3")
  /\ getRange request_query_mixed_case = Ret (Some "bytes=0-5").
Proof.
  pose (T := getRange_header_first_getPartNumber_query_only).
  split; [|split].
  - exact (proj1 (T request_range_both) "Bytes=0-5" header_is_range_both).
  - exact (proj1 (proj2 (proj2 (proj2 (proj2 (T request_query_mixed_case))))
                    (url_photo "PARTNUMBER=3&rAnGe=BYTES=0-5")
                    eq_refl eq_refl eq_refl)).
  - exact (proj2 (proj2 (proj2 (proj2 (proj2 (T request_query_mixed_case))))
                    (url_photo "PARTNUMBER=3&rAnGe=BYTES=0-5")
                    eq_refl eq_refl eq_refl)
             no_header_query_mixed_case).
Defined.

(** C3 (as stated) fails for the part number: the request holds the
    header [partNumber: 2] and the query [partNumber=1], and
    [getPartNumber] returns the value of the query. *)
Lemma getPartNumber_header_does_not_win :
  header_is request_part_both PART_NUMBER "2"
  /\ getPartNumber request_part_both = Ret (Some "1").
Proof.
  split; [|reflexivity]. split.
  - exists "partNumber". split; [simpl; auto | reflexivity].
  - intros k' v' Hin Hk. simpl in Hin.
    destruct Hin as [[= <- <-]|[[= <- <-]|[]]]; [discriminate Hk | reflexivity].
Qed.

Lemma getPartNumber_parsed ur u :
  URL_new (toLowerCase (url ur)) = Ret u ->
  getPartNumber ur = Ret (searchParams_get u "partnumber").
Proof. intros H. unfold getPartNumber, getQueryParam. rewrite H. reflexivity. Qed.

Lemma getRange_parsed ur u :
  URL_new (toLowerCase (url ur)) = Ret u ->
  getRange ur
  = Ret (match header_value ur RANGE with
         | Some v => Some v
         | None => searchParams_get u "range"
         end).
Proof.
  intros H. rewrite getRange_header_value.
  destruct (header_value ur RANGE); [reflexivity|].
  unfold getQueryParam. rewrite H. reflexivity.
Qed.

(** C7 (as amended). For a request whose URL [new URL] takes,
    [applyRangeOrPartNumber] and [applyRangeOrPartNumberHeaders] honour
    one of range and part number: the range of the header when there is
    one, whatever the query holds; else the range of the query; else the
    part number of the query (the two read in the lower-cased URL, which
    is taken in ASCII); with none of them they return the buffer, or the
    headers, as they are, with [hasError = false]. *)
Theorem applyRangeOrPartNumber_honours_one :
  forall (E V : Type)
         (mapRange mapPartNumber : string -> Buffer -> RangeResponse E V)
         (mapRangeHead mapPartNumberHead :
            string -> list (string * V) -> RangeResponse E V)
         (buf : Buffer) (hdrs : list (string * V)) (ur : UserRequest)
         (u : URL),
    URL_new (toLowerCase (url ur)) = Ret u ->
    (forall r, header_value ur RANGE = Some r ->
       applyRangeOrPartNumber mapRange mapPartNumber buf ur
         = Ret (mapRange r buf)
       /\ applyRangeOrPartNumberHeaders mapRangeHead mapPartNumberHead hdrs ur
         = Ret (mapRangeHead r hdrs))
    /\ (forall r, header_value ur RANGE = None ->
       all is_ascii (url ur) = true ->
       searchParams_get u "range" = Some r ->
       applyRangeOrPartNumber mapRange mapPartNumber buf ur
         = Ret (mapRange r buf)
       /\ applyRangeOrPartNumberHeaders mapRangeHead mapPartNumberHead hdrs ur
         = Ret (mapRangeHead r hdrs))
    /\ (forall p, header_value ur RANGE = None ->
       all is_ascii (url ur) = true ->
       searchParams_get u "range" = None ->
       searchParams_get u "partnumber" = Some p ->
       applyRangeOrPartNumber mapRange mapPartNumber buf ur
         = Ret (mapPartNumber p buf)
       /\ applyRangeOrPartNumberHeaders mapRangeHead mapPartNumberHead hdrs ur
         = Ret (mapPartNumberHead p hdrs))
    /\ (header_value ur RANGE = None ->
       searchParams_get u "range" = None ->
       searchParams_get u "partnumber" = None ->
       applyRangeOrPartNumber mapRange mapPartNumber buf ur
         = Ret {| object := Some buf; rheaders := None;
                  hasError := false; errorResponse := None |}
       /\ applyRangeOrPartNumberHeaders mapRangeHead mapPartNumberHead hdrs ur
         = Ret {| object := None; rheaders := Some hdrs;
                  hasError := false; errorResponse := None |}).
Proof.
  intros E V mr mp mrh mph buf hdrs ur u Hu.
  unfold applyRangeOrPartNumber, applyRangeOrPartNumberHeaders.
  rewrite (getRange_parsed ur u Hu), (getPartNumber_parsed ur u Hu).
  cbn [bindE]. split; [|split; [|split]].
  - intros r ->. split; reflexivity.
  - intros r -> _ ->. split; reflexivity.
  - intros p -> _ -> ->. split; reflexivity.
  - intros -> -> ->. split; reflexivity.
Qed.

(** The range of a header wins over a part number; the range of the
    query; the part number of the query, a header of that name
    notwithstanding; neither. *)
Lemma applyRangeOrPartNumber_witness :
  applyRangeOrPartNumber (mapper_named "range") (mapper_named "part")
    "payload" request_range_and_part
  = Ret (mapper_named "range" "bytes=0-9" "payload")
  /\ applyRangeOrPartNumberHeaders (head_mapper_named "range")
       (head_mapper_named "part") [("content-length", "7")]
       request_range_query
     = Ret (head_mapper_named "range" "bytes=0-5" [("content-length", "7")])
  /\ applyRangeOrPartNumber (mapper_named "range") (mapper_named "part")
       "payload" request_part_both
     = Ret (mapper_named "part" "1" "payload")
  /\ applyRangeOrPartNumber (mapper_named "range") (mapper_named "part")
       "payload" request_whole
     = Ret {| object := Some "payload"; rheaders := None;
              hasError := false; errorResponse := None |}.
Proof.
  pose (T := fun ur u H =>
          applyRangeOrPartNumber_honours_one string string
            (mapper_named "range") (mapper_named "part")
            (head_mapper_named "range") (head_mapper_named "part")
            "payload" [("content-length", "7")] ur u H).
  split; [|split; [|split]].
  - exact (proj1 (proj1 (T request_range_and_part (url_photo "partnumber=2")
                           eq_refl) "bytes=0-9" eq_refl)).
  - exact (proj2 (proj1 (proj2 (T request_range_query
                                  (url_photo "range=bytes=0-5") eq_refl))
                    "bytes=0-5" eq_refl eq_refl eq_refl)).
  - exact (proj1 (proj1 (proj2 (proj2 (T request_part_both
                                         (url_photo "partnumber=1") eq_refl)))
                    "1" eq_refl eq_refl eq_refl eq_refl)).
  - exact (proj1 (proj2 (proj2 (proj2 (T request_whole (url_photo EmptyString)
                                         eq_refl)))
                    eq_refl eq_refl eq_refl)).
Defined.

(** C7 (as stated) fails on a URL that [new URL] refuses: the request
    holds neither a range nor a part number, and the two functions throw
    where the claim has them return the buffer and the headers. *)
Lemma applyRangeOrPartNumber_throws_on_relative_url :
  header_value request_bare_relative RANGE = None
  /\ applyRangeOrPartNumber (mapper_named "range") (mapper_named "part")
       "payload" request_bare_relative
     = Throw (TypeError "Invalid URL")
  /\ applyRangeOrPartNumberHeaders (head_mapper_named "range")
       (head_mapper_named "part") [("content-length", "7")]
       request_bare_relative
     = Throw (TypeError "Invalid URL").
Proof. split; [|split]; reflexivity. Qed.

(** C10 (as amended). A value that comes from the query alone is read
    in the lower-cased URL.  Of a URL in ASCII, the part number, and the
    range of a request without a range header, are read in the pairs of
    the query as it is written, each lower-cased before it is decoded;
    when the URL holds no percent sign, the value that comes back is the
    value as it is written, lower-cased, and holds no upper-case letter.
    The value of a range header comes back as it is. *)
Theorem query_value_lowercased_when_unescaped :
  forall (ur : UserRequest) (u0 : URL),
    URL_new (url ur) = Ret u0 ->
    all is_ascii (url ur) = true ->
    (getPartNumber ur = Ret (assoc "partnumber" (lowered_pairs u0))
     /\ (no_header ur RANGE ->
         getRange ur = Ret (assoc "range" (lowered_pairs u0))))
    /\ (all not_percent (url ur) = true ->
        (forall v, assoc_ci PART_NUMBER (searchParams u0) = Some v ->
                   getPartNumber ur = Ret (Some (toLowerCase v)))
        /\ (no_header ur RANGE ->
            forall v, assoc_ci RANGE (searchParams u0) = Some v ->
                      getRange ur = Ret (Some (toLowerCase v)))
        /\ (forall v, getPartNumber ur = Ret (Some v) -> toLowerCase v = v)
        /\ (no_header ur RANGE ->
            forall v, getRange ur = Ret (Some v) -> toLowerCase v = v))
    /\ (forall v, header_is ur RANGE v -> getRange ur = Ret (Some v)).
Proof.
  intros ur u0 Hu _. split; [|split].
  - split.
    + exact (getQueryParam_lowered_pairs (url ur) PART_NUMBER u0 Hu).
    + intros Hno. rewrite (getRange_query ur Hno).
      exact (getQueryParam_lowered_pairs (url ur) RANGE u0 Hu).
  - intros Hp. split; [|split; [|split]].
    + intros v Hv. unfold getPartNumber.
      rewrite (getQueryParam_as_written (url ur) PART_NUMBER u0 Hu Hp), Hv.
      reflexivity.
    + intros Hno v Hv. rewrite (getRange_query ur Hno).
      rewrite (getQueryParam_as_written (url ur) RANGE u0 Hu Hp), Hv.
      reflexivity.
    + intros v. apply getQueryParam_lower, Hp.
    + intros Hno v. rewrite (getRange_query ur Hno).
      apply getQueryParam_lower, Hp.
  - apply getRange_header.
Qed.

Lemma no_header_range_query : no_header request_range_query RANGE.
Proof.
  intros k v Hin. simpl in Hin. destruct Hin as [[= <- <-]|[]]. discriminate.
Defined.

(** The query value [BYTES=0-5] of [request_range_query] is seen as
    [bytes=0-5]; the part number of [request_query_mixed_case]; the
    value of [request_range_escaped], read in the lower-cased pair. *)
Lemma query_value_lowercased_witness :
  getRange request_range_query = Ret (Some "bytes=0-5")
  /\ getPartNumber request_query_mixed_case = Ret (Some "3")
  /\ getRange request_range_escaped = Ret (Some "Bytes=0-5").
Proof.
  pose (T := query_value_lowercased_when_unescaped).
  split; [|split].
  - exact (proj1 (proj2 (proj1 (proj2
             (T request_range_query (url_photo "Range=BYTES=0-5")
                eq_refl eq_refl)) eq_refl))
             no_header_range_query "BYTES=0-5" eq_refl).
  - exact (proj1 (proj1 (proj2
             (T request_query_mixed_case
                (url_photo "PARTNUMBER=3&rAnGe=BYTES=0-5") eq_refl eq_refl))
             eq_refl) "3" eq_refl).
  - refine (proj2 (proj1
             (T request_range_escaped
                (url_photo "range=%42YTES%3D0-5") eq_refl eq_refl)) _).
    intros k v Hin. simpl in Hin. destruct Hin as [[= <- <-]|[]]. discriminate.
Defined.

(** C10 (as stated) fails on an escape: the query value [%42YTES%3D0-5]
    of [request_range_escaped] is lower-cased to [%42ytes%3d0-5] and
    then decoded, and the range comes back with an upper-case letter. *)
Lemma escaped_query_value_keeps_upper_case :
  getRange request_range_escaped = Ret (Some "Bytes=0-5")
  /\ toLowerCase "Bytes=0-5" = "bytes=0-5"
  /\ "Bytes=0-5" <> "bytes=0-5".
Proof. repeat split. discriminate. Qed.

(** ** The entry point *)

Open Scope async_scope.

(** C8. The entry point looks for [getObjectContext], [headObjectContext],
    [listObjectsContext] and [listObjectsV2Context], in that order, and
    hands the event to the handler of the first that is there: the get
    handler, after which it returns [null]; the head handler;
    [handleListObjectsRequest] of a list handler made with the V1
    transform; [handleListObjectsRequest] of a list handler made with
    the V2 transform; the calls of the entry point are those of the
    handler, and it settles as the handler does.  An event with none of
    the four returns [null] and calls nothing. *)
Theorem handler_routes_by_context :
  forall (i : Lambda.Imports) (ev : S3ObjectLambdaEvent),
    (forall c, getObjectContext ev = Some c ->
       trace (Lambda.handler i ev) = [HandleGetObject c (userRequest ev)]
       /\ outcome (Lambda.handler i ev) =
          bindE (Lambda.handleGetObjectRequest i (Lambda.clients i) c
                   (userRequest ev))
                (fun _ => Ret None))
    /\ (forall c, getObjectContext ev = None -> headObjectContext ev = Some c ->
       Lambda.handler i ev =
       ([HandleHeadObject c (userRequest ev)],
        Lambda.handleHeadObjectRequest i (Lambda.clients i) c (userRequest ev)))
    /\ (forall c, getObjectContext ev = None -> headObjectContext ev = None ->
       listObjectsContext ev = Some c ->
       let run :=
         handleListObjectsRequest (Lambda.fetch i)
           (Lambda.responseForS3Errors i) (Lambda.errorResponse i)
           (new (Lambda.transformListObjectsV1 i) (Lambda.XMLTransformer i))
           (Lambda.clients i) c (userRequest ev) in
       trace (Lambda.handler i ev) = trace run
       /\ outcome (Lambda.handler i ev)
          = bindE (outcome run) (fun r => Ret (Some r)))
    /\ (forall c, getObjectContext ev = None -> headObjectContext ev = None ->
       listObjectsContext ev = None -> listObjectsV2Context ev = Some c ->
       let run :=
         handleListObjectsRequest (Lambda.fetch i)
           (Lambda.responseForS3Errors i) (Lambda.errorResponse i)
           (new (Lambda.transformListObjectsV2 i) (Lambda.XMLTransformer i))
           (Lambda.clients i) c (userRequest ev) in
       trace (Lambda.handler i ev) = trace run
       /\ outcome (Lambda.handler i ev)
          = bindE (outcome run) (fun r => Ret (Some r)))
    /\ (getObjectContext ev = None -> headObjectContext ev = None ->
       listObjectsContext ev = None -> listObjectsV2Context ev = None ->
       Lambda.handler i ev = ([], Ret None)).
Proof.
  intros i ev. unfold Lambda.handler.
  assert (Hbind : forall m : M IResponse,
             trace (r <- m ;; ret (Some r)) = trace m
             /\ outcome (r <- m ;; ret (Some r))
                = bindE (outcome m) (fun r => Ret (Some r))).
  { intros [t [r|e]]; unfold bind, ret, trace, outcome; cbn [fst snd bindE].
    - rewrite app_nil_r. split; reflexivity.
    - split; reflexivity. }
  split; [|split; [|split; [|split]]].
  - intros c ->. unfold bind, call, ret, trace, outcome. simpl.
    destruct (Lambda.handleGetObjectRequest _ _ _ _); split; reflexivity.
  - intros c -> ->. reflexivity.
  - intros c -> -> ->. cbv zeta. unfold Lambda.listHandler. apply Hbind.
  - intros c -> -> -> ->. cbv zeta. unfold Lambda.listHandler. apply Hbind.
  - intros -> -> -> ->. reflexivity.
Qed.

(** An event with none of the four contexts, and one with each; the
    two list events go through the two transforms. *)
Lemma handler_routes_witness :
  Lambda.handler imports_two_transforms event_none = ([], Ret None)
  /\ trace (Lambda.handler imports_two_transforms event_get)
     = [HandleGetObject context_object request_whole]
  /\ Lambda.handler imports_two_transforms event_head
     = ([HandleHeadObject context_object request_whole],
        Ret (Some (IHeadObjectResponse 200 [])))
  /\ trace (Lambda.handler imports_two_transforms event_list_v1)
     = [Fetch (inputS3Url context_list) GET [];
        Send {| SDK.l_Bucket := Backing.BUCKET; SDK.l_Prefix := "photos/";
                SDK.l_Delimiter := EmptyString |};
        TransformObject listing_filtered;
        SerializeXml (with_Contents listing_filtered (Some []))]
  /\ trace (Lambda.handler imports_two_transforms event_list_v2)
     = [Fetch (inputS3Url context_list) GET [];
        Send {| SDK.l_Bucket := Backing.BUCKET; SDK.l_Prefix := "photos/";
                SDK.l_Delimiter := EmptyString |};
        TransformObject listing_filtered;
        SerializeXml listing_filtered].
Proof.
  pose proof (handler_routes_by_context imports_two_transforms) as H.
  split; [|split; [|split; [|split]]].
  - exact (proj2 (proj2 (proj2 (proj2 (H event_none))))
             eq_refl eq_refl eq_refl eq_refl).
  - exact (proj1 (proj1 (H event_get) context_object eq_refl)).
  - exact (proj1 (proj2 (H event_head)) context_object eq_refl eq_refl).
  - exact (proj1 (proj1 (proj2 (proj2 (H event_list_v1)))
                    context_list eq_refl eq_refl eq_refl)).
  - exact (proj1 (proj1 (proj2 (proj2 (proj2 (H event_list_v2))))
                    context_list eq_refl eq_refl eq_refl eq_refl)).
Defined.

(** ** The list handler *)

Section ListHandlerFacts.
  Variable fetch : string -> Method -> JSObject -> Exc Response.
  Variable responseForS3Errors : Response -> Exc IResponse.
  Variable errorResponse : BaseObjectContext -> ErrorCode -> string -> IResponse.
  Variable this : ListObjectsHandler.t.
  Variable clients : Clients.
  Variable requestContext : BaseObjectContext.
  Variable userRequest : UserRequest.

  Local Abbreviation run :=
    (handleListObjectsRequest fetch responseForS3Errors errorResponse this
       clients requestContext userRequest).
  Local Abbreviation runOriginal :=
    (handleListObjectsRequestOriginal fetch responseForS3Errors errorResponse
       this requestContext userRequest).
  Local Abbreviation fetched :=
    (Fetch (inputS3Url requestContext) GET (original_headers userRequest)).
  Local Abbreviation answer :=
    (fetch (inputS3Url requestContext) GET (original_headers userRequest)).

(** What [writeResponse] makes of what the serializer answers. *)
Lemma writeResponse_run o :
  writeResponse this o =
  ([SerializeXml o],
   match createListObjectsXmlResponse (XMLTransformer this) o with
   | Ret (Some xml) => Ret (IListObjectsResponse 200 xml)
   | Ret None =>
       Ret (IErrorResponse 500
              "The Lambda function failed to transform the result to XML")
   | Throw e => Throw e
   end).
Proof.
  unfold writeResponse, bind, call, ret.
  destruct (createListObjectsXmlResponse _ o) as [[xml|]|e]; reflexivity.
Qed.

(** The sentinel prefix sends the request down the original path. *)
Lemma verify_prefix_original u :
  context_url requestContext = Ret u -> verify_prefix u = true ->
  run = runOriginal.
Proof.
  intros Hu Hv. unfold handleListObjectsRequest.
  fold (context_url requestContext). rewrite Hu. unfold bind, lift.
  rewrite Hv.
  destruct (handleListObjectsRequestOriginal _ _ _ _ _ _) as [t r].
  reflexivity.
Qed.

(** The original path, when the backing store answered and the
    document parsed. *)
Lemma original_path_transforms resp body parsed transformed :
  answer = Ret resp -> arrayBuffer resp = Ret body ->
  (status resp < 400)%Z ->
  createListObjectsJsonResponse (XMLTransformer this) body = Ret (Some parsed) ->
  transformObject this parsed = Ret transformed ->
  runOriginal =
  ([fetched; ParseXml body; TransformObject parsed; SerializeXml transformed],
   match createListObjectsXmlResponse (XMLTransformer this) transformed with
   | Ret (Some xml) => Ret (IListObjectsResponse 200 xml)
   | Ret None =>
       Ret (IErrorResponse 500
              "The Lambda function failed to transform the result to XML")
   | Throw e => Throw e
   end).
Proof.
  intros Hf Hb Hs Hp Ht. unfold handleListObjectsRequestOriginal.
  unfold Backing.makeS3RequestOriginal. fold (original_headers userRequest).
  rewrite Hf. unfold bind at 1. unfold call at 1.
  rewrite Hb. unfold lift. unfold bind at 1.
  assert (Hge : (status resp >=? 400)%Z = false)
    by (rewrite Z.geb_leb; apply Z.leb_gt; lia).
  rewrite Hge. unfold stringFromArrayBuffer. rewrite Hp.
  unfold call at 1. unfold bind at 1. rewrite Ht.
  unfold call at 1. unfold bind at 1. rewrite writeResponse_run. reflexivity.
Qed.

(** The original path, when the backing store answered with an error. *)
Lemma original_path_forwards_error resp body :
  answer = Ret resp -> arrayBuffer resp = Ret body ->
  (status resp >= 400)%Z ->
  runOriginal = ([fetched; ResponseForS3Errors resp], responseForS3Errors resp).
Proof.
  intros Hf Hb Hs. unfold handleListObjectsRequestOriginal.
  unfold Backing.makeS3RequestOriginal. fold (original_headers userRequest).
  rewrite Hf. unfold bind at 1. unfold call at 1.
  rewrite Hb. unfold lift. unfold bind at 1.
  assert (Hge : (status resp >=? 400)%Z = true)
    by (rewrite Z.geb_leb; apply Z.leb_le; lia).
  rewrite Hge. reflexivity.
Qed.

(** The Cloudflare path, step by step. *)
Lemma cloudflare_path u :
  context_url requestContext = Ret u -> verify_prefix u = false ->
  run =
  match answer with
  | Throw e => ([fetched], Throw e)
  | Ret resp =>
      match arrayBuffer resp with
      | Throw e => ([fetched], Throw e)
      | Ret _ =>
          match SDK.send (cloudflare clients) (list_command u) with
          | Throw e =>
              ([fetched; Send (list_command u)],
               Ret (IErrorResponse 500 (message e)))
          | Ret response =>
              match objectResponse_of response with
              | Throw e =>
                  ([fetched; Send (list_command u)],
                   Ret (IErrorResponse 500 (message e)))
              | Ret o =>
                  match transformObject this o with
                  | Throw e =>
                      ([fetched; Send (list_command u); TransformObject o],
                       Ret (IErrorResponse 500 (message e)))
                  | Ret o' =>
                      ([fetched; Send (list_command u); TransformObject o;
                        SerializeXml o'],
                       match createListObjectsXmlResponse (XMLTransformer this) o'
                       with
                       | Ret (Some xml) => Ret (IListObjectsResponse 200 xml)
                       | Ret None =>
                           Ret (IErrorResponse 500
                                  "The Lambda function failed to transform the result to XML")
                       | Throw e => Ret (IErrorResponse 500 (message e))
                       end)
                  end
              end
          end
      end
  end.
Proof.
  intros Hu Hv. unfold handleListObjectsRequest.
  fold (context_url requestContext). rewrite Hu. unfold bind at 1. unfold lift at 1.
  rewrite Hv. unfold Backing.makeS3RequestOriginal.
  fold (original_headers userRequest). fold (list_command u).
  destruct answer as [resp|e]; [|reflexivity].
  unfold bind at 1. unfold call at 1.
  destruct (arrayBuffer resp) as [body|e]; [|reflexivity].
  unfold lift at 1. unfold bind at 1.
  destruct (SDK.send (cloudflare clients) (list_command u)) as [response|e];
    [|reflexivity].
  unfold call at 1. unfold bind at 1.
  destruct (objectResponse_of response) as [o|e]; [|reflexivity].
  unfold lift at 1. unfold bind at 1.
  destruct (transformObject this o) as [o'|e]; [|reflexivity].
  unfold call at 1. unfold bind at 1. rewrite writeResponse_run.
  destruct (createListObjectsXmlResponse _ o') as [[xml|]|e]; reflexivity.
Qed.

(** The object that the handler builds holds no directory marker. *)
Lemma objectResponse_of_no_marker response o :
  objectResponse_of response = Ret o -> holds_marker o = false.
Proof.
  unfold objectResponse_of, holds_marker.
  destruct (SDK.Contents response) as [l|]; simpl.
  - destruct (mapE content_of l) as [l'|e]; simpl; [|discriminate].
    intros [= <-]. simpl.
    induction l' as [|x l' IH]; simpl; [reflexivity|].
    destruct (isDirectoryMarker x) eqn:E; simpl; [exact IH|].
    rewrite E. exact IH.
  - intros [= <-]. reflexivity.
Qed.

End ListHandlerFacts.

(** C2 (as amended). A list request whose [prefix] starts with
    [verify_] is handled by [handleListObjectsRequestOriginal]: the
    document of the backing store is fetched and parsed, the transform
    is applied to the parsed object, and the answer is the
    serialization of the transformed object. *)
Theorem verify_prefix_takes_original_path :
  forall (fetch : string -> Method -> JSObject -> Exc Response)
         (responseForS3Errors : Response -> Exc IResponse)
         (errorResponse : BaseObjectContext -> ErrorCode -> string -> IResponse)
         (this : ListObjectsHandler.t) (clients : Clients)
         (requestContext : BaseObjectContext) (userRequest : UserRequest)
         (u : URL),
    context_url requestContext = Ret u ->
    verify_prefix u = true ->
    handleListObjectsRequest fetch responseForS3Errors errorResponse this
      clients requestContext userRequest
    = handleListObjectsRequestOriginal fetch responseForS3Errors errorResponse
        this requestContext userRequest
    /\ forall resp body parsed transformed,
         fetch (inputS3Url requestContext) GET (original_headers userRequest)
           = Ret resp ->
         arrayBuffer resp = Ret body ->
         (status resp < 400)%Z ->
         createListObjectsJsonResponse (XMLTransformer this) body
           = Ret (Some parsed) ->
         transformObject this parsed = Ret transformed ->
         handleListObjectsRequest fetch responseForS3Errors errorResponse this
           clients requestContext userRequest
         = ([Fetch (inputS3Url requestContext) GET (original_headers userRequest);
             ParseXml body; TransformObject parsed; SerializeXml transformed],
            match createListObjectsXmlResponse (XMLTransformer this) transformed
            with
            | Ret (Some xml) => Ret (IListObjectsResponse 200 xml)
            | Ret None =>
                Ret (IErrorResponse 500
                       "The Lambda function failed to transform the result to XML")
            | Throw e => Throw e
            end).
Proof.
  intros fetch rfe er this clients ctx ur u Hu Hv.
  pose proof (verify_prefix_original fetch rfe er this clients ctx ur u Hu Hv)
    as Hpath.
  split; [exact Hpath|].
  intros resp body parsed transformed Hf Hb Hs Hp Ht. rewrite Hpath.
  exact (original_path_transforms fetch rfe er this ctx ur
           resp body parsed transformed Hf Hb Hs Hp Ht).
Qed.

(** The request of [context_verify], with the identity as transform. *)
Lemma verify_prefix_witness :
  handleListObjectsRequest (fetch_answers response_ok) status_forwarded
    error_404 (ListObjectsHandler.new transform_identity Xml.transformer)
    (clients_answer (Ret listing_output)) context_verify request_list
  = handleListObjectsRequestOriginal (fetch_answers response_ok)
      status_forwarded error_404
      (ListObjectsHandler.new transform_identity Xml.transformer)
      context_verify request_list.
Proof.
  exact (proj1 (verify_prefix_takes_original_path
    (fetch_answers response_ok) status_forwarded error_404
    (ListObjectsHandler.new transform_identity Xml.transformer)
    (clients_answer (Ret listing_output)) context_verify request_list
    {| protocol := "https:"; pathname := "/";
       query := "list-type=2&prefix=verify_health" |}
    eq_refl eq_refl)).
Defined.

(** C2 (as stated) fails: on the request of [context_verify], with a
    transform that hides every entry, the parsed object goes through
    the transform, and the answer is not the document that the parsed
    object serializes to. *)
Lemma verify_prefix_request_is_transformed :
  let m :=
    handleListObjectsRequest (fetch_answers response_ok) status_forwarded
      error_404 (ListObjectsHandler.new transform_hide_all Xml.transformer)
      (clients_answer (Ret listing_output)) context_verify request_list in
  trace m =
    [Fetch (inputS3Url context_verify) GET [];
     ParseXml listing_xml;
     TransformObject listing_parsed;
     SerializeXml (with_Contents listing_parsed (Some []))]
  /\ outcome m =
     Ret (IListObjectsResponse 200
            "<ListBucketResult><IsTruncated>false</IsTruncated><MaxKeys>0</MaxKeys></ListBucketResult>")
  /\ Xml.serialize listing_parsed =
     Some "<ListBucketResult><IsTruncated>false</IsTruncated><MaxKeys>0</MaxKeys><Contents><Key>a/</Key><Size>0</Size></Contents><Contents><Key>b.txt</Key><LastModified>2024-01-01T00:00:00Z</LastModified><Size>10</Size></Contents></ListBucketResult>".
Proof. vm_compute. repeat split. Qed.

(** C4 (as amended). On the Cloudflare path of
    [handleListObjectsRequest] the entries of size zero whose key ends
    in a slash are removed before the transform is applied: no object
    that is handed to the transform holds one; and the object that is
    serialized is the one that the transform returned. *)
Theorem directory_markers_filtered_before_transform :
  forall (fetch : string -> Method -> JSObject -> Exc Response)
         (responseForS3Errors : Response -> Exc IResponse)
         (errorResponse : BaseObjectContext -> ErrorCode -> string -> IResponse)
         (this : ListObjectsHandler.t) (clients : Clients)
         (requestContext : BaseObjectContext) (userRequest : UserRequest)
         (u : URL),
    context_url requestContext = Ret u ->
    verify_prefix u = false ->
    let run :=
      handleListObjectsRequest fetch responseForS3Errors errorResponse this
        clients requestContext userRequest in
    (forall o, In (TransformObject o) (trace run) -> holds_marker o = false)
    /\ (forall o', In (SerializeXml o') (trace run) ->
          exists o, In (TransformObject o) (trace run)
                    /\ transformObject this o = Ret o')
    /\ (forall resp body response o,
          fetch (inputS3Url requestContext) GET (original_headers userRequest)
            = Ret resp ->
          arrayBuffer resp = Ret body ->
          SDK.send (cloudflare clients) (list_command u) = Ret response ->
          objectResponse_of response = Ret o ->
          In (TransformObject o) (trace run)).
Proof.
  intros fetch rfe er this clients ctx ur u Hu Hv run.
  unfold run. rewrite (cloudflare_path fetch rfe er this clients ctx ur u Hu Hv).
  destruct (fetch (inputS3Url ctx) GET (original_headers ur)) as [resp|e].
  2:{ simpl. split; [|split].
      - intros o [H|[]]; discriminate H.
      - intros o [H|[]]; discriminate H.
      - intros ? ? ? ? H; discriminate H. }
  destruct (arrayBuffer resp) as [body|e] eqn:Eb.
  2:{ simpl. split; [|split].
      - intros o [H|[]]; discriminate H.
      - intros o [H|[]]; discriminate H.
      - intros ? ? ? ? [= <-] H. rewrite Eb in H. discriminate H. }
  destruct (SDK.send (cloudflare clients) (list_command u)) as [response|e].
  2:{ simpl. split; [|split].
      - intros o [H|[H|[]]]; discriminate H.
      - intros o [H|[H|[]]]; discriminate H.
      - intros ? ? ? ? _ _ H; discriminate H. }
  destruct (objectResponse_of response) as [o|e] eqn:Eo.
  2:{ simpl. split; [|split].
      - intros o [H|[H|[]]]; discriminate H.
      - intros o [H|[H|[]]]; discriminate H.
      - intros ? ? ? ? _ _ [= <-] H. rewrite Eo in H. discriminate H. }
  pose proof (objectResponse_of_no_marker response o Eo) as Hno.
  destruct (transformObject this o) as [o'|e] eqn:Et; simpl.
  - split; [|split].
    + intros o0 [H|[H|[H|[H|[]]]]]; try discriminate H.
      injection H as <-. exact Hno.
    + intros o0 [H|[H|[H|[H|[]]]]]; try discriminate H.
      injection H as <-. exists o. split; [auto | exact Et].
    + intros resp0 body0 response0 o0 [= <-] _ [= <-] Ho0.
      rewrite Eo in Ho0. injection Ho0 as <-. auto.
  - split; [|split].
    + intros o0 [H|[H|[H|[]]]]; try discriminate H.
      injection H as <-. exact Hno.
    + intros o0 [H|[H|[H|[]]]]; discriminate H.
    + intros resp0 body0 response0 o0 [= <-] _ [= <-] Ho0.
      rewrite Eo in Ho0. injection Ho0 as <-. auto.
Qed.

(** The listing of [listing_output]: the directory marker [a/] is gone
    from the object that the transform receives. *)
Lemma directory_markers_filtered_witness :
  In (TransformObject listing_filtered)
     (trace (handleListObjectsRequest (fetch_answers response_ok)
               status_forwarded error_404
               (ListObjectsHandler.new transform_identity Xml.transformer)
               (clients_answer (Ret listing_output)) context_list request_list))
  /\ holds_marker listing_filtered = false.
Proof.
  pose proof (directory_markers_filtered_before_transform
    (fetch_answers response_ok) status_forwarded error_404
    (ListObjectsHandler.new transform_identity Xml.transformer)
    (clients_answer (Ret listing_output)) context_list request_list
    {| protocol := "https:"; pathname := "/";
       query := "list-type=2&prefix=photos/" |}
    eq_refl eq_refl) as H.
  cbv zeta in H. destruct H as [H1 [_ H3]].
  pose proof (H3 response_ok listing_xml listing_output listing_filtered
                eq_refl eq_refl eq_refl eq_refl) as Hin.
  exact (conj Hin (H1 listing_filtered Hin)).
Defined.

(** C4 (as stated) fails twice.  On the original path (the request of
    [context_verify]) the parsed object goes to the transform with its
    directory marker.  On the Cloudflare path a transform that adds a
    directory marker has it serialized into the answer. *)
Lemma directory_marker_reaches_transform_and_response :
  let original :=
    handleListObjectsRequest (fetch_answers response_ok) status_forwarded
      error_404 (ListObjectsHandler.new transform_identity Xml.transformer)
      (clients_answer (Ret listing_output)) context_verify request_list in
  let cloudflare :=
    handleListObjectsRequest (fetch_answers response_ok) status_forwarded
      error_404 (ListObjectsHandler.new transform_add_marker Xml.transformer)
      (clients_answer (Ret listing_output)) context_list request_list in
  (trace original =
     [Fetch (inputS3Url context_verify) GET [];
      ParseXml listing_xml;
      TransformObject listing_parsed;
      SerializeXml listing_parsed]
   /\ holds_marker listing_parsed = true)
  /\ (trace cloudflare =
        [Fetch (inputS3Url context_list) GET [];
         Send {| SDK.l_Bucket := Backing.BUCKET; SDK.l_Prefix := "photos/";
                 SDK.l_Delimiter := EmptyString |};
         TransformObject listing_filtered;
         SerializeXml
           (with_Contents listing_filtered (Some [marker_entry; file_entry]))]
      /\ holds_marker
           (with_Contents listing_filtered (Some [marker_entry; file_entry]))
         = true
      /\ outcome cloudflare =
         Ret (IListObjectsResponse 200
                "<ListBucketResult><IsTruncated>false</IsTruncated><MaxKeys>1000</MaxKeys><Contents><Key>a/</Key><Size>0</Size></Contents><Contents><Key>b.txt</Key><LastModified>2024-01-01T00:00:00Z</LastModified><Size>10</Size></Contents></ListBucketResult>")).
Proof. vm_compute. repeat split. Qed.

(** C6 (as amended). On the original path, an answer of the backing
    store with a status of 400 or more is handed to
    [responseForS3Errors], whose result is the answer of the handler,
    and neither the parser nor the transform is called.  On the
    Cloudflare path a listing that fails gives a response of status 500
    with the message of the failure, and the transform is not called;
    and the status of the answer of the backing store is not looked at:
    any other answer whose body can be read gives the same run. *)
Theorem upstream_error_forwarded_without_transform :
  forall (fetch : string -> Method -> JSObject -> Exc Response)
         (responseForS3Errors : Response -> Exc IResponse)
         (errorResponse : BaseObjectContext -> ErrorCode -> string -> IResponse)
         (this : ListObjectsHandler.t) (clients : Clients)
         (requestContext : BaseObjectContext) (userRequest : UserRequest)
         (resp : Response) (body : string),
    fetch (inputS3Url requestContext) GET (original_headers userRequest)
      = Ret resp ->
    arrayBuffer resp = Ret body ->
    (status resp >= 400)%Z ->
    handleListObjectsRequestOriginal fetch responseForS3Errors errorResponse
      this requestContext userRequest
    = ([Fetch (inputS3Url requestContext) GET (original_headers userRequest);
        ResponseForS3Errors resp],
       responseForS3Errors resp)
    /\ (forall u, context_url requestContext = Ret u ->
          verify_prefix u = true ->
          handleListObjectsRequest fetch responseForS3Errors errorResponse
            this clients requestContext userRequest
          = ([Fetch (inputS3Url requestContext) GET
                (original_headers userRequest);
              ResponseForS3Errors resp],
             responseForS3Errors resp))
    /\ (forall u e, context_url requestContext = Ret u ->
          verify_prefix u = false ->
          SDK.send (cloudflare clients) (list_command u) = Throw e ->
          handleListObjectsRequest fetch responseForS3Errors errorResponse
            this clients requestContext userRequest
          = ([Fetch (inputS3Url requestContext) GET
                (original_headers userRequest);
              Send (list_command u)],
             Ret (IErrorResponse 500 (message e))))
    /\ (forall fetch' resp' body' u,
          fetch' (inputS3Url requestContext) GET (original_headers userRequest)
            = Ret resp' ->
          arrayBuffer resp' = Ret body' ->
          context_url requestContext = Ret u ->
          verify_prefix u = false ->
          handleListObjectsRequest fetch' responseForS3Errors errorResponse
            this clients requestContext userRequest
          = handleListObjectsRequest fetch responseForS3Errors errorResponse
              this clients requestContext userRequest).
Proof.
  intros fetch rfe er this clients ctx ur resp body Hf Hb Hs.
  pose proof (original_path_forwards_error fetch rfe er this ctx ur resp body
                Hf Hb Hs) as Ho.
  split; [exact Ho | split; [|split]].
  - intros u Hu Hv.
    pose proof (verify_prefix_original fetch rfe er this clients ctx ur u Hu Hv)
      as Hpath.
    rewrite Hpath. exact Ho.
  - intros u e Hu Hv Hsend.
    rewrite (cloudflare_path fetch rfe er this clients ctx ur u Hu Hv).
    rewrite Hf, Hb, Hsend. reflexivity.
  - intros fetch' resp' body' u Hf' Hb' Hu Hv.
    rewrite (cloudflare_path fetch rfe er this clients ctx ur u Hu Hv).
    rewrite (cloudflare_path fetch' rfe er this clients ctx ur u Hu Hv).
    rewrite Hf, Hb, Hf', Hb'. reflexivity.
Qed.

(** The request of [context_verify], answered with status 404. *)
Lemma upstream_error_witness :
  handleListObjectsRequestOriginal (fetch_answers response_404)
    status_forwarded error_404
    (ListObjectsHandler.new transform_identity Xml.transformer)
    context_verify request_list
  = ([Fetch (inputS3Url context_verify) GET (original_headers request_list);
      ResponseForS3Errors response_404],
     status_forwarded response_404).
Proof.
  refine (proj1 (upstream_error_forwarded_without_transform
    (fetch_answers response_404) status_forwarded error_404
    (ListObjectsHandler.new transform_identity Xml.transformer)
    (clients_answer (Ret listing_output)) context_verify request_list
    response_404 "<Error><Code>NoSuchBucket</Code></Error>"
    eq_refl eq_refl _)).
  simpl. lia.
Defined.

(** C6 (as stated) fails on the Cloudflare path: the backing store
    answers the request of [context_list] with status 404, and the
    handler goes on to list through the Cloudflare client, calls the
    transform and answers with status 200. *)
Lemma original_status_ignored_on_cloudflare_path :
  let m :=
    handleListObjectsRequest (fetch_answers response_404) status_forwarded
      error_404 (ListObjectsHandler.new transform_identity Xml.transformer)
      (clients_answer (Ret listing_output)) context_list request_list in
  status response_404 = 404%Z
  /\ trace m =
     [Fetch (inputS3Url context_list) GET [];
      Send {| SDK.l_Bucket := Backing.BUCKET; SDK.l_Prefix := "photos/";
              SDK.l_Delimiter := EmptyString |};
      TransformObject listing_filtered;
      SerializeXml listing_filtered]
  /\ outcome m =
     Ret (IListObjectsResponse 200
            "<ListBucketResult><IsTruncated>false</IsTruncated><MaxKeys>1000</MaxKeys><Contents><Key>b.txt</Key><LastModified>2024-01-01T00:00:00Z</LastModified><Size>10</Size></Contents></ListBucketResult>").
Proof. vm_compute. repeat split. Qed.

(** A failure of the fetch of the original listing leaves the list
    handler as it is: the call is not inside the [try]. *)
Lemma fetch_failure_escapes_list_handler :
  forall (fetch : string -> Method -> JSObject -> Exc Response)
         (responseForS3Errors : Response -> Exc IResponse)
         (errorResponse : BaseObjectContext -> ErrorCode -> string -> IResponse)
         (this : ListObjectsHandler.t) (clients : Clients)
         (requestContext : BaseObjectContext) (userRequest : UserRequest)
         (u : URL) (e : JSError),
    context_url requestContext = Ret u ->
    fetch (inputS3Url requestContext) GET (original_headers userRequest)
      = Throw e ->
    outcome (handleListObjectsRequest fetch responseForS3Errors errorResponse
               this clients requestContext userRequest) = Throw e.
Proof.
  intros fetch rfe er this clients ctx ur u e Hu Hf.
  destruct (verify_prefix u) eqn:Hv.
  - pose proof (verify_prefix_original fetch rfe er this clients ctx ur u Hu Hv)
      as Hpath.
    rewrite Hpath.
    unfold handleListObjectsRequestOriginal, Backing.makeS3RequestOriginal.
    fold (original_headers ur). rewrite Hf. reflexivity.
  - rewrite (cloudflare_path fetch rfe er this clients ctx ur u Hu Hv).
    rewrite Hf. reflexivity.
Qed.

(** C5 (the code at the failing input). The event is a V2 list request
    and the network is down: the fetch of the original listing rejects,
    and the entry point rejects with the same error, with no response.
    The same failure one call later, in the listing through the
    Cloudflare client, is inside the [try] and becomes a response of
    status 500. *)
Theorem handler_lets_fetch_failure_escape :
  Lambda.handler
    (imports_over fetch_down (Ret listing_output) transform_identity)
    event_list_v2
  = ([Fetch (inputS3Url context_list) GET []], Throw network_error)
  /\ Lambda.handler
       (imports_over (fetch_answers response_ok) (Throw network_error)
          transform_identity)
       event_list_v2
     = ([Fetch (inputS3Url context_list) GET [];
         Send {| SDK.l_Bucket := Backing.BUCKET; SDK.l_Prefix := "photos/";
                 SDK.l_Delimiter := EmptyString |}],
        Ret (Some (IErrorResponse 500 (message network_error)))).
Proof. split; reflexivity. Qed.

(** ** Requests to the backing store *)

Lemma In_keys_upsert x k v l :
  In x (map fst (upsert k v l)) <-> x = k \/ In x (map fst l).
Proof.
  induction l as [|[k1 v1] l IH]; simpl.
  - intuition.
  - destruct (k1 =? k) eqn:E; simpl.
    + apply String.eqb_eq in E. subst k1. intuition.
    + rewrite IH. intuition.
Qed.

Lemma NoDup_keys_upsert k v l :
  NoDup (map fst l) -> NoDup (map fst (upsert k v l)).
Proof.
  induction l as [|[k1 v1] l IH]; simpl; intros H.
  - constructor; [intros [] | constructor].
  - inversion H as [|? ? Hnin Hnd]; subst.
    destruct (k1 =? k) eqn:E; simpl.
    + constructor; assumption.
    + constructor; [|auto].
      rewrite In_keys_upsert. intros [->|Hin]; [|exact (Hnin Hin)].
      rewrite String.eqb_refl in E. discriminate.
Qed.

Lemma NoDup_keys_Map_new l : NoDup (map fst (Map_new l)).
Proof.
  unfold Map_new.
  assert (H : forall m, NoDup (map fst m) ->
            NoDup (map fst (fold_left
                     (fun m kv => Map_set m (fst kv) (snd kv)) l m))).
  { induction l as [|[k v] l IH]; simpl; intros m Hm; [exact Hm|].
    apply IH, NoDup_keys_upsert, Hm. }
  apply H. constructor.
Qed.

Lemma assoc_In_NoDup k v l :
  NoDup (map fst l) -> In (k, v) l -> assoc k l = Some v.
Proof.
  induction l as [|[k1 v1] l IH]; simpl; intros Hnd Hin; [contradiction|].
  inversion Hnd as [|? ? Hnin Hnd']; subst.
  destruct Hin as [[= -> ->]|Hin].
  - rewrite String.eqb_refl. reflexivity.
  - destruct (k1 =? k) eqn:E; [|auto].
    apply String.eqb_eq in E. subst k1. exfalso. apply Hnin.
    change k with (fst (k, v)). apply in_map, Hin.
Qed.

Lemma assoc_rev_NoDup k l :
  NoDup (map fst l) -> assoc k (rev l) = assoc k l.
Proof.
  intros Hnd. destruct (assoc k l) as [v|] eqn:E.
  - apply assoc_In_NoDup.
    + rewrite map_rev. apply NoDup_rev, Hnd.
    + apply in_rev. rewrite rev_involutive. apply assoc_In, E.
  - destruct (assoc k (rev l)) as [w|] eqn:E'; [|reflexivity].
    apply assoc_In, in_rev in E'. exfalso.
    exact (assoc_None_In k w l E E').
Qed.

Lemma fold_set_prop_assoc (removed : string -> bool) k m acc :
  assoc k (fold_left
             (fun (o : JSObject) (kv : string * string) =>
                if negb (removed (fst kv))
                then set_prop o (fst kv) (snd kv) else o) m acc) =
  if removed k || (k =? "__proto__") then assoc k acc
  else match assoc k (rev m) with Some v => Some v | None => assoc k acc end.
Proof.
  revert acc. induction m as [|[k1 v1] m IH]; intros acc; cbn [fold_left rev].
  - cbn [assoc]. destruct (_ || _); reflexivity.
  - rewrite IH, assoc_app. cbn [assoc fst snd]. unfold set_prop.
    destruct (k1 =? k) eqn:E.
    + apply String.eqb_eq in E. subst k1.
      destruct (removed k); cbn [negb orb]; [reflexivity|].
      destruct (k =? "__proto__"); [reflexivity|].
      destruct (assoc k (rev m)); [reflexivity|].
      rewrite assoc_upsert, String.eqb_refl. reflexivity.
    + destruct (removed k1); cbn [negb];
        [|destruct (k1 =? "__proto__"); [|rewrite !assoc_upsert, E]];
        destruct (removed k || (k =? "__proto__"));
        destruct (assoc k (rev m)); reflexivity.
Qed.

Lemma removeSignedRequestHeaders_lookup h k :
  prop (removeSignedRequestHeaders h) k =
  if includes REMOVED_NAMES k || (k =? "__proto__") then None
  else assoc k (rev h).
Proof.
  unfold prop, removeSignedRequestHeaders, Object_entries.
  fold REMOVED_NAMES.
  rewrite (fold_set_prop_assoc (includes REMOVED_NAMES)).
  cbn [assoc].
  rewrite (assoc_rev_NoDup k _ (NoDup_keys_Map_new h)).
  change (assoc k (Map_new h)) with (Map_get (Map_new h) k).
  rewrite Map_new_get.
  destruct (_ || _); [reflexivity|]. destruct (assoc k (rev h)); reflexivity.
Qed.

(** What [removeSignedRequestHeaders] leaves of a header: nothing under
    the names that it takes out, and the value of the header under any
    other name. *)
Lemma removeSignedRequestHeaders_prop h k :
  prop (removeSignedRequestHeaders h) k =
  if includes REMOVED_NAMES k || (k =? "__proto__") then None
  else assoc k (rev h).
Proof. exact (removeSignedRequestHeaders_lookup h k). Qed.

(** The part of C1 that holds: no [Host] header is left. *)
Lemma removeSignedRequestHeaders_no_host h :
  prop (removeSignedRequestHeaders h) "Host" = None
  /\ prop (removeSignedRequestHeaders h) "host" = None.
Proof. rewrite !removeSignedRequestHeaders_lookup. split; reflexivity. Qed.

(** A [range] header that is not empty goes into the command that is
    signed and into the request that is fetched. *)
Lemma makeS3Request_forwards_range :
  forall (fetch : string -> Method -> JSObject -> Exc Response)
         (client : SDK.S3Client) (url : string) (ur : UserRequest)
         (key r signed : string),
    object_key url = Ret key ->
    assoc "range" (rev (headers ur)) = Some r ->
    r <> EmptyString ->
    assoc "partnumber" (rev (headers ur)) = None ->
    let command :=
      SDK.GetObjectCommand
        {| SDK.g_Bucket := Backing.BUCKET; SDK.g_Key := key;
           SDK.g_Range := Some r; SDK.g_PartNumber := None |} in
    SDK.presign client command 300 = Ret signed ->
    Backing.makeS3Request fetch client url ur GET
    = ([GetSignedUrl command 300; Fetch signed GET [("range", r)]],
       fetch signed GET [("range", r)]).
Proof.
  intros fetch client url ur key r signed Hkey Hr Hne Hp command Hsign.
  unfold Backing.makeS3Request. fold (object_key url). rewrite Hkey.
  unfold lift at 1. unfold bind at 1.
  rewrite !removeSignedRequestHeaders_lookup. simpl orb. cbv iota.
  rewrite Hr, Hp. simpl nullish_opt.
  assert (Ht : truthy (Some r) = true) by (destruct r; [congruence | reflexivity]).
  rewrite Ht. simpl truthy. cbv iota. simpl app.
  fold command. unfold call at 1. rewrite Hsign. unfold bind at 1.
  unfold call, bind, ret. destruct (fetch signed GET [("range", r)]); reflexivity.
Qed.

(** C1 (the code at the failing input). For [request_ranged]
    [removeSignedRequestHeaders] takes out [Host] and [If-Match] and
    leaves [range], and [makeS3Request] puts the range into the command
    that is signed and sends it as a header of the request. *)
Theorem makeS3Request_sends_range_header :
  removeSignedRequestHeaders (headers request_ranged)
  = [("range", "bytes=0-9")]
  /\ Backing.makeS3Request (fetch_answers response_ok)
       (client_answers (Ret listing_output))
       (inputS3Url context_object) request_ranged GET
     = ([GetSignedUrl
           (SDK.GetObjectCommand
              {| SDK.g_Bucket := Backing.BUCKET; SDK.g_Key := "photo.jpg";
                 SDK.g_Range := Some "bytes=0-9";
                 SDK.g_PartNumber := None |}) 300;
         Fetch "https://r2.example.com/signed" GET [("range", "bytes=0-9")]],
        Ret response_ok).
Proof. split; reflexivity. Qed.

(** ** The XML list transformer: the round trip *)

Module XmlFacts.
Import Xml.

Lemma append_nil_r s : s ++ EmptyString = s.
Proof. induction s as [|c s IH]; simpl; [reflexivity | rewrite IH; reflexivity]. Qed.

Lemma append_assoc s t r : (s ++ t) ++ r = s ++ (t ++ r).
Proof. induction s as [|c s IH]; simpl; [reflexivity | rewrite IH; reflexivity]. Qed.

Lemma unescape_escape s : unescape (escape s) = Some s.
Proof.
  unfold unescape. induction s as [|c s IH]; [reflexivity|].
  cbn [escape]. unfold escape_char.
  destruct (Ascii.eqb c "&") eqn:Ea.
  - apply Ascii.eqb_eq in Ea. subst c. simpl. rewrite IH. reflexivity.
  - destruct (Ascii.eqb c "<") eqn:El.
    + apply Ascii.eqb_eq in El. subst c. simpl. rewrite IH. reflexivity.
    + destruct (Ascii.eqb c ">") eqn:Eg.
      * apply Ascii.eqb_eq in Eg. subst c. simpl. rewrite IH. reflexivity.
      * cbn [append unescape_aux]. rewrite Ea, IH. reflexivity.
Qed.

Lemma Z_of_string_of_Z z : Z_of_string (string_of_Z z) = Some z.
Proof.
  unfold Z_of_string, string_of_Z. rewrite NilZero.isi.
  - simpl. rewrite DecimalZ.of_to. reflexivity.
  - destruct z; simpl; try discriminate.
    intros [= H]. exact (Unsigned.to_uint_nonnil _ H).
  - destruct z; simpl; try discriminate.
    intros [= H]. exact (Unsigned.to_uint_nonnil _ H).
Qed.

Lemma bool_of_string_of_bool b : bool_of_string (string_of_bool b) = Some b.
Proof. destruct b; reflexivity. Qed.

Lemma lex_tag_run n buf rest :
  all not_angle n = true ->
  lex true buf (n ++ String ">" rest) =
  match tag_tokens (buf ++ n), lex false EmptyString rest with
  | Some a, Some b => Some (a ++ b)%list
  | _, _ => None
  end.
Proof.
  revert buf. induction n as [|c n IH]; intros buf H.
  - rewrite append_nil_r. reflexivity.
  - cbn [all] in H. apply andb_prop in H as [Hc Hn].
    unfold not_angle in Hc. apply andb_prop in Hc as [Hl Hg].
    cbn [append lex].
    destruct (Ascii.eqb c ">"); [discriminate|].
    destruct (Ascii.eqb c "<"); [discriminate|].
    rewrite (IH _ Hn). unfold snoc. rewrite append_assoc. reflexivity.
Qed.

Lemma lex_text_run t buf rest :
  all not_lt t = true ->
  lex false buf (t ++ String "<" rest) =
  option_map (app (text_tokens (buf ++ t))) (lex true EmptyString rest).
Proof.
  revert buf. induction t as [|c t IH]; intros buf H.
  - rewrite append_nil_r. reflexivity.
  - cbn [all] in H. apply andb_prop in H as [Hc Ht]. unfold not_lt in Hc.
    cbn [append lex]. destruct (Ascii.eqb c "<"); [discriminate|].
    rewrite (IH _ Ht). unfold snoc. rewrite append_assoc. reflexivity.
Qed.

Lemma name_start_facts c :
  is_name_start c = true ->
  is_name_char c && is_not "/" c && is_not "?" c = true.
Proof. by_cases_on_ascii c. Qed.

Lemma valid_name_chars n : valid_name n = true -> all is_name_char n = true.
Proof.
  destruct n as [|c r]; [discriminate|]. simpl. intros H.
  apply andb_prop in H as [Hc Hr]. rewrite Hr.
  apply name_start_facts in Hc. apply andb_prop in Hc as [Hc _].
  apply andb_prop in Hc as [Hc _]. rewrite Hc. reflexivity.
Qed.

Lemma name_chars_all (q : ascii -> bool) n :
  (forall c, is_name_char c = true -> q c = true) ->
  valid_name n = true -> all q n = true.
Proof.
  intros Hq Hn. apply (all_weaken is_name_char); [exact Hq|].
  apply valid_name_chars, Hn.
Qed.

Lemma name_char_not_slash c : is_name_char c = true -> is_not "/" c = true.
Proof. by_cases_on_ascii c. Qed.
Lemma name_char_not_space c : is_name_char c = true -> is_not " " c = true.
Proof. by_cases_on_ascii c. Qed.
Lemma name_char_not_angle c : is_name_char c = true -> not_angle c = true.
Proof. by_cases_on_ascii c. Qed.
Lemma name_char_plain c : is_name_char c = true -> plain_char c = true.
Proof. by_cases_on_ascii c. Qed.

Lemma cut_absent x s : all (is_not x) s = true -> cut x s = (s, None).
Proof.
  induction s as [|a s IH]; [reflexivity|]. cbn [all cut]. intros H.
  apply andb_prop in H as [Ha Hs]. unfold is_not in Ha.
  destruct (Ascii.eqb a x); [discriminate|]. rewrite (IH Hs). reflexivity.
Qed.

Lemma endsWith_absent s : all (is_not "/") s = true -> endsWith s "/" = false.
Proof.
  induction s as [|a s IH]; [reflexivity|]. cbn [all]. intros H.
  apply andb_prop in H as [Ha Hs]. unfold is_not in Ha.
  cbn [endsWith]. rewrite (IH Hs), orb_false_r.
  cbn [String.eqb]. destruct (Ascii.eqb a "/"); [discriminate | reflexivity].
Qed.

Lemma tag_tokens_open n : valid_name n = true -> tag_tokens n = Some [TOpen n].
Proof.
  intros Hn. pose proof (name_chars_all _ n name_char_not_slash Hn) as Hs.
  pose proof (name_chars_all _ n name_char_not_space Hn) as Hp.
  destruct n as [|c r]; [discriminate|]. unfold tag_tokens.
  pose proof Hn as Hc. cbn [valid_name] in Hc. apply andb_prop in Hc as [Hc _].
  apply name_start_facts in Hc. apply andb_prop in Hc as [Hc Hq].
  apply andb_prop in Hc as [_ Hsl]. unfold is_not in Hsl, Hq.
  destruct (Ascii.eqb c "/"); [discriminate|].
  destruct (Ascii.eqb c "?"); [discriminate|].
  rewrite (cut_absent " " _ Hp). cbn [fst]. rewrite (cut_absent "/" _ Hs).
  cbn [fst]. rewrite Hn, (endsWith_absent _ Hs). reflexivity.
Qed.

Lemma tag_tokens_close n :
  valid_name n = true -> tag_tokens (String "/" n) = Some [TClose n].
Proof. intros Hn. cbn. rewrite Hn. reflexivity. Qed.

Lemma option_map_app_nil {A} (x : option (list A)) : option_map (app []) x = x.
Proof. destruct x; reflexivity. Qed.

Lemma option_map_app_app {A} (a b : list A) (x : option (list A)) :
  option_map (app a) (option_map (app b) x) = option_map (app (a ++ b)) x.
Proof. destruct x; simpl; [rewrite app_assoc|]; reflexivity. Qed.

Lemma chunk_nil : chunk EmptyString [].
Proof. intros rest. rewrite option_map_app_nil. reflexivity. Qed.

Lemma chunk_app s1 t1 s2 t2 :
  chunk s1 t1 -> chunk s2 t2 -> chunk (s1 ++ s2) (t1 ++ t2).
Proof.
  intros H1 H2 rest. rewrite append_assoc, H1, H2, option_map_app_app.
  reflexivity.
Qed.

Lemma chunk_open n : valid_name n = true -> chunk ("<" ++ n ++ ">") [TOpen n].
Proof.
  intros Hn rest. rewrite !append_assoc. cbn [append lex Ascii.eqb Bool.eqb].
  rewrite lex_tag_run by (apply name_chars_all; [exact name_char_not_angle | exact Hn]).
  cbn [append text_tokens]. rewrite (tag_tokens_open n Hn).
  destruct (lex false EmptyString rest); reflexivity.
Qed.

Lemma chunk_text_close t n :
  all not_lt t = true -> valid_name n = true ->
  chunk (t ++ "</" ++ n ++ ">") (text_tokens t ++ [TClose n]).
Proof.
  intros Ht Hn rest. rewrite !append_assoc. cbn [append].
  rewrite (lex_text_run t _ _ Ht). cbn [append].
  cbn [lex Ascii.eqb Bool.eqb].
  change (lex true (snoc EmptyString "/") (n ++ String ">" rest))
    with (lex true "/" (n ++ String ">" rest)).
  rewrite lex_tag_run by (apply name_chars_all; [exact name_char_not_angle | exact Hn]).
  cbn [append]. rewrite (tag_tokens_close n Hn).
  destruct (lex false EmptyString rest); simpl; [|reflexivity].
  rewrite <- app_assoc. reflexivity.
Qed.

Lemma escape_char_not_lt c : all not_lt (escape_char c) = true.
Proof.
  unfold escape_char.
  destruct (Ascii.eqb c "&"); [reflexivity|].
  destruct (Ascii.eqb c "<") eqn:E; [reflexivity|].
  destruct (Ascii.eqb c ">"); [reflexivity|].
  cbn [all]. unfold not_lt. rewrite E. reflexivity.
Qed.

Lemma escape_not_lt v : all not_lt (escape v) = true.
Proof.
  induction v as [|c v IH]; [reflexivity|]. cbn [escape].
  rewrite all_app, escape_char_not_lt, IH. reflexivity.
Qed.

Lemma escape_char_plain c :
  plain_char c = true -> all plain_char (escape_char c) = true.
Proof.
  intros H. unfold escape_char.
  destruct (Ascii.eqb c "&"); [reflexivity|].
  destruct (Ascii.eqb c "<"); [reflexivity|].
  destruct (Ascii.eqb c ">"); [reflexivity|].
  cbn [all]. rewrite H. reflexivity.
Qed.

Lemma escape_plain v : plain v = true -> plain (escape v) = true.
Proof.
  unfold plain. induction v as [|c v IH]; [reflexivity|]. cbn [escape all].
  intros H. apply andb_prop in H as [Hc Hv].
  rewrite all_app, (escape_char_plain c Hc), (IH Hv). reflexivity.
Qed.

Lemma element_split n body :
  element n body = ("<" ++ n ++ ">") ++ (body ++ "</" ++ n ++ ">").
Proof. unfold element. rewrite !append_assoc. reflexivity. Qed.

Lemma chunk_leaf nv :
  valid_name (fst nv) = true -> chunk (render_leaf nv) (leaf_tokens nv).
Proof.
  intros Hn. unfold render_leaf, leaf_tokens. rewrite element_split.
  change (TOpen (fst nv) :: text_tokens (escape (snd nv)) ++ [TClose (fst nv)])
    with ([TOpen (fst nv)] ++ (text_tokens (escape (snd nv)) ++ [TClose (fst nv)]))%list.
  apply chunk_app; [apply chunk_open, Hn|].
  apply chunk_text_close; [apply escape_not_lt | exact Hn].
Qed.

Lemma concat_cons x l :
  String.concat EmptyString (x :: l) = x ++ String.concat EmptyString l.
Proof.
  destruct l; cbn [String.concat]; [rewrite append_nil_r|]; reflexivity.
Qed.

Lemma chunk_concat {A} (f : A -> string) (g : A -> list token) (l : list A) :
  (forall x, In x l -> chunk (f x) (g x)) ->
  chunk (String.concat EmptyString (map f l)) (List.concat (map g l)).
Proof.
  induction l as [|x l IH]; intros H.
  - exact chunk_nil.
  - cbn [map List.concat]. rewrite concat_cons.
    apply chunk_app; [apply H; left; reflexivity|].
    apply IH. intros y Hy. apply H. right. exact Hy.
Qed.

Lemma chunk_leaves ls :
  leaf_names_ok ls = true ->
  chunk (String.concat EmptyString (map render_leaf ls))
        (List.concat (map leaf_tokens ls)).
Proof.
  intros H. apply chunk_concat. intros nv Hin. apply chunk_leaf.
  unfold leaf_names_ok in H. rewrite forallb_forall in H. exact (H nv Hin).
Qed.

Lemma chunk_field f :
  field_names_ok f = true -> chunk (render_field f) (field_tokens f).
Proof.
  destruct f as [n v|g ls]; cbn [field_names_ok render_field field_tokens].
  - intros H. apply (chunk_leaf (n, v)). exact H.
  - intros H. apply andb_prop in H as [Hg Hls]. rewrite element_split.
    change (TOpen g :: List.concat (map leaf_tokens ls) ++ [TClose g])
      with ([TOpen g] ++ (List.concat (map leaf_tokens ls) ++ ([] ++ [TClose g])))%list.
    apply chunk_app; [apply chunk_open, Hg|].
    apply chunk_app; [apply chunk_leaves, Hls|].
    apply (chunk_text_close EmptyString g eq_refl Hg).
Qed.

Lemma lex_render fs :
  forallb field_names_ok fs = true ->
  lex false EmptyString (render fs) =
  Some (TOpen ROOT :: List.concat (map field_tokens fs) ++ [TClose ROOT]).
Proof.
  intros H. unfold render. rewrite element_split.
  assert (Hc : chunk (("<" ++ ROOT ++ ">") ++
                      String.concat EmptyString (map render_field fs) ++
                      "</" ++ ROOT ++ ">")
                 ([TOpen ROOT] ++ (List.concat (map field_tokens fs)
                                   ++ ([] ++ [TClose ROOT])))%list).
  { apply chunk_app; [apply chunk_open; reflexivity|].
    apply chunk_app.
    - apply chunk_concat. intros f Hf. apply chunk_field.
      rewrite forallb_forall in H. exact (H f Hf).
    - apply (chunk_text_close EmptyString ROOT eq_refl eq_refl). }
  specialize (Hc EmptyString). rewrite append_nil_r in Hc. rewrite Hc.
  cbn [lex text_tokens option_map]. rewrite app_nil_r. reflexivity.
Qed.

(** *** The reader of tokens *)

Lemma text_tokens_escape v :
  text_tokens (escape v) =
  match v with EmptyString => [] | _ => [TText (escape v)] end.
Proof.
  destruct v as [|c v]; [reflexivity|]. cbn [escape]. unfold escape_char.
  destruct (Ascii.eqb c "&"); [reflexivity|].
  destruct (Ascii.eqb c "<"); [reflexivity|].
  destruct (Ascii.eqb c ">"); reflexivity.
Qed.

Lemma fold_step_leaf fs n v rest :
  is_group n = false ->
  fold_left step (leaf_tokens (n, v) ++ rest) (PTop fs) =
  fold_left step rest (PTop (fs ++ [FLeaf n v])).
Proof.
  intros Hg. unfold leaf_tokens. cbn [fst snd]. rewrite text_tokens_escape.
  destruct v as [|c v].
  - cbn [app fold_left step]. rewrite Hg. cbn [step].
    rewrite String.eqb_refl. reflexivity.
  - cbn [app fold_left step]. rewrite Hg. cbn [step]. rewrite unescape_escape.
    cbn [step]. rewrite String.eqb_refl. reflexivity.
Qed.

Lemma fold_step_group_leaf fs g ls n v rest :
  fold_left step (leaf_tokens (n, v) ++ rest) (PGroup fs g ls) =
  fold_left step rest (PGroup fs g (ls ++ [(n, v)])).
Proof.
  unfold leaf_tokens. cbn [fst snd]. rewrite text_tokens_escape.
  destruct v as [|c v].
  - cbn [app fold_left step]. rewrite String.eqb_refl. reflexivity.
  - cbn [app fold_left step]. rewrite unescape_escape.
    cbn [step]. rewrite String.eqb_refl. reflexivity.
Qed.

Lemma fold_step_group_leaves fs g ls ls' rest :
  fold_left step (List.concat (map leaf_tokens ls') ++ rest) (PGroup fs g ls) =
  fold_left step rest (PGroup fs g (ls ++ ls')).
Proof.
  revert ls. induction ls' as [|[n v] ls' IH]; intros ls.
  - rewrite app_nil_r. reflexivity.
  - cbn [map List.concat]. rewrite <- app_assoc, fold_step_group_leaf, IH.
    rewrite <- app_assoc. reflexivity.
Qed.

Lemma fold_step_field fs f rest :
  field_placed f = true ->
  fold_left step (field_tokens f ++ rest) (PTop fs) =
  fold_left step rest (PTop (fs ++ [f])).
Proof.
  destruct f as [n v|g ls]; cbn [field_placed field_tokens]; intros H.
  - apply fold_step_leaf. destruct (is_group n); [discriminate | reflexivity].
  - cbn [app fold_left step]. rewrite H.
    rewrite <- app_assoc, fold_step_group_leaves.
    cbn [app fold_left step]. rewrite String.eqb_refl. reflexivity.
Qed.

Lemma fold_step_fields fs fs' rest :
  forallb field_placed fs' = true ->
  fold_left step (List.concat (map field_tokens fs') ++ rest) (PTop fs) =
  fold_left step rest (PTop (fs ++ fs')).
Proof.
  revert fs. induction fs' as [|f fs' IH]; intros fs H.
  - rewrite app_nil_r. reflexivity.
  - cbn [forallb] in H. apply andb_prop in H as [Hf H].
    cbn [map List.concat]. rewrite <- app_assoc, (fold_step_field _ _ _ Hf), (IH _ H).
    rewrite <- app_assoc. reflexivity.
Qed.

Lemma fields_of_tokens_render fs :
  forallb field_placed fs = true ->
  fields_of_tokens
    (TOpen ROOT :: List.concat (map field_tokens fs) ++ [TClose ROOT]) = Some fs.
Proof.
  intros H. unfold fields_of_tokens. cbn [fold_left step].
  rewrite String.eqb_refl, (fold_step_fields [] fs _ H).
  cbn [fold_left step app]. rewrite String.eqb_refl. reflexivity.
Qed.

(** *** From the fields back to the object *)

Lemma includes_cons_false x l k :
  includes (x :: l) k = false -> (k =? x) = false /\ includes l k = false.
Proof.
  unfold includes. cbn [existsb]. intros H. apply orb_false_elim in H as [H1 H2].
  rewrite String.eqb_sym. split; assumption.
Qed.

Lemma content_step_other c n v :
  includes ENTRY_NAMES n = false ->
  content_step (Some c) (n, v) =
  Some {| Key := Key c; LastModified := LastModified c; Size := Size c;
          Other := (Other c ++ [(n, v)])%list |}.
Proof.
  intros H. unfold ENTRY_NAMES in H.
  apply includes_cons_false in H as [H1 H].
  apply includes_cons_false in H as [H2 H].
  apply includes_cons_false in H as [H3 _].
  unfold content_step. rewrite H1, H2, H3. reflexivity.
Qed.

Lemma fold_content_other ls c :
  fresh_names ENTRY_NAMES ls = true ->
  fold_left content_step ls (Some c) =
  Some {| Key := Key c; LastModified := LastModified c; Size := Size c;
          Other := (Other c ++ ls)%list |}.
Proof.
  revert c. induction ls as [|[n v] ls IH]; intros c H.
  - cbn [fold_left]. rewrite app_nil_r. destruct c; reflexivity.
  - cbn [fresh_names forallb fst] in H. apply andb_prop in H as [Hn Hls].
    apply negb_true_iff in Hn.
    cbn [fold_left]. rewrite (content_step_other c n v Hn), (IH _ Hls).
    cbn [Key LastModified Size Other]. rewrite <- app_assoc. reflexivity.
Qed.

Lemma content_step_Size c z :
  content_step (Some c) ("Size", string_of_Z z) =
  Some {| Key := Key c; LastModified := LastModified c; Size := Some z;
          Other := Other c |}.
Proof.
  unfold content_step. rewrite Z_of_string_of_Z. reflexivity.
Qed.

Lemma content_step_Key c v :
  content_step (Some c) ("Key", v) =
  Some {| Key := Some v; LastModified := LastModified c; Size := Size c;
          Other := Other c |}.
Proof. reflexivity. Qed.

Lemma content_step_LastModified c v :
  content_step (Some c) ("LastModified", v) =
  Some {| Key := Key c; LastModified := Some v; Size := Size c;
          Other := Other c |}.
Proof. reflexivity. Qed.

Lemma content_of_leaves_content_leaves c :
  fresh_names ENTRY_NAMES (Other c) = true ->
  content_of_leaves (content_leaves c) = Some c.
Proof.
  intros H. unfold content_of_leaves, content_leaves.
  rewrite !fold_left_app.
  destruct c as [k lm sz other]. cbn [Key LastModified Size Other] in *.
  destruct k as [k|], lm as [lm|], sz as [sz|];
    cbn [opt_leaf option_map fold_left];
    rewrite ?content_step_Key, ?content_step_LastModified, ?content_step_Size;
    rewrite (fold_content_other other _ H); reflexivity.
Qed.

Lemma object_step_extra o n v :
  includes TOP_NAMES n = false ->
  object_step (Some o) (FLeaf n v) =
  Some {| IsTruncated := IsTruncated o; EncodingType := EncodingType o;
          MaxKeys := MaxKeys o; Prefix := Prefix o; Contents := Contents o;
          Delimiter := Delimiter o; CommonPrefixes := CommonPrefixes o;
          Extra := (Extra o ++ [(n, v)])%list |}.
Proof.
  intros H. unfold TOP_NAMES in H.
  apply includes_cons_false in H as [H1 H].
  apply includes_cons_false in H as [H2 H].
  apply includes_cons_false in H as [H3 H].
  apply includes_cons_false in H as [H4 H].
  apply includes_cons_false in H as [H5 _].
  unfold object_step. rewrite H1, H2, H3, H4, H5. reflexivity.
Qed.

Lemma fold_object_extras ls o :
  fresh_names TOP_NAMES ls = true ->
  fold_left object_step (map (fun nv => FLeaf (fst nv) (snd nv)) ls) (Some o) =
  Some {| IsTruncated := IsTruncated o; EncodingType := EncodingType o;
          MaxKeys := MaxKeys o; Prefix := Prefix o; Contents := Contents o;
          Delimiter := Delimiter o; CommonPrefixes := CommonPrefixes o;
          Extra := (Extra o ++ ls)%list |}.
Proof.
  revert o. induction ls as [|[n v] ls IH]; intros o H.
  - cbn [map fold_left]. rewrite app_nil_r. destruct o; reflexivity.
  - cbn [fresh_names forallb fst] in H. apply andb_prop in H as [Hn Hls].
    apply negb_true_iff in Hn. cbn [map fold_left fst snd].
    rewrite (object_step_extra o n v Hn), (IH _ Hls).
    cbn [IsTruncated EncodingType MaxKeys Prefix Contents Delimiter
         CommonPrefixes Extra].
    rewrite <- app_assoc. reflexivity.
Qed.

Lemma object_step_IsTruncated o b :
  object_step (Some o) (FLeaf "IsTruncated" (string_of_bool b)) =
  Some {| IsTruncated := b; EncodingType := EncodingType o;
          MaxKeys := MaxKeys o; Prefix := Prefix o; Contents := Contents o;
          Delimiter := Delimiter o; CommonPrefixes := CommonPrefixes o;
          Extra := Extra o |}.
Proof. unfold object_step. rewrite bool_of_string_of_bool. reflexivity. Qed.

Lemma object_step_MaxKeys o z :
  object_step (Some o) (FLeaf "MaxKeys" (string_of_Z z)) =
  Some {| IsTruncated := IsTruncated o; EncodingType := EncodingType o;
          MaxKeys := z; Prefix := Prefix o; Contents := Contents o;
          Delimiter := Delimiter o; CommonPrefixes := CommonPrefixes o;
          Extra := Extra o |}.
Proof. unfold object_step. rewrite Z_of_string_of_Z. reflexivity. Qed.

Lemma object_step_Prefix o v :
  object_step (Some o) (FLeaf "Prefix" v) =
  Some {| IsTruncated := IsTruncated o; EncodingType := EncodingType o;
          MaxKeys := MaxKeys o; Prefix := Some v; Contents := Contents o;
          Delimiter := Delimiter o; CommonPrefixes := CommonPrefixes o;
          Extra := Extra o |}.
Proof. reflexivity. Qed.

Lemma object_step_Delimiter o v :
  object_step (Some o) (FLeaf "Delimiter" v) =
  Some {| IsTruncated := IsTruncated o; EncodingType := EncodingType o;
          MaxKeys := MaxKeys o; Prefix := Prefix o; Contents := Contents o;
          Delimiter := Some v; CommonPrefixes := CommonPrefixes o;
          Extra := Extra o |}.
Proof. reflexivity. Qed.

Lemma object_step_EncodingType o v :
  object_step (Some o) (FLeaf "EncodingType" v) =
  Some {| IsTruncated := IsTruncated o; EncodingType := Some v;
          MaxKeys := MaxKeys o; Prefix := Prefix o; Contents := Contents o;
          Delimiter := Delimiter o; CommonPrefixes := CommonPrefixes o;
          Extra := Extra o |}.
Proof. reflexivity. Qed.

Lemma fold_object_contents cs o :
  forallb (fun c => fresh_names ENTRY_NAMES (Other c)) cs = true ->
  fold_left object_step
    (map (fun c => FGroup "Contents" (content_leaves c)) cs) (Some o) =
  Some {| IsTruncated := IsTruncated o; EncodingType := EncodingType o;
          MaxKeys := MaxKeys o; Prefix := Prefix o;
          Contents :=
            match cs with
            | [] => Contents o
            | _ => Some (nullish (Contents o) [] ++ cs)%list
            end;
          Delimiter := Delimiter o; CommonPrefixes := CommonPrefixes o;
          Extra := Extra o |}.
Proof.
  revert o. induction cs as [|c cs IH]; intros o H.
  - destruct o; reflexivity.
  - cbn [forallb] in H. apply andb_prop in H as [Hc Hcs].
    cbn [map fold_left]. unfold object_step at 2. cbn [String.eqb Ascii.eqb Bool.eqb].
    rewrite (content_of_leaves_content_leaves c Hc). cbn [option_map].
    rewrite (IH _ Hcs). unfold set_Contents.
    cbn [IsTruncated EncodingType MaxKeys Prefix Contents Delimiter
         CommonPrefixes Extra nullish].
    destruct cs; [reflexivity|]. rewrite <- app_assoc. reflexivity.
Qed.

Lemma prefix_of_leaves_prefix_leaves p : prefix_of_leaves (prefix_leaves p) = p.
Proof. destruct p as [[s|]]; reflexivity. Qed.

Lemma fold_object_prefixes ps o :
  fold_left object_step
    (map (fun p => FGroup "CommonPrefixes" (prefix_leaves p)) ps) (Some o) =
  Some {| IsTruncated := IsTruncated o; EncodingType := EncodingType o;
          MaxKeys := MaxKeys o; Prefix := Prefix o; Contents := Contents o;
          Delimiter := Delimiter o;
          CommonPrefixes := (CommonPrefixes o ++ ps)%list;
          Extra := Extra o |}.
Proof.
  revert o. induction ps as [|p ps IH]; intros o.
  - cbn [map fold_left]. rewrite app_nil_r. destruct o; reflexivity.
  - cbn [map fold_left]. unfold object_step at 2.
    cbn [String.eqb Ascii.eqb Bool.eqb].
    rewrite prefix_of_leaves_prefix_leaves, IH.
    cbn [IsTruncated EncodingType MaxKeys Prefix Contents Delimiter
         CommonPrefixes Extra].
    rewrite <- app_assoc. reflexivity.
Qed.

Lemma object_of_fields_fields_of x :
  well_formed x = true -> object_of_fields (fields_of x) = Some x.
Proof.
  unfold well_formed. intros H.
  apply andb_prop in H as [H Hother]. apply andb_prop in H as [H Hextra].
  apply andb_prop in H as [_ Hcs].
  destruct x as [tr enc mk pre cs del cps extra].
  cbn [Contents Extra nullish] in *.
  destruct cs as [cs|]; [clear Hcs | discriminate]. cbn [nullish] in Hother.
  unfold object_of_fields, fields_of.
  cbn [IsTruncated EncodingType MaxKeys Prefix Contents Delimiter
       CommonPrefixes Extra].
  rewrite !map_app, !fold_left_app.
  cbn [map fold_left fst snd].
  rewrite object_step_IsTruncated, object_step_MaxKeys.
  destruct pre as [pre|], del as [del|], enc as [enc|];
    cbn [opt_leaf map fold_left fst snd];
    rewrite ?object_step_Prefix, ?object_step_Delimiter,
            ?object_step_EncodingType;
    rewrite (fold_object_extras extra _ Hextra);
    rewrite (fold_object_contents cs _ Hother);
    rewrite fold_object_prefixes;
    cbn [IsTruncated EncodingType MaxKeys Prefix Contents Delimiter
         CommonPrefixes Extra empty_object nullish app];
    destruct cs; reflexivity.
Qed.

(** *** The characters of a document *)

Lemma normalize_eol_plain s : plain s = true -> normalize_eol s = s.
Proof.
  unfold plain. induction s as [|c s IH]; [reflexivity|]. cbn [all normalize_eol].
  intros H. apply andb_prop in H as [Hc Hs]. unfold plain_char in Hc.
  apply andb_prop in Hc as [_ Hc].
  destruct (Ascii.eqb c CR); [discriminate|]. rewrite (IH Hs). reflexivity.
Qed.

Lemma plain_legal s : plain s = true -> all legal_char s = true.
Proof.
  apply all_weaken. intros c H. unfold plain_char in H.
  apply andb_prop in H as [H _]. exact H.
Qed.

Lemma plain_app s t : plain (s ++ t) = plain s && plain t.
Proof. apply all_app. Qed.

Lemma plain_name n : valid_name n = true -> plain n = true.
Proof. apply name_chars_all, name_char_plain. Qed.

Lemma plain_element n body :
  valid_name n = true -> plain body = true -> plain (element n body) = true.
Proof.
  intros Hn Hb. unfold element.
  rewrite !plain_app, (plain_name n Hn), Hb. reflexivity.
Qed.

Lemma plain_concat {A} (f : A -> string) (l : list A) :
  (forall x, In x l -> plain (f x) = true) ->
  plain (String.concat EmptyString (map f l)) = true.
Proof.
  induction l as [|x l IH]; intros H; [reflexivity|].
  cbn [map]. rewrite concat_cons, plain_app, (H x (or_introl eq_refl)).
  apply IH. intros y Hy. apply H. right. exact Hy.
Qed.

Lemma plain_render_leaf nv :
  valid_name (fst nv) = true -> plain (snd nv) = true ->
  plain (render_leaf nv) = true.
Proof.
  intros Hn Hv. apply plain_element; [exact Hn | apply escape_plain, Hv].
Qed.

Lemma plain_render_field f :
  field_names_ok f = true -> field_plain f = true ->
  plain (render_field f) = true.
Proof.
  destruct f as [n v|g ls]; cbn [field_names_ok field_plain render_field].
  - intros Hn Hv. apply (plain_render_leaf (n, v)); assumption.
  - intros Hn Hv. apply andb_prop in Hn as [Hg Hls]. apply plain_element; [exact Hg|].
    apply plain_concat. intros nv Hin. unfold leaf_names_ok in Hls.
    unfold plain_leaves in Hv. rewrite forallb_forall in Hls, Hv.
    apply plain_render_leaf; auto.
Qed.

Lemma plain_render fs :
  forallb field_names_ok fs = true -> forallb field_plain fs = true ->
  plain (render fs) = true.
Proof.
  intros Hn Hp. unfold render. apply plain_element; [reflexivity|].
  apply plain_concat. intros f Hf. rewrite forallb_forall in Hn, Hp.
  apply plain_render_field; auto.
Qed.

Lemma plain_string_of_uint d : plain (NilEmpty.string_of_uint d) = true.
Proof.
  unfold plain. induction d; cbn [NilEmpty.string_of_uint all]; try reflexivity;
    rewrite IHd; reflexivity.
Qed.

Lemma plain_string_of_Z z : plain (string_of_Z z) = true.
Proof.
  unfold string_of_Z, NilZero.string_of_int, NilZero.string_of_uint.
  destruct (Z.to_int z) as [d|d].
  - destruct d; try reflexivity; apply plain_string_of_uint.
  - change (plain (String "-" (match d with
                               | Decimal.Nil => "0"
                               | _ => NilEmpty.string_of_uint d
                               end)) = true).
    unfold plain. cbn [all]. change (all plain_char ?s) with (plain s).
    destruct d; try reflexivity; apply plain_string_of_uint.
Qed.

Lemma plain_string_of_bool b : plain (string_of_bool b) = true.
Proof. destruct b; reflexivity. Qed.

(** *** The fields of a well-formed object *)

Lemma forallb_map_compose {A B} (p : B -> bool) (f : A -> B) l :
  forallb p (map f l) = forallb (fun x => p (f x)) l.
Proof.
  induction l as [|x l IH]; [reflexivity|]. cbn [map forallb]. rewrite IH.
  reflexivity.
Qed.

Lemma forallb_opt_leaf (p : string * string -> bool) n v :
  (forall s, v = Some s -> p (n, s) = true) -> forallb p (opt_leaf n v) = true.
Proof.
  destruct v as [s|]; intros H; [|reflexivity]. cbn [opt_leaf forallb].
  rewrite (H s eq_refl). reflexivity.
Qed.

Lemma forallb_impl {A} (p q : A -> bool) l :
  (forall x, In x l -> p x = true -> q x = true) ->
  forallb p l = true -> forallb q l = true.
Proof.
  intros H Hp. rewrite forallb_forall in *. intros x Hx. auto.
Qed.

Lemma structurally_valid_names x :
  structurally_valid x = true -> forallb field_names_ok (fields_of x) = true.
Proof.
  unfold structurally_valid. intros H. apply andb_prop in H as [Hcs Hextra].
  unfold fields_of. rewrite !forallb_app, !forallb_map_compose.
  cbn [field_names_ok fst snd forallb app].
  apply andb_true_intro; split; [|apply andb_true_intro; split].
  - change (leaf_names_ok
              (("IsTruncated", string_of_bool (IsTruncated x))
               :: ("MaxKeys", string_of_Z (MaxKeys x))
               :: opt_leaf "Prefix" (Prefix x) ++ opt_leaf "Delimiter" (Delimiter x)
                  ++ opt_leaf "EncodingType" (EncodingType x) ++ Extra x) = true).
    unfold leaf_names_ok. cbn [forallb fst]. rewrite !forallb_app.
    rewrite !forallb_opt_leaf by reflexivity.
    exact Hextra.
  - eapply forallb_impl; [|exact Hcs]. intros c _ Hc. cbv beta in *.
    apply andb_prop in Hc as [_ Hc]. unfold content_leaves, leaf_names_ok.
    rewrite !forallb_app, !forallb_opt_leaf by reflexivity. exact Hc.
  - apply forallb_forall. intros p _. unfold prefix_leaves, leaf_names_ok.
    rewrite forallb_opt_leaf by reflexivity. reflexivity.
Qed.

Lemma fresh_not_group n : includes TOP_NAMES n = false -> is_group n = false.
Proof.
  intros H. unfold TOP_NAMES in H.
  do 5 (apply includes_cons_false in H as [_ H]).
  apply includes_cons_false in H as [H1 H].
  apply includes_cons_false in H as [H2 _].
  unfold is_group. rewrite H1, H2. reflexivity.
Qed.

Lemma fresh_names_placed x :
  fresh_names TOP_NAMES (Extra x) = true ->
  forallb field_placed (fields_of x) = true.
Proof.
  intros Hextra. unfold fields_of. rewrite !forallb_app, !forallb_map_compose.
  cbn [field_placed fst snd forallb app].
  apply andb_true_intro; split; [|apply andb_true_intro; split].
  - change (forallb (fun nv : string * string => negb (is_group (fst nv)))
              (("IsTruncated", string_of_bool (IsTruncated x))
               :: ("MaxKeys", string_of_Z (MaxKeys x))
               :: opt_leaf "Prefix" (Prefix x) ++ opt_leaf "Delimiter" (Delimiter x)
                  ++ opt_leaf "EncodingType" (EncodingType x) ++ Extra x) = true).
    cbn [forallb fst]. rewrite !forallb_app.
    rewrite !forallb_opt_leaf by reflexivity.
    eapply forallb_impl; [|exact Hextra]. intros nv _ Hnv. cbv beta in *.
    apply negb_true_iff in Hnv. rewrite (fresh_not_group _ Hnv). reflexivity.
  - apply forallb_forall. reflexivity.
  - apply forallb_forall. reflexivity.
Qed.

Lemma unambiguous_plain x :
  unambiguous x = true -> forallb field_plain (fields_of x) = true.
Proof.
  unfold unambiguous. intros H.
  apply andb_prop in H as [H Hps]. apply andb_prop in H as [H Hcs].
  apply andb_prop in H as [H Hextra]. apply andb_prop in H as [H Henc].
  apply andb_prop in H as [Hpre Hdel].
  unfold fields_of. rewrite !forallb_app, !forallb_map_compose.
  cbn [field_plain fst snd forallb app].
  apply andb_true_intro; split; [|apply andb_true_intro; split].
  - change (plain_leaves
              (("IsTruncated", string_of_bool (IsTruncated x))
               :: ("MaxKeys", string_of_Z (MaxKeys x))
               :: opt_leaf "Prefix" (Prefix x) ++ opt_leaf "Delimiter" (Delimiter x)
                  ++ opt_leaf "EncodingType" (EncodingType x) ++ Extra x) = true).
    unfold plain_leaves. cbn [forallb snd]. rewrite !forallb_app.
    rewrite plain_string_of_bool, plain_string_of_Z.
    rewrite !forallb_opt_leaf; [exact Hextra| | |].
    + intros s Hs. rewrite Hs in Henc. exact Henc.
    + intros s Hs. rewrite Hs in Hdel. exact Hdel.
    + intros s Hs. rewrite Hs in Hpre. exact Hpre.
  - destruct (Contents x) as [cs|]; [|reflexivity]. cbn [nullish] in Hcs.
    eapply forallb_impl; [|exact Hcs]. intros c _ Hc. cbv beta in *.
    apply andb_prop in Hc as [Hc Hother]. apply andb_prop in Hc as [Hkey Hlm].
    unfold content_leaves, plain_leaves. rewrite !forallb_app.
    rewrite !forallb_opt_leaf; [exact Hother| | |].
    + intros s Hs. cbn [snd]. destruct (Size c); [|discriminate].
      injection Hs as <-. apply plain_string_of_Z.
    + intros s Hs. rewrite Hs in Hlm. exact Hlm.
    + intros s Hs. rewrite Hs in Hkey. exact Hkey.
  - eapply forallb_impl; [|exact Hps]. intros p _ Hp. cbv beta in *.
    unfold prefix_leaves, plain_leaves. apply forallb_opt_leaf.
    intros s Hs. rewrite Hs in Hp. exact Hp.
Qed.

(** C9. For every well-formed list object whose strings hold only
    characters that a document hands over as they stand, [serialize]
    gives a document and [parse] of that document gives the object
    again. *)
Theorem parse_serialize_round_trip :
  forall x : IBaseListObject,
    well_formed x = true ->
    unambiguous x = true ->
    exists xml, serialize x = Some xml /\ parse xml = Some x.
Proof.
  intros x Hwf Hun. exists (render (fields_of x)).
  pose proof Hwf as H. unfold well_formed in H.
  apply andb_prop in H as [H _]. apply andb_prop in H as [H Hextra].
  apply andb_prop in H as [Hsv _].
  pose proof (structurally_valid_names x Hsv) as Hnames.
  pose proof (fresh_names_placed x Hextra) as Hplaced.
  pose proof (plain_render _ Hnames (unambiguous_plain x Hun)) as Hplain.
  split.
  - unfold serialize. rewrite Hsv. reflexivity.
  - unfold parse. rewrite (plain_legal _ Hplain), (normalize_eol_plain _ Hplain).
    rewrite (lex_render _ Hnames). cbn [bindO].
    rewrite (fields_of_tokens_render _ Hplaced). cbn [bindO].
    apply object_of_fields_fields_of, Hwf.
Qed.

(** The round trip of [listing_rich]. *)
Lemma parse_serialize_round_trip_witness :
  exists xml,
    serialize listing_rich = Some xml /\ parse xml = Some listing_rich.
Proof. exact (parse_serialize_round_trip listing_rich eq_refl eq_refl). Defined.

(** The document of the backing store reads as [listing_parsed]. *)
Example parse_listing_xml : parse listing_xml = Some listing_parsed.
Proof. reflexivity. Qed.

(** A carriage return is an ambiguity: it comes back as a line feed. *)
Example carriage_return_comes_back_as_line_feed :
  unambiguous (listing_with_prefix prefix_cr) = false
  /\ bindO (serialize (listing_with_prefix prefix_cr)) parse
     = Some (listing_with_prefix prefix_lf).
Proof. split; reflexivity. Qed.

(** An entry without a key is structurally invalid. *)
Example serialize_without_key :
  serialize (with_Contents listing_parsed
               (Some [ {| Key := None; LastModified := None;
                          Size := Some 3%Z; Other := [] |} ])) = None.
Proof. reflexivity. Qed.

End XmlFacts.

(* ================================================================== *)
(** * Further properties of the request utilities *)
(* ================================================================== *)

(** ** The two filters of headers *)

Lemma upsert_fresh k v l :
  ~ In k (map fst l) -> upsert k v l = (l ++ [(k, v)])%list.
Proof.
  induction l as [|[k1 v1] l IH]; simpl; intros H; [reflexivity|].
  destruct (k1 =? k) eqn:E.
  - apply String.eqb_eq in E. exfalso. apply H. left. exact E.
  - rewrite IH; [reflexivity|]. intros Hin. apply H. right. exact Hin.
Qed.

Lemma fold_keep_fresh (f : JSObject -> string * string -> JSObject)
    (keep : string * string -> bool) m :
  (forall acc kv,
      f acc kv = if keep kv then upsert (fst kv) (snd kv) acc else acc) ->
  NoDup (map fst m) ->
  forall acc,
    (forall k, In k (map fst m) -> ~ In k (map fst acc)) ->
    fold_left f m acc = (acc ++ filter keep m)%list.
Proof.
  intros Hf. induction m as [|[k v] m IH]; intros Hnd acc Hacc.
  - simpl. rewrite app_nil_r. reflexivity.
  - simpl in Hnd. inversion Hnd as [|? ? Hk Hm]; subst.
    cbn [fold_left filter]. rewrite Hf. cbn [fst snd].
    destruct (keep (k, v)).
    + rewrite (upsert_fresh k v acc) by (apply Hacc; left; reflexivity).
      rewrite (IH Hm).
      * rewrite <- app_assoc. reflexivity.
      * intros k' Hk' Hin. rewrite map_app, in_app_iff in Hin.
        destruct Hin as [Hin|[<-|[]]].
        -- exact (Hacc k' (or_intror Hk') Hin).
        -- exact (Hk Hk').
    + apply (IH Hm). intros k' Hk'. apply Hacc. right. exact Hk'.
Qed.

Lemma filter_all {A} (l : list A) : filter (fun _ => true) l = l.
Proof. induction l as [|x l IH]; simpl; [|rewrite IH]; reflexivity. Qed.

Lemma Map_new_unique l : unique_keys l -> Map_new l = l.
Proof.
  intros H. unfold Map_new.
  rewrite (fold_keep_fresh _ (fun _ => true) l); auto.
  apply filter_all.
Qed.

Lemma Object_fromEntries_unique l : unique_keys l -> Object_fromEntries l = l.
Proof.
  intros H. unfold Object_fromEntries.
  rewrite (fold_keep_fresh _ (fun _ => true) l); auto.
  apply filter_all.
Qed.

Lemma unique_keys_filter (p : string * string -> bool) l :
  unique_keys l -> unique_keys (filter p l).
Proof.
  unfold unique_keys. induction l as [|[k v] l IH]; simpl; intros H; [exact H|].
  inversion H as [|? ? Hk Hl]; subst. destruct (p (k, v)); [|auto].
  simpl. constructor; [|auto]. intros Hin. apply Hk.
  apply in_map_iff in Hin as [[k' v'] [Hfst Hin]]. simpl in Hfst. subst k'.
  apply filter_In in Hin as [Hin _].
  change k with (fst (k, v')). apply in_map, Hin.
Qed.

Lemma removeSignedRequestHeaders_as_filter h :
  removeSignedRequestHeaders h = filter kept_by_remove (Map_new h).
Proof.
  unfold removeSignedRequestHeaders, Object_entries. fold REMOVED_NAMES.
  rewrite (fold_keep_fresh _ kept_by_remove (Map_new h)).
  - reflexivity.
  - intros acc [k v]. unfold kept_by_remove, set_prop. cbn [fst snd].
    destruct (includes REMOVED_NAMES k); cbn [negb andb]; [reflexivity|].
    destruct (k =? "__proto__"); reflexivity.
  - apply NoDup_keys_Map_new.
  - intros k _ [].
Qed.

Lemma getRequestHeaders_as_filter h :
  getRequestHeaders h = filter kept_by_get (Map_new h).
Proof.
  unfold getRequestHeaders, Object_entries. fold ALLOWED_NAMES.
  rewrite (fold_keep_fresh _ kept_by_get (Map_new h)).
  - reflexivity.
  - intros acc [k v]. reflexivity.
  - apply NoDup_keys_Map_new.
  - intros k _ [].
Qed.

Lemma assoc_filter_key (q : string -> bool) k l :
  assoc k (filter (fun kv => q (fst kv)) l) =
  if q k then assoc k l else None.
Proof.
  induction l as [|[k1 v1] l IH]; cbn [filter assoc fst].
  - destruct (q k); reflexivity.
  - destruct (k1 =? k) eqn:E.
    + apply String.eqb_eq in E. subst k1. destruct (q k) eqn:Eq; simpl.
      * rewrite String.eqb_refl. reflexivity.
      * rewrite IH. reflexivity.
    + destruct (q k1); simpl; [rewrite E|]; exact IH.
Qed.

Lemma getRequestHeaders_lookup h k :
  Map_get (getRequestHeaders h) k =
  if includes ALLOWED_NAMES k then assoc k (rev h) else None.
Proof.
  rewrite getRequestHeaders_as_filter. unfold Map_get, kept_by_get.
  rewrite (assoc_filter_key (includes ALLOWED_NAMES)).
  change (assoc k (Map_new h)) with (Map_get (Map_new h) k).
  rewrite Map_new_get. reflexivity.
Qed.

(** What [getRequestHeaders] keeps of a header: the value of the header
    under a name of its list, and nothing under any other name. *)
Theorem getRequestHeaders_get h k :
  Map_get (getRequestHeaders h) k =
  if includes ALLOWED_NAMES k then assoc k (rev h) else None.
Proof. exact (getRequestHeaders_lookup h k). Qed.

(** A header with a name other than [Host], [host] and [__proto__] is
    kept by one of [getRequestHeaders] and [removeSignedRequestHeaders]
    and dropped by the other: the two split the headers between them. *)
Theorem header_goes_one_way :
  forall (h : JSObject) (k v : string),
    assoc k (rev h) = Some v ->
    k <> "Host" -> k <> "host" -> k <> "__proto__" ->
    (Map_get (getRequestHeaders h) k = Some v
     /\ prop (removeSignedRequestHeaders h) k = None)
    \/ (Map_get (getRequestHeaders h) k = None
        /\ prop (removeSignedRequestHeaders h) k = Some v).
Proof.
  intros h k v Hv H1 H2 H3.
  rewrite getRequestHeaders_lookup, removeSignedRequestHeaders_lookup, Hv.
  apply String.eqb_neq in H1, H2, H3.
  assert (Hr : includes REMOVED_NAMES k = includes ALLOWED_NAMES k).
  { unfold REMOVED_NAMES, ALLOWED_NAMES, includes. cbn [existsb].
    rewrite (String.eqb_sym "Host"), (String.eqb_sym "host"), H1, H2.
    reflexivity. }
  rewrite Hr, H3, orb_false_r.
  destruct (includes ALLOWED_NAMES k); [left | right]; split; reflexivity.
Qed.

Lemma header_goes_one_way_witness :
  (Map_get (getRequestHeaders (headers request_capital_range)) "If-Match"
     = Some "abc"
   /\ prop (removeSignedRequestHeaders (headers request_capital_range))
        "If-Match" = None)
  \/ (Map_get (getRequestHeaders (headers request_capital_range)) "If-Match"
        = None
      /\ prop (removeSignedRequestHeaders (headers request_capital_range))
           "If-Match" = Some "abc").
Proof.
  refine (header_goes_one_way (headers request_capital_range) "If-Match" "abc"
            eq_refl _ _ _); discriminate.
Defined.

(** On headers whose names are distinct,
    [removeSignedRequestHeaders] is a filter: the headers that it keeps
    come in the order of the object. *)
Theorem removeSignedRequestHeaders_keeps_order :
  forall h : JSObject,
    unique_keys h ->
    removeSignedRequestHeaders h = filter kept_by_remove h.
Proof.
  intros h H. rewrite removeSignedRequestHeaders_as_filter, (Map_new_unique h H).
  reflexivity.
Qed.

Lemma unique_keys_capital_range : unique_keys (headers request_capital_range).
Proof.
  unfold unique_keys. simpl.
  repeat (constructor; [simpl; intuition discriminate|]). constructor.
Defined.

Lemma removeSignedRequestHeaders_keeps_order_witness :
  removeSignedRequestHeaders (headers request_capital_range)
  = [("Range", "bytes=0-9"); ("X-Trace", "t1")].
Proof.
  exact (removeSignedRequestHeaders_keeps_order (headers request_capital_range)
           unique_keys_capital_range).
Defined.

(** [makeS3RequestOriginal] makes one call, the fetch of the URL with
    the method, and sends the headers of the user that are in the list
    of [getRequestHeaders], in their order; how that fetch settles is
    how [makeS3RequestOriginal] settles. *)
Theorem makeS3RequestOriginal_sends_allowed_headers :
  forall (fetch : string -> Method -> JSObject -> Exc Response)
         (url : string) (ur : UserRequest) (method : Method),
    unique_keys (headers ur) ->
    Backing.makeS3RequestOriginal fetch url ur method
    = ([Fetch url method (filter kept_by_get (headers ur))],
       fetch url method (filter kept_by_get (headers ur))).
Proof.
  intros fetch url ur method H. unfold Backing.makeS3RequestOriginal.
  rewrite Object_fromEntries_unique.
  - rewrite getRequestHeaders_as_filter, (Map_new_unique _ H). reflexivity.
  - rewrite getRequestHeaders_as_filter. apply unique_keys_filter.
    apply NoDup_keys_Map_new.
Qed.

Lemma makeS3RequestOriginal_witness :
  Backing.makeS3RequestOriginal (fetch_answers response_ok)
    (inputS3Url context_object) request_capital_range HEAD
  = ([Fetch (inputS3Url context_object) HEAD [("If-Match", "abc")]],
     Ret response_ok).
Proof.
  exact (makeS3RequestOriginal_sends_allowed_headers (fetch_answers response_ok)
           (inputS3Url context_object) request_capital_range HEAD
           unique_keys_capital_range).
Defined.

Lemma filter_idem {A} (p : A -> bool) l : filter p (filter p l) = filter p l.
Proof.
  induction l as [|x l IH]; simpl; [reflexivity|].
  destruct (p x) eqn:E; simpl; [rewrite E, IH|]; auto.
Qed.

(** [removeSignedRequestHeaders] is idempotent. *)
Theorem removeSignedRequestHeaders_idempotent h :
  removeSignedRequestHeaders (removeSignedRequestHeaders h)
  = removeSignedRequestHeaders h.
Proof.
  rewrite (removeSignedRequestHeaders_as_filter (removeSignedRequestHeaders h)).
  rewrite Map_new_unique.
  - rewrite removeSignedRequestHeaders_as_filter. apply filter_idem.
  - rewrite removeSignedRequestHeaders_as_filter. apply unique_keys_filter.
    apply NoDup_keys_Map_new.
Qed.

(** ** The request that [makeS3Request] signs and sends *)

Lemma truthy_Some v : truthy v = true -> exists s, v = Some s /\ s <> EmptyString.
Proof.
  destruct v as [[|a s]|]; simpl; intros H; try discriminate.
  exists (String a s). split; [reflexivity | discriminate].
Qed.

Lemma makeS3Request_run :
  forall (fetch : string -> Method -> JSObject -> Exc Response)
         (client : SDK.S3Client) (url : string) (ur : UserRequest)
         (method : Method),
    Backing.makeS3Request fetch client url ur method
    = match object_key url with
      | Throw e => ([], Throw e)
      | Ret key =>
          let command := signed_command key (headers ur) method in
          match SDK.presign client command 300 with
          | Throw e => ([GetSignedUrl command 300], Throw e)
          | Ret signed =>
              ([GetSignedUrl command 300;
                Fetch signed method (sent_headers (headers ur))],
               fetch signed method (sent_headers (headers ur)))
          end
      end.
Proof.
  intros fetch client url ur method.
  unfold Backing.makeS3Request. fold (object_key url).
  destruct (object_key url) as [key|e]; [|reflexivity].
  unfold lift at 1. unfold bind at 1.
  rewrite !removeSignedRequestHeaders_lookup. simpl orb. cbv iota.
  assert (Hc : match method with
     | GET =>
         SDK.GetObjectCommand
           {| SDK.g_Bucket := Backing.BUCKET; SDK.g_Key := key;
              SDK.g_Range :=
                if truthy (assoc "range" (rev (headers ur)))
                then nullish_opt (assoc "range" (rev (headers ur)))
                       (assoc "Range" (rev (headers ur)))
                else None;
              SDK.g_PartNumber :=
                if truthy (assoc "partnumber" (rev (headers ur)))
                then option_map parseInt
                       (nullish_opt (assoc "partnumber" (rev (headers ur)))
                          (nullish_opt (assoc "PartNumber" (rev (headers ur)))
                             (assoc "partNumber" (rev (headers ur)))))
                else None |}
     | HEAD => SDK.HeadObjectCommand {| SDK.h_Bucket := Backing.BUCKET; SDK.h_Key := key |}
     end = signed_command key (headers ur) method).
  { unfold signed_command, forwarded. destruct method; [|reflexivity].
    destruct (assoc "range" (rev (headers ur))) as [[|a r]|];
      destruct (assoc "partnumber" (rev (headers ur))) as [[|b p]|];
      reflexivity. }
  rewrite Hc. clear Hc.
  assert (Hs : ((if truthy (assoc "range" (rev (headers ur)))
        then match assoc "range" (rev (headers ur)) with
             | Some r => [("range", r)] | None => [] end
        else [])
       ++
       (if truthy (assoc "partnumber" (rev (headers ur)))
        then match assoc "partnumber" (rev (headers ur)) with
             | Some p => [("partnumber", p)] | None => [] end
        else []))%list = sent_headers (headers ur)).
  { unfold sent_headers, forwarded.
    destruct (assoc "range" (rev (headers ur))) as [[|a r]|];
      destruct (assoc "partnumber" (rev (headers ur))) as [[|b p]|];
      reflexivity. }
  rewrite Hs. clear Hs.
  cbv zeta. unfold call at 1.
  destruct (SDK.presign client (signed_command key (headers ur) method) 300)
    as [signed|e]; [|reflexivity].
  unfold bind at 1. unfold call, bind, ret.
  destruct (fetch signed method (sent_headers (headers ur))); reflexivity.
Qed.

Lemma forwarded_Some h k v :
  forwarded h k = Some v -> assoc k (rev h) = Some v /\ v <> EmptyString.
Proof.
  unfold forwarded. destruct (truthy (assoc k (rev h))) eqn:E; [|discriminate].
  apply truthy_Some in E as [s [Hs Hne]]. rewrite Hs. intros H.
  injection H as <-. split; [reflexivity | exact Hne].
Qed.

Lemma sent_headers_In h k v :
  In (k, v) (sent_headers h) ->
  (k = "range" \/ k = "partnumber")
  /\ v <> EmptyString /\ assoc k (rev h) = Some v.
Proof.
  unfold sent_headers. intros H. apply in_app_or in H as [H|H].
  - destruct (forwarded h "range") as [r|] eqn:E; [|destruct H].
    destruct H as [H|[]]. injection H as <- <-.
    apply forwarded_Some in E as [E1 E2]. auto.
  - destruct (forwarded h "partnumber") as [r|] eqn:E; [|destruct H].
    destruct H as [H|[]]. injection H as <- <-.
    apply forwarded_Some in E as [E1 E2]. auto.
Qed.

(** The calls of [makeS3Request]: two at most; a URL is signed for
    300 seconds, for a command on the fixed bucket, with the range and
    the part number that the user sent under [range] and [partnumber]
    (a GET) or none (a HEAD); the key of the command is the path of the
    decoded URL without its first slash, when the decoded URL is one
    whose path [new URL] keeps as it is written; the fetch goes to the
    signed URL with the method, and its headers are [range] and
    [partnumber] alone, each with the value, not empty, that the user
    sent under that name. *)
Theorem makeS3Request_call_shape :
  forall (fetch : string -> Method -> JSObject -> Exc Response)
         (client : SDK.S3Client) (url : string) (ur : UserRequest)
         (method : Method),
    let run := Backing.makeS3Request fetch client url ur method in
    (length (trace run) <= 2)%nat
    /\ (forall c n, In (GetSignedUrl c n) (trace run) ->
          n = 300%Z
          /\ command_bucket c = Backing.BUCKET
          /\ (exists d u,
                decodeURIComponent url = Ret d /\ URL_new d = Ret u
                /\ (location_kept d = true ->
                    command_key c = slice1 (pathname u)))
          /\ command_range c
             = match method with
               | GET => forwarded (headers ur) "range"
               | HEAD => None
               end
          /\ command_part c
             = match method with
               | GET => option_map parseInt
                          (forwarded (headers ur) "partnumber")
               | HEAD => None
               end)
    /\ (forall u m hs, In (Fetch u m hs) (trace run) ->
          m = method
          /\ (exists c, SDK.presign client c 300 = Ret u)
          /\ hs = sent_headers (headers ur)
          /\ forall k v, In (k, v) hs ->
               (k = "range" \/ k = "partnumber")
               /\ v <> EmptyString
               /\ assoc k (rev (headers ur)) = Some v).
Proof.
  intros fetch client url ur method run. subst run.
  rewrite makeS3Request_run.
  destruct (object_key url) as [key|e] eqn:Hkey.
  2:{ simpl. split; [lia|]. split; intros; contradiction. }
  cbv zeta.
  assert (Hurl : exists d u,
             decodeURIComponent url = Ret d /\ URL_new d = Ret u
             /\ key = slice1 (pathname u)).
  { unfold object_key in Hkey.
    destruct (decodeURIComponent url) as [d|e]; [|discriminate Hkey].
    cbn [bindE] in Hkey.
    destruct (URL_new d) as [u|e] eqn:Hu; [|discriminate Hkey].
    injection Hkey as <-. exists d, u.
    split; [reflexivity|]. split; [exact Hu | reflexivity]. }
  assert (Hcmd : forall c n,
             GetSignedUrl (signed_command key (headers ur) method) 300
             = GetSignedUrl c n ->
             n = 300%Z /\ command_bucket c = Backing.BUCKET
             /\ (exists d u,
                   decodeURIComponent url = Ret d /\ URL_new d = Ret u
                   /\ (location_kept d = true ->
                       command_key c = slice1 (pathname u)))
             /\ command_range c
                = match method with
                  | GET => forwarded (headers ur) "range"
                  | HEAD => None
                  end
             /\ command_part c
                = match method with
                  | GET => option_map parseInt
                             (forwarded (headers ur) "partnumber")
                  | HEAD => None
                  end).
  { intros c n H. injection H as <- <-.
    destruct Hurl as [d [u [Hd [Hu Hk]]]].
    split; [reflexivity|]. split; [destruct method; reflexivity|].
    split; [|destruct method; split; reflexivity].
    exists d, u. split; [exact Hd|]. split; [exact Hu|].
    intros _. destruct method; exact Hk. }
  destruct (SDK.presign client (signed_command key (headers ur) method) 300)
    as [signed|e] eqn:Hsign; unfold trace; cbn [fst length In].
  - split; [lia|]. split.
    + intros c n [H|[H|[]]]; [exact (Hcmd c n H) | discriminate H].
    + intros u m hs [H|[H|[]]]; [discriminate H|].
      injection H as <- <- <-. split; [reflexivity|]. split.
      * eexists. exact Hsign.
      * split; [reflexivity|]. intros k v. apply sent_headers_In.
  - split; [lia|]. split.
    + intros c n [H|[]]. exact (Hcmd c n H).
    + intros u m hs [H|[]]. discriminate H.
Qed.

(** The URL of [context_object] is kept, and the command that is signed
    for [request_ranged] asks for [photo.jpg]; a URL with a space in its
    path, with a dot segment or without a host is not kept. *)
Lemma makeS3Request_call_shape_witness :
  location_kept "https://bucket.example.com/my photo.jpg" = false
  /\ location_kept "https://bucket.example.com/a/../photo.jpg" = false
  /\ location_kept "https:///photo.jpg" = false
  /\ exists d u,
       decodeURIComponent (inputS3Url context_object) = Ret d
       /\ URL_new d = Ret u
       /\ location_kept d = true
       /\ command_key
            (signed_command "photo.jpg" (headers request_ranged) GET)
          = slice1 (pathname u).
Proof.
  split; [reflexivity|]. split; [reflexivity|]. split; [reflexivity|].
  destruct (proj1 (proj2 (proj2
              (proj1 (proj2
                 (makeS3Request_call_shape (fetch_answers response_ok)
                    (client_answers (Ret listing_output))
                    (inputS3Url context_object) request_ranged GET))
                 (signed_command "photo.jpg" (headers request_ranged) GET)
                 300%Z (or_introl eq_refl)))))
    as [d [u [Hd [Hu Hk]]]].
  assert (Hl : location_kept d = true).
  { vm_compute in Hd. injection Hd as <-. reflexivity. }
  exists d, u. split; [exact Hd|]. split; [exact Hu|].
  split; [exact Hl | exact (Hk Hl)].
Defined.

Lemma sent_headers_assoc h k :
  assoc k (sent_headers h)
  = if k =? "range" then forwarded h "range"
    else if k =? "partnumber" then forwarded h "partnumber" else None.
Proof.
  unfold sent_headers.
  destruct (forwarded h "range") as [r|]; destruct (forwarded h "partnumber") as [p|];
    cbn [app assoc fst snd]; rewrite ?(String.eqb_sym _ k);
    destruct (k =? "range") eqn:E1; try reflexivity;
    destruct (k =? "partnumber") eqn:E2; try reflexivity.
  apply String.eqb_eq in E1, E2. subst k. discriminate E2.
Qed.

(** Without a header named [range] in lower case, or with an empty
    one, [makeS3Request] signs a command without a range and sends no
    range header, whatever the user sent under [Range] or any other
    spelling. *)
Theorem makeS3Request_range_needs_exact_name :
  forall (fetch : string -> Method -> JSObject -> Exc Response)
         (client : SDK.S3Client) (url : string) (ur : UserRequest)
         (method : Method),
    truthy (assoc "range" (rev (headers ur))) = false ->
    let run := Backing.makeS3Request fetch client url ur method in
    (forall c n, In (GetSignedUrl c n) (trace run) -> command_range c = None)
    /\ (forall u m hs k, In (Fetch u m hs) (trace run) ->
          toLowerCase k = "range" -> prop hs k = None).
Proof.
  intros fetch client url ur method Hr run.
  assert (Hf : forwarded (headers ur) "range" = None).
  { unfold forwarded. rewrite Hr. reflexivity. }
  assert (Hh : forall k, toLowerCase k = "range" ->
                 prop (sent_headers (headers ur)) k = None).
  { intros k Hk. unfold prop. rewrite sent_headers_assoc, Hf.
    destruct (k =? "range"); [reflexivity|].
    destruct (k =? "partnumber") eqn:E; [|reflexivity].
    apply String.eqb_eq in E. subst k. discriminate Hk. }
  subst run. rewrite makeS3Request_run.
  destruct (object_key url) as [key|e].
  2:{ split; intros; contradiction. }
  cbv zeta.
  assert (Hcmd : command_range (signed_command key (headers ur) method) = None).
  { destruct method; [exact Hf | reflexivity]. }
  destruct (SDK.presign client (signed_command key (headers ur) method) 300)
    as [signed|e]; unfold trace; cbn [fst In].
  - split.
    + intros c n [H|[H|[]]]; [|discriminate H]. injection H as <- _. exact Hcmd.
    + intros u m hs k [H|[H|[]]]; [discriminate H|].
      injection H as _ _ <-. apply Hh.
  - split.
    + intros c n [H|[]]. injection H as <- _. exact Hcmd.
    + intros u m hs k [H|[]]. discriminate H.
Qed.

Lemma makeS3Request_range_needs_exact_name_witness :
  let run := Backing.makeS3Request (fetch_answers response_ok)
               (client_answers (Ret listing_output))
               (inputS3Url context_object) request_capital_range GET in
  trace run
  = [GetSignedUrl
       (SDK.GetObjectCommand
          {| SDK.g_Bucket := Backing.BUCKET; SDK.g_Key := "photo.jpg";
             SDK.g_Range := None; SDK.g_PartNumber := None |}) 300;
     Fetch "https://r2.example.com/signed" GET []]
  /\ (forall c n, In (GetSignedUrl c n) (trace run) -> command_range c = None)
  /\ (forall u m hs k, In (Fetch u m hs) (trace run) ->
        toLowerCase k = "range" -> prop hs k = None).
Proof.
  split; [vm_compute; reflexivity|].
  exact (makeS3Request_range_needs_exact_name (fetch_answers response_ok)
           (client_answers (Ret listing_output))
           (inputS3Url context_object) request_capital_range GET eq_refl).
Defined.

(** [makeS3Request] reads of the user request the headers [range] and
    [partnumber], when they are not empty, and nothing else: the URL of
    the user and every other header, the conditions among them, leave
    the run as it is. *)
Theorem makeS3Request_reads_range_and_partnumber_only :
  forall (fetch : string -> Method -> JSObject -> Exc Response)
         (client : SDK.S3Client) (url : string) (ur ur' : UserRequest)
         (method : Method),
    forwarded (headers ur) "range" = forwarded (headers ur') "range" ->
    forwarded (headers ur) "partnumber"
    = forwarded (headers ur') "partnumber" ->
    Backing.makeS3Request fetch client url ur method
    = Backing.makeS3Request fetch client url ur' method.
Proof.
  intros fetch client url ur ur' method Hr Hp.
  rewrite !makeS3Request_run. unfold signed_command, sent_headers.
  rewrite Hr, Hp. reflexivity.
Qed.

Lemma makeS3Request_reads_witness :
  Backing.makeS3Request (fetch_answers response_ok)
    (client_answers (Ret listing_output))
    (inputS3Url context_object) request_ranged GET
  = Backing.makeS3Request (fetch_answers response_ok)
      (client_answers (Ret listing_output))
      (inputS3Url context_object) request_range_only GET.
Proof.
  exact (makeS3Request_reads_range_and_partnumber_only
           (fetch_answers response_ok) (client_answers (Ret listing_output))
           (inputS3Url context_object) request_ranged request_range_only GET
           eq_refl eq_refl).
Defined.

(** ** Range and part number *)


Lemma lower_char_not_question c :
  not_question c = true -> not_question (lower_char c) = true.
Proof. by_cases_on_ascii c. Qed.

Lemma toLowerCase_not_question s :
  all not_question s = true -> all not_question (toLowerCase s) = true.
Proof.
  induction s as [|c s IH]; simpl; [reflexivity|].
  intros H. apply andb_prop in H as [Hc Hs].
  rewrite (lower_char_not_question c Hc). exact (IH Hs).
Qed.

Lemma cut_no_question s : all not_question s = true -> cut "?" s = (s, None).
Proof.
  induction s as [|a s IH]; [reflexivity|]. cbn [all cut]. intros H.
  apply andb_prop in H as [Ha Hs]. unfold not_question in Ha.
  destruct (Ascii.eqb a "?"); [discriminate|]. rewrite (IH Hs). reflexivity.
Qed.

Lemma URL_new_no_question s u :
  all not_question s = true -> URL_new s = Ret u -> query u = EmptyString.
Proof.
  intros Hs. unfold URL_new.
  pose proof (all_remove_tab_newline _ _ (all_rtrim _ _ (all_ltrim _ _ Hs))) as H.
  set (s' := remove_tab_newline (rtrim (ltrim s))) in *.
  destruct (split_scheme s') as [[sch rest]|] eqn:E; [|discriminate].
  assert (Hrest : all not_question rest = true).
  { unfold split_scheme in E. destruct s' as [|c r]; [discriminate|].
    destruct (is_alpha c); [|discriminate].
    exact (all_scheme_rest _ _ _ _ H E). }
  destruct (all_cut not_question "#" rest Hrest) as [Hf _].
  rewrite (cut_no_question _ Hf). intros [= <-]. reflexivity.
Qed.

Lemma getQueryParam_no_question s name u :
  all not_question s = true -> URL_new (toLowerCase s) = Ret u ->
  getQueryParam s name = Ret None.
Proof.
  intros Hs Hu. unfold getQueryParam. rewrite Hu. cbn [bindE].
  unfold searchParams_get, searchParams.
  rewrite (URL_new_no_question _ u (toLowerCase_not_question s Hs) Hu).
  reflexivity.
Qed.

Lemma getPartNumber_throws ur e :
  URL_new (toLowerCase (url ur)) = Throw e -> getPartNumber ur = Throw e.
Proof.
  intros H. unfold getPartNumber, getQueryParam. rewrite H. reflexivity.
Qed.

(** A URL that [new URL] refuses makes [applyRangeOrPartNumber] and
    [applyRangeOrPartNumberHeaders] throw, also when the range is in a
    header: the part number is read in the URL before the choice. *)
Theorem applyRangeOrPartNumber_needs_url :
  forall (E V : Type)
         (mapRange mapPartNumber : string -> Buffer -> RangeResponse E V)
         (mapRangeHead mapPartNumberHead :
            string -> list (string * V) -> RangeResponse E V)
         (buf : Buffer) (hdrs : list (string * V)) (ur : UserRequest)
         (e : JSError),
    URL_new (toLowerCase (url ur)) = Throw e ->
    applyRangeOrPartNumber mapRange mapPartNumber buf ur = Throw e
    /\ applyRangeOrPartNumberHeaders mapRangeHead mapPartNumberHead hdrs ur
       = Throw e.
Proof.
  intros E V mr mp mrh mph buf hdrs ur e H.
  unfold applyRangeOrPartNumber, applyRangeOrPartNumberHeaders.
  rewrite (getPartNumber_throws ur e H).
  unfold getRange.
  destruct (Map_has (lowerCaseHeaders ur) (toLowerCase RANGE)).
  - split; reflexivity.
  - unfold getQueryParam. rewrite H. split; reflexivity.
Qed.

Lemma applyRangeOrPartNumber_needs_url_witness :
  getRange request_relative_url = Ret (Some "bytes=0-9")
  /\ applyRangeOrPartNumber (mapper_named "range") (mapper_named "part")
       "payload" request_relative_url
     = Throw (TypeError "Invalid URL")
  /\ applyRangeOrPartNumberHeaders (head_mapper_named "range")
       (head_mapper_named "part") [("Content-Length", "7")]
       request_relative_url
     = Throw (TypeError "Invalid URL").
Proof.
  split; [reflexivity|].
  exact (applyRangeOrPartNumber_needs_url string string
           (mapper_named "range") (mapper_named "part")
           (head_mapper_named "range") (head_mapper_named "part")
           "payload" [("Content-Length", "7")] request_relative_url
           (TypeError "Invalid URL") eq_refl).
Defined.

(** A request with no range header and no question mark in its URL
    gets the buffer, or the headers, as they are. *)
Theorem request_without_query_or_range_header_is_whole :
  forall (E V : Type)
         (mapRange mapPartNumber : string -> Buffer -> RangeResponse E V)
         (mapRangeHead mapPartNumberHead :
            string -> list (string * V) -> RangeResponse E V)
         (buf : Buffer) (hdrs : list (string * V)) (ur : UserRequest)
         (u : URL),
    no_header ur RANGE ->
    all not_question (url ur) = true ->
    URL_new (toLowerCase (url ur)) = Ret u ->
    applyRangeOrPartNumber mapRange mapPartNumber buf ur
    = Ret {| object := Some buf; rheaders := None;
             hasError := false; errorResponse := None |}
    /\ applyRangeOrPartNumberHeaders mapRangeHead mapPartNumberHead hdrs ur
       = Ret {| object := None; rheaders := Some hdrs;
                hasError := false; errorResponse := None |}.
Proof.
  intros E V mr mp mrh mph buf hdrs ur u Hno Hq Hu.
  unfold applyRangeOrPartNumber, applyRangeOrPartNumberHeaders.
  unfold getRange, getPartNumber.
  rewrite (lowerCaseHeaders_no_header ur RANGE Hno).
  rewrite !(getQueryParam_no_question (url ur) _ u Hq Hu).
  split; reflexivity.
Qed.

Lemma no_header_request_whole : no_header request_whole RANGE.
Proof.
  intros k v [H|[]]. injection H as <- <-. discriminate.
Defined.

Lemma request_without_query_witness :
  applyRangeOrPartNumber (mapper_named "range") (mapper_named "part")
    "payload" request_whole
  = Ret {| object := Some "payload"; rheaders := None;
           hasError := false; errorResponse := None |}
  /\ applyRangeOrPartNumberHeaders (head_mapper_named "range")
       (head_mapper_named "part") [("Content-Length", "7")] request_whole
     = Ret {| object := None; rheaders := Some [("Content-Length", "7")];
              hasError := false; errorResponse := None |}.
Proof.
  exact (request_without_query_or_range_header_is_whole string string
           (mapper_named "range") (mapper_named "part")
           (head_mapper_named "range") (head_mapper_named "part")
           "payload" [("Content-Length", "7")] request_whole
           {| protocol := "https:"; pathname := "/photo.jpg";
              query := EmptyString |}
           no_header_request_whole eq_refl eq_refl).
Defined.

(** Of the headers whose names are [range] but for the case of their
    letters, [getRange] returns the value of the last. *)
Theorem getRange_last_spelling_wins :
  forall (ur : UserRequest) (before after : JSObject) (k v : string),
    headers ur = (before ++ (k, v) :: after)%list ->
    toLowerCase k = "range" ->
    (forall k' v', In (k', v') after -> toLowerCase k' <> "range") ->
    getRange ur = Ret (Some v).
Proof.
  intros ur before after k v Hh Hk Hafter.
  assert (Hget : Map_get (lowerCaseHeaders ur) "range" = Some v).
  { rewrite lowerCaseHeaders_get, Hh, map_app, rev_app_distr.
    cbn [map rev fst snd]. rewrite Hk, <- app_assoc, assoc_app.
    destruct (assoc "range" (rev (map _ after))) as [w|] eqn:E.
    - apply assoc_In, in_rev, in_map_iff in E as [[k' v'] [[= Hk' <-] Hin]].
      exfalso. exact (Hafter k' v' Hin Hk').
    - reflexivity. }
  unfold getRange, Map_has. change (toLowerCase RANGE) with "range".
  change (assoc "range" (lowerCaseHeaders ur))
    with (Map_get (lowerCaseHeaders ur) "range").
  rewrite Hget. reflexivity.
Qed.

Lemma getRange_last_spelling_wins_witness :
  getRange request_two_spellings = Ret (Some "bytes=5-6").
Proof.
  refine (getRange_last_spelling_wins request_two_spellings
            [("Range", "bytes=0-9"); ("Host", "ap.example.com")]
            [("Accept", "*/*")] "range" "bytes=5-6" eq_refl eq_refl _).
  intros k' v' [H|[]]. injection H as <- <-. discriminate.
Defined.

(* ================================================================== *)
(** * Further properties of the list handler *)
(* ================================================================== *)

Section ListHandlerRuns.
  Variable fetch : string -> Method -> JSObject -> Exc Response.
  Variable responseForS3Errors : Response -> Exc IResponse.
  Variable errorResponse : BaseObjectContext -> ErrorCode -> string -> IResponse.
  Variable this : ListObjectsHandler.t.
  Variable clients : Clients.
  Variable requestContext : BaseObjectContext.
  Variable userRequest : UserRequest.

  Local Abbreviation run :=
    (handleListObjectsRequest fetch responseForS3Errors errorResponse this
       clients requestContext userRequest).
  Local Abbreviation runOriginal :=
    (handleListObjectsRequestOriginal fetch responseForS3Errors errorResponse
       this requestContext userRequest).
  Local Abbreviation fetched :=
    (Fetch (inputS3Url requestContext) GET (original_headers userRequest)).
  Local Abbreviation answer :=
    (fetch (inputS3Url requestContext) GET (original_headers userRequest)).

(** The original path, step by step. *)
Lemma original_path :
  runOriginal =
  match answer with
  | Throw e => ([fetched], Throw e)
  | Ret resp =>
      match arrayBuffer resp with
      | Throw e => ([fetched], Throw e)
      | Ret body =>
          if (status resp >=? 400)%Z
          then ([fetched; ResponseForS3Errors resp], responseForS3Errors resp)
          else
            match createListObjectsJsonResponse (XMLTransformer this) body with
            | Throw e => ([fetched; ParseXml body], Throw e)
            | Ret None =>
                ([fetched; ParseXml body],
                 Ret (errorResponse requestContext NO_SUCH_KEY
                        "Requested key does not exist"))
            | Ret (Some parsed) =>
                match transformObject this parsed with
                | Throw e =>
                    ([fetched; ParseXml body; TransformObject parsed], Throw e)
                | Ret o' =>
                    ([fetched; ParseXml body; TransformObject parsed;
                      SerializeXml o'],
                     match createListObjectsXmlResponse (XMLTransformer this) o'
                     with
                     | Ret (Some xml) => Ret (IListObjectsResponse 200 xml)
                     | Ret None =>
                         Ret (IErrorResponse 500
                                "The Lambda function failed to transform the result to XML")
                     | Throw e => Throw e
                     end)
                end
            end
      end
  end.
Proof.
  unfold handleListObjectsRequestOriginal.
  unfold Backing.makeS3RequestOriginal. fold (original_headers userRequest).
  destruct answer as [resp|e]; [|reflexivity].
  unfold bind at 1. unfold call at 1.
  destruct (arrayBuffer resp) as [body|e]; [|reflexivity].
  unfold lift at 1. unfold bind at 1.
  destruct (status resp >=? 400)%Z.
  { unfold call. destruct (responseForS3Errors resp); reflexivity. }
  unfold stringFromArrayBuffer.
  destruct (createListObjectsJsonResponse _ body) as [[parsed|]|e];
    [|reflexivity|reflexivity].
  unfold call at 1. unfold bind at 1.
  destruct (transformObject this parsed) as [o'|e]; [|reflexivity].
  unfold call at 1. unfold bind at 1. rewrite writeResponse_run.
  destruct (createListObjectsXmlResponse _ o') as [[xml|]|e]; reflexivity.
Qed.

(** A context whose URL is refused: no call is made. *)
Lemma context_url_refused e :
  context_url requestContext = Throw e -> run = ([], Throw e).
Proof.
  intros H. unfold handleListObjectsRequest.
  fold (context_url requestContext). rewrite H. reflexivity.
Qed.

End ListHandlerRuns.

(** Every run of the list handler is one of the runs of
    [context_url_refused], [original_path] and [cloudflare_path]. *)
Ltac list_handler_cases fetch rfe er this clients ctx ur :=
  let u := fresh "u" in
  let e := fresh "e" in
  let Hu := fresh "Hu" in
  let Hv := fresh "Hv" in
  destruct (context_url ctx) as [u|e] eqn:Hu;
  [ destruct (verify_prefix u) eqn:Hv;
    [ rewrite (verify_prefix_original fetch rfe er this clients ctx ur u Hu Hv),
        (original_path fetch rfe er this ctx ur)
    | rewrite (cloudflare_path fetch rfe er this clients ctx ur u Hu Hv) ]
  | rewrite (context_url_refused fetch rfe er this clients ctx ur e Hu) ].

(** On the Cloudflare path the handler rejects just when the fetch of
    the original, or the reading of its body, rejects, and with the same
    error; every response that it returns has status 200 or 500. *)
Theorem cloudflare_path_rejects_only_on_fetch :
  forall (fetch : string -> Method -> JSObject -> Exc Response)
         (rfe : Response -> Exc IResponse)
         (er : BaseObjectContext -> ErrorCode -> string -> IResponse)
         (this : ListObjectsHandler.t) (clients : Clients)
         (ctx : BaseObjectContext) (ur : UserRequest) (u : URL),
    context_url ctx = Ret u ->
    verify_prefix u = false ->
    let run := handleListObjectsRequest fetch rfe er this clients ctx ur in
    let answer := fetch (inputS3Url ctx) GET (original_headers ur) in
    (forall e, outcome run = Throw e <->
               answer = Throw e
               \/ exists resp, answer = Ret resp /\ arrayBuffer resp = Throw e)
    /\ (forall r, outcome run = Ret r -> answered r = true).
Proof.
  intros fetch rfe er this clients ctx ur u Hu Hv run answer. subst run.
  rewrite (cloudflare_path fetch rfe er this clients ctx ur u Hu Hv).
  fold answer. destruct answer as [resp|e0].
  2:{ split.
      - intros e. cbn [outcome snd]. split.
        + intros [= <-]. left. reflexivity.
        + intros [[= <-]|[resp [H _]]]; [reflexivity | discriminate H].
      - intros r H. discriminate H. }
  destruct (arrayBuffer resp) as [body|e0] eqn:Hb.
  2:{ split.
      - intros e. cbn [outcome snd]. split.
        + intros [= <-]. right. exists resp. split; [reflexivity | exact Hb].
        + intros [H|[resp' [[= <-] H]]]; [discriminate H|]. congruence.
      - intros r H. discriminate H. }
  assert (Hno : forall e,
             ~ (Ret resp = Throw e
                \/ exists resp', Ret resp = Ret resp'
                                 /\ arrayBuffer resp' = Throw e)).
  { intros e [H|[resp' [[= <-] H]]]; [discriminate H | congruence]. }
  destruct (SDK.send (cloudflare clients) (list_command u)) as [response|e0].
  2:{ split; [intros e; split; [discriminate | intros H; destruct (Hno e H)]|].
      intros r [= <-]. reflexivity. }
  destruct (objectResponse_of response) as [o|e0].
  2:{ split; [intros e; split; [discriminate | intros H; destruct (Hno e H)]|].
      intros r [= <-]. reflexivity. }
  destruct (transformObject this o) as [o'|e0].
  2:{ split; [intros e; split; [discriminate | intros H; destruct (Hno e H)]|].
      intros r [= <-]. reflexivity. }
  cbn [outcome snd].
  destruct (createListObjectsXmlResponse (XMLTransformer this) o')
    as [[xml|]|e0];
    (split; [intros e; split; [discriminate | intros H; destruct (Hno e H)]|];
     intros r [= <-]; reflexivity).
Qed.

(** Where the argument of the transform comes from: on the original
    path it is what the parser made of the body of an answer with a
    status below 400; on the Cloudflare path it is the object built of
    the listing of the client, which holds no directory marker. *)
Theorem transformObject_argument_provenance :
  forall (fetch : string -> Method -> JSObject -> Exc Response)
         (rfe : Response -> Exc IResponse)
         (er : BaseObjectContext -> ErrorCode -> string -> IResponse)
         (this : ListObjectsHandler.t) (clients : Clients)
         (ctx : BaseObjectContext) (ur : UserRequest) (o : IBaseListObject),
    In (TransformObject o)
       (trace (handleListObjectsRequest fetch rfe er this clients ctx ur)) ->
    exists u,
      context_url ctx = Ret u
      /\ if verify_prefix u
         then exists resp body,
                fetch (inputS3Url ctx) GET (original_headers ur) = Ret resp
                /\ arrayBuffer resp = Ret body
                /\ (status resp < 400)%Z
                /\ createListObjectsJsonResponse (XMLTransformer this) body
                   = Ret (Some o)
         else exists response,
                SDK.send (cloudflare clients) (list_command u) = Ret response
                /\ objectResponse_of response = Ret o
                /\ holds_marker o = false.
Proof.
  intros fetch rfe er this clients ctx ur o.
  set (G := exists u, _).
  assert (Horiginal : forall u resp body,
             context_url ctx = Ret u -> verify_prefix u = true ->
             fetch (inputS3Url ctx) GET (original_headers ur) = Ret resp ->
             arrayBuffer resp = Ret body ->
             (status resp >=? 400)%Z = false ->
             createListObjectsJsonResponse (XMLTransformer this) body
             = Ret (Some o) -> G).
  { intros u resp body Hu Hv Hf Hb Hs Hp. exists u. split; [exact Hu|].
    rewrite Hv. exists resp, body. rewrite Z.geb_leb in Hs.
    apply Z.leb_gt in Hs. auto. }
  assert (Hcloudflare : forall u response,
             context_url ctx = Ret u -> verify_prefix u = false ->
             SDK.send (cloudflare clients) (list_command u) = Ret response ->
             objectResponse_of response = Ret o -> G).
  { intros u response Hu Hv Hsend Ho. exists u. split; [exact Hu|].
    rewrite Hv. exists response. split; [exact Hsend|]. split; [exact Ho|].
    exact (objectResponse_of_no_marker response o Ho). }
  clearbody G.
  list_handler_cases fetch rfe er this clients ctx ur.
  - destruct (fetch _ _ _) as [resp|e] eqn:Hf.
    2:{ intros [H|[]]. discriminate H. }
    destruct (arrayBuffer resp) as [body|e] eqn:Hb.
    2:{ intros [H|[]]. discriminate H. }
    destruct (status resp >=? 400)%Z eqn:Hs.
    { intros [H|[H|[]]]; discriminate H. }
    destruct (createListObjectsJsonResponse _ body) as [[parsed|]|e] eqn:Hp;
      try (intros [H|[H|[]]]; discriminate H).
    destruct (transformObject this parsed) as [o'|e].
    + intros [H|[H|[H|[H|[]]]]]; try discriminate H.
      injection H as ->. eapply Horiginal; first [reflexivity | eassumption].
    + intros [H|[H|[H|[]]]]; try discriminate H.
      injection H as ->. eapply Horiginal; first [reflexivity | eassumption].
  - destruct (fetch _ _ _) as [resp|e].
    2:{ intros [H|[]]. discriminate H. }
    destruct (arrayBuffer resp) as [body|e].
    2:{ intros [H|[]]. discriminate H. }
    destruct (SDK.send (cloudflare clients) (list_command u))
      as [response|e] eqn:Hsend.
    2:{ intros [H|[H|[]]]; discriminate H. }
    destruct (objectResponse_of response) as [o0|e] eqn:Ho.
    2:{ intros [H|[H|[]]]; discriminate H. }
    destruct (transformObject this o0) as [o'|e].
    + intros [H|[H|[H|[H|[]]]]]; try discriminate H.
      injection H as ->. eapply Hcloudflare; first [reflexivity | eassumption].
    + intros [H|[H|[H|[]]]]; try discriminate H.
      injection H as ->. eapply Hcloudflare; first [reflexivity | eassumption].
  - intros [].
Qed.

Lemma cloudflare_path_witness :
  let run := handleListObjectsRequest (fetch_answers response_404)
               status_forwarded error_404
               (new transform_identity Xml.transformer)
               (clients_answer (Throw network_error))
               context_list request_list in
  outcome run = Ret (IErrorResponse 500 (message network_error))
  /\ (forall e, outcome run = Throw e <->
        fetch_answers response_404 (inputS3Url context_list) GET
          (original_headers request_list) = Throw e
        \/ exists resp,
             fetch_answers response_404 (inputS3Url context_list) GET
               (original_headers request_list) = Ret resp
             /\ arrayBuffer resp = Throw e)
  /\ (forall r, outcome run = Ret r -> answered r = true).
Proof.
  split; [reflexivity|].
  exact (cloudflare_path_rejects_only_on_fetch (fetch_answers response_404)
           status_forwarded error_404
           (new transform_identity Xml.transformer)
           (clients_answer (Throw network_error))
           context_list request_list
           {| protocol := "https:"; pathname := "/";
              query := "list-type=2&prefix=photos/" |}
           eq_refl eq_refl).
Defined.

Lemma transformObject_argument_witness :
  exists u,
    context_url context_list = Ret u
    /\ if verify_prefix u
       then exists resp body,
              fetch_answers response_ok (inputS3Url context_list) GET
                (original_headers request_list) = Ret resp
              /\ arrayBuffer resp = Ret body
              /\ (status resp < 400)%Z
              /\ createListObjectsJsonResponse
                   (XMLTransformer (new transform_hide_all Xml.transformer))
                   body
                 = Ret (Some listing_filtered)
       else exists response,
              SDK.send (cloudflare (clients_answer (Ret listing_output)))
                (list_command u) = Ret response
              /\ objectResponse_of response = Ret listing_filtered
              /\ holds_marker listing_filtered = false.
Proof.
  apply (transformObject_argument_provenance (fetch_answers response_ok)
           status_forwarded error_404
           (new transform_hide_all Xml.transformer)
           (clients_answer (Ret listing_output))
           context_list request_list listing_filtered).
  vm_compute. right. right. left. reflexivity.
Defined.

(** A transform that throws: on the original path the handler rejects
    with its error; on the Cloudflare path the handler answers with
    status 500 and the message of the error. *)
Theorem transformObject_failure :
  forall (fetch : string -> Method -> JSObject -> Exc Response)
         (rfe : Response -> Exc IResponse)
         (er : BaseObjectContext -> ErrorCode -> string -> IResponse)
         (this : ListObjectsHandler.t) (clients : Clients)
         (ctx : BaseObjectContext) (ur : UserRequest)
         (u : URL) (o : IBaseListObject) (e : JSError),
    context_url ctx = Ret u ->
    In (TransformObject o)
       (trace (handleListObjectsRequest fetch rfe er this clients ctx ur)) ->
    transformObject this o = Throw e ->
    outcome (handleListObjectsRequest fetch rfe er this clients ctx ur)
    = if verify_prefix u then Throw e
      else Ret (IErrorResponse 500 (message e)).
Proof.
  intros fetch rfe er this clients ctx ur u o e Hu.
  destruct (verify_prefix u) eqn:Hv.
  - rewrite (verify_prefix_original fetch rfe er this clients ctx ur u Hu Hv),
      (original_path fetch rfe er this ctx ur).
    destruct (fetch _ _ _) as [resp|e0].
    2:{ intros [H|[]]. discriminate H. }
    destruct (arrayBuffer resp) as [body|e0].
    2:{ intros [H|[]]. discriminate H. }
    destruct (status resp >=? 400)%Z.
    { intros [H|[H|[]]]; discriminate H. }
    destruct (createListObjectsJsonResponse _ body) as [[parsed|]|e0];
      try (intros [H|[H|[]]]; discriminate H).
    destruct (transformObject this parsed) as [o'|e0] eqn:Ht.
    + intros [H|[H|[H|[H|[]]]]]; try discriminate H.
      injection H as <-. intros Ht'. congruence.
    + intros [H|[H|[H|[]]]]; try discriminate H.
      injection H as <-. intros Ht'. cbn [outcome snd]. congruence.
  - rewrite (cloudflare_path fetch rfe er this clients ctx ur u Hu Hv).
    destruct (fetch _ _ _) as [resp|e0].
    2:{ intros [H|[]]. discriminate H. }
    destruct (arrayBuffer resp) as [body|e0].
    2:{ intros [H|[]]. discriminate H. }
    destruct (SDK.send (cloudflare clients) (list_command u)) as [response|e0].
    2:{ intros [H|[H|[]]]; discriminate H. }
    destruct (objectResponse_of response) as [o0|e0].
    2:{ intros [H|[H|[]]]; discriminate H. }
    destruct (transformObject this o0) as [o'|e0] eqn:Ht.
    + intros [H|[H|[H|[H|[]]]]]; try discriminate H.
      injection H as <-. intros Ht'. congruence.
    + intros [H|[H|[H|[]]]]; try discriminate H.
      injection H as <-. intros Ht'. cbn [outcome snd]. congruence.
Qed.

Lemma transformObject_failure_witness :
  outcome (handleListObjectsRequest (fetch_answers response_ok)
             status_forwarded error_404
             (new (transform_fails transform_error) Xml.transformer)
             (clients_answer (Ret listing_output))
             context_list request_list)
  = Ret (IErrorResponse 500 "transform failed")
  /\ outcome (handleListObjectsRequest (fetch_answers response_ok)
                status_forwarded error_404
                (new (transform_fails transform_error) Xml.transformer)
                (clients_answer (Ret listing_output))
                context_verify request_list)
     = Throw transform_error.
Proof.
  split.
  - refine (transformObject_failure (fetch_answers response_ok)
              status_forwarded error_404
              (new (transform_fails transform_error) Xml.transformer)
              (clients_answer (Ret listing_output))
              context_list request_list
              {| protocol := "https:"; pathname := "/";
                 query := "list-type=2&prefix=photos/" |}
              listing_filtered transform_error eq_refl _ eq_refl).
    vm_compute. right. right. left. reflexivity.
  - refine (transformObject_failure (fetch_answers response_ok)
              status_forwarded error_404
              (new (transform_fails transform_error) Xml.transformer)
              (clients_answer (Ret listing_output))
              context_verify request_list
              {| protocol := "https:"; pathname := "/";
                 query := "list-type=2&prefix=verify_health" |}
              listing_parsed transform_error eq_refl _ eq_refl).
    vm_compute. right. right. left. reflexivity.
Defined.

(** The calls of a run of the list handler: the transform is called
    once at most, the serializer only after the transform and on its
    result, the client and the parser never both; no call is made just
    when the URL of the context is refused, and the first call is the
    fetch of the original with the headers of [getRequestHeaders]. *)
Theorem list_handler_call_discipline :
  forall (fetch : string -> Method -> JSObject -> Exc Response)
         (rfe : Response -> Exc IResponse)
         (er : BaseObjectContext -> ErrorCode -> string -> IResponse)
         (this : ListObjectsHandler.t) (clients : Clients)
         (ctx : BaseObjectContext) (ur : UserRequest),
    let t := trace (handleListObjectsRequest fetch rfe er this clients ctx ur) in
    (calls is_transform t <= 1)%nat
    /\ (calls is_serialize t <= calls is_transform t)%nat
    /\ (calls is_send t + calls is_parse t <= 1)%nat
    /\ (forall o', In (SerializeXml o') t ->
          exists o, In (TransformObject o) t
                    /\ transformObject this o = Ret o')
    /\ (t = [] <-> exists e, context_url ctx = Throw e)
    /\ (forall c, nth_error t 0 = Some c ->
          c = Fetch (inputS3Url ctx) GET (original_headers ur)).
Proof.
  intros fetch rfe er this clients ctx ur t. subst t.
  assert (Hempty : forall u T,
             context_url ctx = Ret u ->
             (Fetch (inputS3Url ctx) GET (original_headers ur) :: T = []
              <-> exists e, context_url ctx = Throw e)).
  { intros u T Hu. split; [discriminate|]. intros [e He]. congruence. }
  assert (Hfirst : forall T c,
             nth_error (Fetch (inputS3Url ctx) GET (original_headers ur) :: T) 0
             = Some c ->
             c = Fetch (inputS3Url ctx) GET (original_headers ur)).
  { intros T c [= <-]. reflexivity. }
  destruct (context_url ctx) as [u|e] eqn:Hu.
  2:{ rewrite (context_url_refused fetch rfe er this clients ctx ur e Hu).
      cbn. do 3 (split; [lia|]). split; [intros o' []|].
      split; [|discriminate]. split; [eauto | reflexivity]. }
  specialize (Hempty u).
  assert (Hserial : forall T o o',
             transformObject this o = Ret o' ->
             forall x, In (SerializeXml x) (T ++ [TransformObject o; SerializeXml o'])%list ->
                       (forall y, ~ In (SerializeXml y) T) ->
             exists o0, In (TransformObject o0) (T ++ [TransformObject o; SerializeXml o'])%list
                        /\ transformObject this o0 = Ret x).
  { intros T o o' Ht x Hin HT. apply in_app_or in Hin as [Hin|Hin].
    - destruct (HT x Hin).
    - destruct Hin as [H|[H|[]]]; [discriminate H|]. injection H as <-.
      exists o. split; [|exact Ht]. apply in_or_app. right. left. reflexivity. }
  destruct (verify_prefix u) eqn:Hv.
  - rewrite (verify_prefix_original fetch rfe er this clients ctx ur u Hu Hv),
      (original_path fetch rfe er this ctx ur).
    destruct (fetch _ _ _) as [resp|e0];
      [destruct (arrayBuffer resp) as [body|e0];
       [destruct (status resp >=? 400)%Z;
        [|destruct (createListObjectsJsonResponse _ body) as [[parsed|]|e0];
          [destruct (transformObject this parsed) as [o'|e0] eqn:Ht| |]]|]|];
      unfold trace; cbn [fst];
      (split; [cbn; lia|]); (split; [cbn; lia|]); (split; [cbn; lia|]);
      (split; [|split; [apply Hempty; reflexivity | apply Hfirst]]).
    all: try (intros x Hin; cbn [In] in Hin;
              repeat (destruct Hin as [Hin|Hin]; [discriminate Hin|]);
              destruct Hin; fail).
    intros x Hin.
    apply (Hserial [Fetch (inputS3Url ctx) GET (original_headers ur); ParseXml body]
             parsed o' Ht x Hin).
    intros y [H|[H|[]]]; discriminate H.
  - rewrite (cloudflare_path fetch rfe er this clients ctx ur u Hu Hv).
    destruct (fetch _ _ _) as [resp|e0];
      [destruct (arrayBuffer resp) as [body|e0];
       [destruct (SDK.send (cloudflare clients) (list_command u)) as [response|e0];
        [destruct (objectResponse_of response) as [o|e0];
          [destruct (transformObject this o) as [o'|e0] eqn:Ht|]|]|]|];
      unfold trace; cbn [fst];
      (split; [cbn; lia|]); (split; [cbn; lia|]); (split; [cbn; lia|]);
      (split; [|split; [apply Hempty; reflexivity | apply Hfirst]]).
    all: try (intros x Hin; cbn [In] in Hin;
              repeat (destruct Hin as [Hin|Hin]; [discriminate Hin|]);
              destruct Hin; fail).
    intros x Hin.
    apply (Hserial [Fetch (inputS3Url ctx) GET (original_headers ur);
                    Send (list_command u)]
             o o' Ht x Hin).
    intros y [H|[H|[]]]; discriminate H.
Qed.

(** ** The object built of a listing *)

Lemma content_of_Ret x c : content_of x = Ret c -> entry_of x c.
Proof.
  unfold content_of, entry_of.
  destruct (SDK.LastModified x) as [[s|]|]; cbn; intros H;
    try discriminate H; injection H as <-; cbn;
    repeat split; discriminate.
Qed.

Lemma content_of_Throw x e :
  content_of x = Throw e ->
  e = mkError "RangeError" "Invalid time value"
  /\ SDK.LastModified x = Some SDK.InvalidDate.
Proof.
  unfold content_of.
  destruct (SDK.LastModified x) as [[s|]|]; cbn; intros H;
    try discriminate H. injection H as <-. split; reflexivity.
Qed.

Lemma content_of_invalid x :
  SDK.LastModified x = Some SDK.InvalidDate ->
  content_of x = Throw (mkError "RangeError" "Invalid time value").
Proof. unfold content_of. intros ->. reflexivity. Qed.

Lemma content_of_marker x c :
  content_of x = Ret c -> isDirectoryMarker c = sdk_marker x.
Proof.
  unfold content_of, isDirectoryMarker, sdk_marker.
  destruct (SDK.LastModified x) as [[s|]|]; cbn; intros H;
    try discriminate H; injection H as <-; reflexivity.
Qed.

Lemma mapE_content_of l cs :
  mapE content_of l = Ret cs ->
  Forall2 entry_of (filter (fun x => negb (sdk_marker x)) l)
          (filter (fun c => negb (isDirectoryMarker c)) cs).
Proof.
  revert cs. induction l as [|x l IH]; cbn [mapE]; intros cs H.
  - injection H as <-. constructor.
  - destruct (content_of x) as [c|e] eqn:Hc; [|discriminate H].
    cbn [bindE] in H.
    destruct (mapE content_of l) as [cs'|e]; [|discriminate H].
    cbn [bindE] in H. injection H as <-. cbn [filter].
    rewrite (content_of_marker x c Hc).
    destruct (sdk_marker x); cbn [negb].
    + exact (IH cs' eq_refl).
    + constructor; [exact (content_of_Ret x c Hc) | exact (IH cs' eq_refl)].
Qed.

Lemma mapE_content_of_Throw l e :
  mapE content_of l = Throw e <->
  e = mkError "RangeError" "Invalid time value"
  /\ exists x, In x l /\ SDK.LastModified x = Some SDK.InvalidDate.
Proof.
  revert e. induction l as [|x l IH]; intros e; cbn [mapE].
  - split; [discriminate | intros [_ [x [[] _]]]].
  - destruct (content_of x) as [c|e0] eqn:Hc; cbn [bindE].
    + destruct (mapE content_of l) as [cs|e1]; cbn [bindE].
      * split; [discriminate|].
        intros [He [y [[<-|Hin] Hy]]].
        -- rewrite (content_of_invalid _ Hy) in Hc. discriminate Hc.
        -- assert (H : Ret cs = Throw e)
             by (apply IH; split; [exact He | exists y; auto]).
           discriminate H.
      * destruct (proj1 (IH e1) eq_refl) as [-> [y [Hin Hy]]]. split.
        -- intros [= <-]. split; [reflexivity|].
           exists y. split; [right; exact Hin | exact Hy].
        -- intros [-> _]. reflexivity.
    + destruct (content_of_Throw x e0 Hc) as [-> Hx]. split.
      * intros [= <-]. split; [reflexivity|]. exists x.
        split; [left; reflexivity | exact Hx].
      * intros [-> _]. reflexivity.
Qed.

(** The contents of the object built of a listing: the entries of the
    listing that are no directory markers, in their order, each with its
    key and date filled in and the rest as it was; a listing without
    contents gives an object without contents. *)
Theorem objectResponse_of_contents :
  forall (response : SDK.ListObjectsV2Output) (o : IBaseListObject),
    objectResponse_of response = Ret o ->
    match SDK.Contents response with
    | None => Contents o = None
    | Some l =>
        exists cs,
          Contents o = Some cs
          /\ Forall2 entry_of (filter (fun x => negb (sdk_marker x)) l) cs
    end.
Proof.
  intros response o. unfold objectResponse_of.
  destruct (SDK.Contents response) as [l|]; cbn [bindE].
  - destruct (mapE content_of l) as [cs|e] eqn:Hm; cbn [bindE];
      [|discriminate]. intros [= <-]. cbn [Contents].
    eexists. split; [reflexivity|]. exact (mapE_content_of l cs Hm).
  - intros [= <-]. reflexivity.
Qed.

Lemma objectResponse_of_contents_witness :
  match SDK.Contents listing_output with
  | None => Contents listing_filtered = None
  | Some l =>
      exists cs,
        Contents listing_filtered = Some cs
        /\ Forall2 entry_of (filter (fun x => negb (sdk_marker x)) l) cs
  end.
Proof.
  exact (objectResponse_of_contents listing_output listing_filtered eq_refl).
Defined.

(** Building the object of a listing throws just when an entry of the
    listing, a directory marker or not, has an invalid date; the error
    is the [RangeError] of [toISOString]. *)
Theorem objectResponse_of_throws_on_invalid_date :
  forall (response : SDK.ListObjectsV2Output) (e : JSError),
    objectResponse_of response = Throw e
    <-> e = mkError "RangeError" "Invalid time value"
        /\ exists l x,
             SDK.Contents response = Some l
             /\ In x l
             /\ SDK.LastModified x = Some SDK.InvalidDate.
Proof.
  intros response e. unfold objectResponse_of.
  destruct (SDK.Contents response) as [l|]; cbn [bindE].
  - destruct (mapE content_of l) as [cs|e'] eqn:Hm; cbn [bindE].
    + split; [discriminate|]. intros [He [l' [x [[= <-] [Hin Hx]]]]].
      assert (H : mapE content_of l = Throw e)
        by (apply mapE_content_of_Throw; split; [exact He | exists x; auto]).
      congruence.
    + apply mapE_content_of_Throw in Hm as [-> [x [Hin Hx]]]. split.
      * intros [= <-]. split; [reflexivity|]. exists l, x. auto.
      * intros [-> _]. reflexivity.
  - split; [discriminate|]. intros [_ [l [x [H _]]]]. discriminate H.
Qed.

Lemma mapE_content_of_invalid l x :
  In x l -> SDK.LastModified x = Some SDK.InvalidDate ->
  mapE content_of l = Throw (mkError "RangeError" "Invalid time value").
Proof.
  induction l as [|y l IH]; intros Hin Hx; [destruct Hin|].
  cbn [mapE]. destruct (content_of y) as [c|e] eqn:Hc.
  - destruct Hin as [->|Hin].
    + rewrite (content_of_invalid x Hx) in Hc. discriminate Hc.
    + cbn [bindE]. rewrite (IH Hin Hx). reflexivity.
  - unfold content_of in Hc.
    destruct (SDK.LastModified y) as [[s|]|]; cbn in Hc; try discriminate Hc.
    injection Hc as <-. reflexivity.
Qed.

(** A listing with an entry whose date is invalid: the Cloudflare
    path answers with status 500 and [Invalid time value], and the
    transform is not called. *)
Theorem invalid_date_answers_500 :
  forall (fetch : string -> Method -> JSObject -> Exc Response)
         (rfe : Response -> Exc IResponse)
         (er : BaseObjectContext -> ErrorCode -> string -> IResponse)
         (this : ListObjectsHandler.t) (clients : Clients)
         (ctx : BaseObjectContext) (ur : UserRequest)
         (u : URL) (resp : Response) (body : string)
         (response : SDK.ListObjectsV2Output)
         (l : list SDK._Object) (x : SDK._Object),
    context_url ctx = Ret u ->
    verify_prefix u = false ->
    fetch (inputS3Url ctx) GET (original_headers ur) = Ret resp ->
    arrayBuffer resp = Ret body ->
    SDK.send (cloudflare clients) (list_command u) = Ret response ->
    SDK.Contents response = Some l ->
    In x l ->
    SDK.LastModified x = Some SDK.InvalidDate ->
    handleListObjectsRequest fetch rfe er this clients ctx ur
    = ([Fetch (inputS3Url ctx) GET (original_headers ur);
        Send (list_command u)],
       Ret (IErrorResponse 500 "Invalid time value")).
Proof.
  intros fetch rfe er this clients ctx ur u resp body response l x
         Hu Hv Hf Hb Hsend Hc Hin Hx.
  rewrite (cloudflare_path fetch rfe er this clients ctx ur u Hu Hv).
  rewrite Hf, Hb, Hsend.
  assert (Ho : objectResponse_of response
               = Throw (mkError "RangeError" "Invalid time value")).
  { unfold objectResponse_of. rewrite Hc, (mapE_content_of_invalid l x Hin Hx).
    reflexivity. }
  rewrite Ho. reflexivity.
Qed.

Lemma invalid_date_answers_500_witness :
  handleListObjectsRequest (fetch_answers response_ok) status_forwarded
    error_404 (new transform_identity Xml.transformer)
    (clients_answer (Ret listing_invalid_date)) context_list request_list
  = ([Fetch (inputS3Url context_list) GET (original_headers request_list);
      Send (list_command {| protocol := "https:"; pathname := "/";
                            query := "list-type=2&prefix=photos/" |})],
     Ret (IErrorResponse 500 "Invalid time value")).
Proof.
  refine (invalid_date_answers_500 (fetch_answers response_ok) status_forwarded
            error_404 (new transform_identity Xml.transformer)
            (clients_answer (Ret listing_invalid_date)) context_list
            request_list
            {| protocol := "https:"; pathname := "/";
               query := "list-type=2&prefix=photos/" |}
            response_ok listing_xml listing_invalid_date
            [ {| SDK.Key := Some "b.txt";
                 SDK.LastModified := Some SDK.InvalidDate;
                 SDK.Size := Some 10%Z; SDK.Other := [] |} ]
            {| SDK.Key := Some "b.txt";
               SDK.LastModified := Some SDK.InvalidDate;
               SDK.Size := Some 10%Z; SDK.Other := [] |}
            eq_refl eq_refl eq_refl eq_refl eq_refl eq_refl _ eq_refl).
  left. reflexivity.
Defined.

(** The list handler reads of the user request the headers of
    [getRequestHeaders] and nothing else, and of the clients the
    Cloudflare client alone. *)
Theorem list_handler_reads_allowed_headers_only :
  forall (fetch : string -> Method -> JSObject -> Exc Response)
         (rfe : Response -> Exc IResponse)
         (er : BaseObjectContext -> ErrorCode -> string -> IResponse)
         (this : ListObjectsHandler.t) (clients clients' : Clients)
         (ctx : BaseObjectContext) (ur ur' : UserRequest),
    cloudflare clients = cloudflare clients' ->
    getRequestHeaders (headers ur) = getRequestHeaders (headers ur') ->
    handleListObjectsRequest fetch rfe er this clients ctx ur
    = handleListObjectsRequest fetch rfe er this clients' ctx ur'.
Proof.
  intros fetch rfe er this clients clients' ctx ur ur' Hc Hh.
  unfold handleListObjectsRequest, handleListObjectsRequestOriginal,
    Backing.makeS3RequestOriginal.
  rewrite Hc, Hh. reflexivity.
Qed.

Lemma list_handler_reads_allowed_headers_only_witness :
  handleListObjectsRequest (fetch_answers response_ok) status_forwarded
    error_404 (new transform_identity Xml.transformer)
    (clients_answer (Ret listing_output)) context_list request_list
  = handleListObjectsRequest (fetch_answers response_ok) status_forwarded
      error_404 (new transform_identity Xml.transformer)
      {| s3Client := client_answers (Throw network_error);
         cloudflare := client_answers (Ret listing_output) |}
      context_list request_other_url.
Proof.
  exact (list_handler_reads_allowed_headers_only (fetch_answers response_ok)
           status_forwarded error_404 (new transform_identity Xml.transformer)
           (clients_answer (Ret listing_output))
           {| s3Client := client_answers (Throw network_error);
              cloudflare := client_answers (Ret listing_output) |}
           context_list request_list request_other_url eq_refl eq_refl).
Defined.
